(** * safes.io — the ONNX Chrome extension

    A shallow embedding of the two JavaScript modules that carry the
    extension's logic:

    - [image_processor.js]: [processImage], the letterbox preprocessor
      (aspect-preserving resize to 320x320, black padding, RGBA to planar
      float32 conversion);
    - [background.js]: the service worker holding the global [ortSession],
      [initializeModel] and [handleProcessImage];
    - [popup.js]: [handleImageUpload] with its helpers [updateStatus],
      [loadImage] and [showPreview].

    What the browser and onnxruntime decide is left to parameters: the
    canvas calls [createImageBitmap] and [drawImage] ([Browser]), the
    [ort.Tensor] constructor and the [dispose] method of its tensors
    ([Engine]), the settling of the [create] and [run] promises (the
    [Event]s of the worker), and for the popup the decoding of the chosen
    file, the drawing of the preview and the answer of the messaging channel
    ([Popup.Env]).  [ortEngine] is the engine of onnxruntime-web 1.16.3,
    the version [background.js] imports.

    JavaScript numbers are IEEE-754 binary64 values.  They are modelled by
    their exact rational value together with the two infinities and NaN; every
    arithmetic operation rounds its exact result to the nearest representable
    value, ties to even.  The sign of zero is not tracked: every quantity of
    [processImage] is non-negative. *)

From Stdlib Require Import ZArith QArith Qround Qabs Qpower Qreduction Qminmax.
From Stdlib Require Import Lia Lqa Bool Ascii String.
From Stdlib Require Import SpecFloat.
From stdpp Require Import base option list gmap pretty.

Open Scope Z_scope.

(* ===================================================================== *)
(** ** JavaScript numbers *)
(* ===================================================================== *)

Module JsNumber.

Inductive number : Type :=
| Num (q : Q)
| Inf (negative : bool)
| NaN.

(** A binary floating-point format: [prec] significant bits, smallest normal
    exponent [emin], overflow threshold [2 ^ emax]. *)
Record format : Type := { prec : Z; emin : Z; emax : Z }.

Definition binary64 : format := {| prec := 53; emin := -1022; emax := 1024 |}.
Definition binary32 : format := {| prec := 24; emin := -126; emax := 128 |}.

(** [ilog2 q] is the binary exponent of a positive rational:
    [2 ^ ilog2 q <= q < 2 ^ (ilog2 q + 1)]. *)
Definition ilog2 (q : Q) : Z :=
  let k := Z.log2 (Qnum q) - Z.log2 (Zpos (Qden q)) in
  if Qle_bool (2 ^ k) q then k else k - 1.

(** Nearest integer, ties to the even one. *)
Definition round_half_even (t : Q) : Z :=
  let f := Qfloor t in
  match (t - inject_Z f ?= 1 # 2)%Q with
  | Lt => f
  | Gt => f + 1
  | Eq => if Z.even f then f else f + 1
  end.

Definition is_neg (q : Q) : bool := negb (Qle_bool 0 q).

(** Rounding of an exact result into a format (round to nearest, ties to
    even; gradual underflow below [2 ^ emin]; overflow to an infinity). *)
Definition fround (fmt : format) (x : Q) : number :=
  let q := Qred x in
  if Qeq_bool q 0 then Num 0
  else
    let e := Z.max (ilog2 (Qabs q)) (emin fmt) in
    let ulp := (2 ^ (e - (prec fmt - 1)))%Q in
    let r := (inject_Z (round_half_even (q / ulp)) * ulp)%Q in
    if Qle_bool (2 ^ emax fmt) (Qabs r) then Inf (is_neg q) else Num (Qred r).

Definition of_int (z : Z) : number := Num (inject_Z z).

(** [x / y] *)
Definition fdiv (x y : number) : number :=
  match x, y with
  | NaN, _ | _, NaN => NaN
  | Inf _, Inf _ => NaN
  | Inf s, Num q => Inf (xorb s (is_neg q))
  | Num _, Inf _ => Num 0
  | Num p, Num q =>
      if Qeq_bool q 0
      then if Qeq_bool p 0 then NaN else Inf (is_neg p)
      else fround binary64 (p / q)
  end.

(** [x * y] *)
Definition fmul (x y : number) : number :=
  match x, y with
  | NaN, _ | _, NaN => NaN
  | Inf s, Inf t => Inf (xorb s t)
  | Inf s, Num q | Num q, Inf s =>
      if Qeq_bool q 0 then NaN else Inf (xorb s (is_neg q))
  | Num p, Num q => fround binary64 (p * q)
  end.

(** [x - y] *)
Definition fsub (x y : number) : number :=
  match x, y with
  | NaN, _ | _, NaN => NaN
  | Inf s, Inf t => if Bool.eqb s t then NaN else Inf s
  | Inf s, Num _ => Inf s
  | Num _, Inf t => Inf (negb t)
  | Num p, Num q => fround binary64 (p - q)
  end.

(** [x >= y]; any comparison with NaN is false. *)
Definition fge (x y : number) : bool :=
  match x, y with
  | NaN, _ | _, NaN => false
  | Inf s, Inf t => implb s t
  | Inf s, Num _ => negb s
  | Num _, Inf t => t
  | Num p, Num q => Qle_bool q p
  end.

(** [Math.round]: nearest integer, ties towards [+Infinity]. *)
Definition Math_round (x : number) : number :=
  match x with
  | Num q => Num (inject_Z (Qfloor (q + (1 # 2))))
  | _ => x
  end.

Definition Math_floor (x : number) : number :=
  match x with
  | Num q => Num (inject_Z (Qfloor q))
  | _ => x
  end.

Definition Math_ceil (x : number) : number :=
  match x with
  | Num q => Num (inject_Z (Qceiling q))
  | _ => x
  end.

(** Storing a number into a [Float32Array] element. *)
Definition to_float32 (x : number) : number :=
  match x with
  | Num q => fround binary32 q
  | _ => x
  end.

(** Assigning a number to an [unsigned long] attribute such as
    [canvas.width] (WebIDL conversion: NaN and the infinities become 0,
    other values are truncated and wrapped modulo [2 ^ 32]). *)
Definition to_uint32 (x : number) : Z :=
  match x with
  | Num q => (if Qle_bool 0 q then Qfloor q else Qceiling q) mod 2 ^ 32
  | _ => 0
  end.

End JsNumber.
Import JsNumber.

(* ===================================================================== *)
(** ** Exceptions *)
(* ===================================================================== *)

(** A thrown JavaScript value: an [Error] or a [DOMException], with its
    [name] and [message]. *)
Record exn : Type := mkExn { exn_name : string; exn_message : string }.

Inductive result (A : Type) : Type :=
| Ok (a : A)
| Throw (e : exn).
Arguments Ok {A} a.
Arguments Throw {A} e.

#[global] Instance result_bind : MBind result :=
  fun A B (f : A -> result B) (x : result A) =>
    match x with
    | Ok a => f a
    | Throw e => Throw e
    end.

(* ===================================================================== *)
(** ** image_processor.js *)
(* ===================================================================== *)

Module ImageProcessor.

(** One RGBA pixel of a canvas or bitmap, four samples in [0, 255]. *)
Record rgba : Type := mkRgba { red : Byte.byte; green : Byte.byte; blue : Byte.byte; alpha : Byte.byte }.

Definition transparent_black : rgba := mkRgba Byte.x00 Byte.x00 Byte.x00 Byte.x00.
Definition black : rgba := mkRgba Byte.x00 Byte.x00 Byte.x00 Byte.xff.

Record ImageBitmap : Type :=
  { width : Z; height : Z; bitmap_pixel : Z -> Z -> rgba }.

Record HTMLImageElement : Type :=
  { naturalWidth : Z; naturalHeight : Z; image_pixel : Z -> Z -> rgba }.

(** The argument of [processImage]; the constructor is what
    [instanceof ImageBitmap] tests. *)
Inductive ImageSource : Type :=
| Bitmap (b : ImageBitmap)
| Element (img : HTMLImageElement).

(** A canvas element with its bitmap. *)
Record Canvas : Type :=
  { canvas_width : Z; canvas_height : Z; canvas_pixel : Z -> Z -> rgba }.

Inductive CanvasImageSource : Type :=
| FromBitmap (b : ImageBitmap)
| FromCanvas (c : Canvas).

(** The browser calls whose outcome the module does not decide: decoding an
    image element and drawing (with resampling) onto a canvas.  Both may
    throw. *)
Record Browser : Type :=
  { createImageBitmap : HTMLImageElement -> result ImageBitmap;
    drawImage : Canvas -> CanvasImageSource ->
                number -> number -> number -> number -> result Canvas }.

(** [document.createElement('canvas')]: 300 x 150, transparent black. *)
Definition createCanvas : Canvas :=
  {| canvas_width := 300; canvas_height := 150;
     canvas_pixel := fun _ _ => transparent_black |}.

(** [canvas.width = w; canvas.height = h]: the bitmap is cleared. *)
Definition setSize (c : Canvas) (w h : number) : Canvas :=
  {| canvas_width := to_uint32 w; canvas_height := to_uint32 h;
     canvas_pixel := fun _ _ => transparent_black |}.

Definition inside (c : Canvas) (x y : Z) : bool :=
  (0 <=? x) && (x <? canvas_width c) && (0 <=? y) && (y <? canvas_height c).

(** [ctx.fillStyle = colour; ctx.fillRect(x, y, w, h)] *)
Definition fillRect (c : Canvas) (colour : rgba) (x y w h : Z) : Canvas :=
  {| canvas_width := canvas_width c; canvas_height := canvas_height c;
     canvas_pixel := fun px py =>
       if (x <=? px) && (px <? x + w) && (y <=? py) && (py <? y + h)
       then colour else canvas_pixel c px py |}.

(** A pixel as [getImageData] reads it: transparent black outside the
    canvas. *)
Definition readPixel (c : Canvas) (x y : Z) : rgba :=
  if inside c x y then canvas_pixel c x y else transparent_black.

Definition Zseq (n : Z) : list Z := map Z.of_nat (seq 0 (Z.to_nat n)).

(** [ctx.getImageData(sx, sy, sw, sh).data]: row-major, four samples per
    pixel. *)
Definition getImageData (c : Canvas) (sx sy sw sh : Z) : list Byte.byte :=
  flat_map (fun y =>
    flat_map (fun x =>
      let p := readPixel c (sx + x) (sy + y) in
      [red p; green p; blue p; alpha p]) (Zseq sw)) (Zseq sh).

(** Lines 27-33: the bitmap [processImage] works on. *)
Definition imageBitmapOf (B : Browser) (imageOrBitmap : ImageSource)
    : result ImageBitmap :=
  match imageOrBitmap with
  | Bitmap b => Ok b
  | Element img => createImageBitmap B img
  end.

(** Reading [data[i]] of a [Uint8ClampedArray] as a number; out of range it
    is [undefined], which arithmetic turns into NaN. *)
Definition sample (data : list Byte.byte) (i : nat) : number :=
  match data !! i with
  | Some b => of_int (Z.of_N (Byte.to_N b))
  | None => NaN
  end.

(** Lines 35-50: the aspect ratio and the resized dimensions
    [(newWidth, newHeight)]. *)
Definition resize (targetSize imgWidth imgHeight : Z) : number * number :=
  let aspect := fdiv (of_int imgWidth) (of_int imgHeight) in
  if fge (of_int imgWidth) (of_int imgHeight)
  then (of_int targetSize, Math_round (fdiv (of_int targetSize) aspect))
  else (Math_round (fmul (of_int targetSize) aspect), of_int targetSize).

(** Lines 99-109: the conversion loop.  [i] advances by 4; [fuel] bounds the
    number of iterations.  A write past the end of the [Float32Array] is
    ignored, as is stdpp's list insert. *)
Fixpoint fill (targetSize : Z) (data : list Byte.byte) (fuel i : nat)
    (float32Data : list number) : list number :=
  match fuel with
  | O => float32Data
  | S fuel' =>
      if (i <? length data)%nat then
        let pixelIndex := (i / 4)%nat in
        let rVal := sample data (i + 0) in
        let gVal := sample data (i + 1) in
        let bVal := sample data (i + 2) in
        let float32Data :=
          <[pixelIndex := to_float32 (fdiv rVal (of_int 255))]> float32Data in
        let float32Data :=
          <[(pixelIndex + Z.to_nat (targetSize * targetSize))%nat :=
              to_float32 (fdiv gVal (of_int 255))]> float32Data in
        let float32Data :=
          <[(pixelIndex + Z.to_nat (2 * targetSize * targetSize))%nat :=
              to_float32 (fdiv bVal (of_int 255))]> float32Data in
        fill targetSize data fuel' (i + 4) float32Data
      else float32Data
  end.

(** Lines 91-109: [new Float32Array(3 * targetSize * targetSize)] (zero
    filled) and the loop over [imageData.data]. *)
Definition toFloat32Data (targetSize : Z) (data : list Byte.byte) : list number :=
  fill targetSize data (length data) 0
       (replicate (Z.to_nat (3 * targetSize * targetSize)) (Num 0)).

(** The object [processImage] resolves to. *)
Record LetterboxResult : Type :=
  { float32Data : list number;
    dims : list Z;
    resizeFactor : number;
    padLeft : number;
    padTop : number }.

(** Lines 52-58: the temporary canvas holding the resized image. *)
Definition resizeStep (B : Browser) (imageBitmap : ImageBitmap)
    (newWidth newHeight : number) : result Canvas :=
  let resizeCanvas := setSize createCanvas newWidth newHeight in
  drawImage B resizeCanvas (FromBitmap imageBitmap)
            (of_int 0) (of_int 0) newWidth newHeight.

(** Lines 70-80: the black square canvas with the resized image drawn at
    [(padLeft, padTop)]. *)
Definition padStep (B : Browser) (targetSize : Z) (resizeCanvas : Canvas)
    (padLeft padTop newWidth newHeight : number) : result Canvas :=
  let paddedCanvas := setSize createCanvas (of_int targetSize) (of_int targetSize) in
  let paddedCanvas := fillRect paddedCanvas black 0 0 targetSize targetSize in
  drawImage B paddedCanvas (FromCanvas resizeCanvas) padLeft padTop newWidth newHeight.

Definition processImage (B : Browser) (imageOrBitmap : ImageSource)
    : result LetterboxResult :=
  let targetSize := 320 in
  imageBitmap ← imageBitmapOf B imageOrBitmap;
  let imgWidth := width imageBitmap in
  let imgHeight := height imageBitmap in
  let '(newWidth, newHeight) := resize targetSize imgWidth imgHeight in
  resizeCanvas ← resizeStep B imageBitmap newWidth newHeight;
  let padX := fsub (of_int targetSize) newWidth in
  let padY := fsub (of_int targetSize) newHeight in
  let padLeft := Math_floor (fdiv padX (of_int 2)) in
  let padRight := Math_ceil (fdiv padX (of_int 2)) in
  let padTop := Math_floor (fdiv padY (of_int 2)) in
  let padBottom := Math_ceil (fdiv padY (of_int 2)) in
  paddedCanvas ← padStep B targetSize resizeCanvas padLeft padTop newWidth newHeight;
  let imageData := getImageData paddedCanvas 0 0 targetSize targetSize in
  let float32Data := toFloat32Data targetSize imageData in
  let resizeFactor := of_int 1 in
  Ok {| float32Data := float32Data;
        dims := [1; 3; targetSize; targetSize];
        resizeFactor := resizeFactor;
        padLeft := padLeft;
        padTop := padTop |}.

(** A browser whose calls never throw: decoding keeps the picture, drawing
    resamples by nearest neighbour into the destination rectangle.  It
    serves as a concrete environment for examples. *)
Definition sourceWidth (s : CanvasImageSource) : Z :=
  match s with FromBitmap b => width b | FromCanvas c => canvas_width c end.
Definition sourceHeight (s : CanvasImageSource) : Z :=
  match s with FromBitmap b => height b | FromCanvas c => canvas_height c end.
Definition sourcePixel (s : CanvasImageSource) (x y : Z) : rgba :=
  match s with FromBitmap b => bitmap_pixel b x y | FromCanvas c => readPixel c x y end.

Definition nearestDraw (c : Canvas) (s : CanvasImageSource)
    (dx dy dw dh : number) : result Canvas :=
  let x0 := to_uint32 dx in let y0 := to_uint32 dy in
  let w := to_uint32 dw in let h := to_uint32 dh in
  Ok {| canvas_width := canvas_width c; canvas_height := canvas_height c;
        canvas_pixel := fun px py =>
          if (x0 <=? px) && (px <? x0 + w) && (y0 <=? py) && (py <? y0 + h)
          then sourcePixel s ((px - x0) * sourceWidth s / w) ((py - y0) * sourceHeight s / h)
          else canvas_pixel c px py |}.

Definition lenientBrowser : Browser :=
  {| createImageBitmap := fun img =>
       Ok {| width := naturalWidth img; height := naturalHeight img;
             bitmap_pixel := image_pixel img |};
     drawImage := nearestDraw |}.

End ImageProcessor.
Import ImageProcessor.

(* ===================================================================== *)
(** ** background.js *)
(* ===================================================================== *)

Module Background.

(** A loaded inference session (what [ort.InferenceSession.create] resolves
    to) with its declared output names. *)
Record Session : Type := { session_id : nat; outputNames : list string }.

(** An output tensor of [session.run]: its [data] and [dims]. *)
Record OutputTensor : Type := { data : list number; output_dims : list Z }.

(** The message sent by the popup. *)
Record Request : Type :=
  { type : string; tensorData : list number; dimensions : list Z }.

(** What [sendResponse] is called with. *)
Inductive Response : Type :=
| Result (rawDataLength : nat) (rawDims : list Z) (placeholder : string)
| ErrorResponse (error : string).

Record SessionOptions : Type :=
  { executionProviders : list string;
    graphOptimizationLevel : string;
    enableCpuMemArena : bool }.

(** The calls made to the inference engine, in order. *)
Inductive Call : Type :=
| CreateCall (modelPath : string) (sessionOptions : SessionOptions)
| TensorCall (tensor : nat)
| RunCall (session : Session) (tensor : nat)
| DisposeCall (tensor : nat).

(** The part of onnxruntime the worker depends on synchronously: what
    [new ort.Tensor('float32', data, dims)] throws, if it throws, and what
    the call [inputTensor.dispose()] throws, if it throws. *)
Record Engine : Type :=
  { newTensor : list number -> list Z -> option exn;
    tensorDispose : option exn }.

(** Which listener started an [initializeModel] activation. *)
Inductive Trigger : Type := OnInstalled | OnStartup.

(** How an [initializeModel] promise settled. *)
Inductive Settled : Type :=
| Fulfilled
| Rejected (err : exn).

(** The service worker: the global [ortSession], the activations of the two
    async functions that are suspended at their [await], and what has been
    observed so far. *)
Record Worker : Type :=
  { ortSession : option Session;
    pendingInit : gmap nat Trigger;
    nextInit : nat;
    pendingRun : gset nat;
    nextRequest : nat;
    calls : list Call;
    responses : list (nat * Response);
    settled : list (nat * Settled);
    reloadTimers : nat }.

Definition initial : Worker :=
  {| ortSession := None; pendingInit := ∅; nextInit := 0;
     pendingRun := ∅; nextRequest := 0;
     calls := []; responses := []; settled := []; reloadTimers := 0 |}.

(** What the environment makes happen: the two lifecycle events, a message
    from the popup, and the settling of a pending [create] or [run]
    promise ([k] names the activation that awaits it). *)
Inductive Event : Type :=
| Installed
| Startup
| CreateResolved (k : nat) (session : Session)
| CreateRejected (k : nat) (err : exn)
| Message (request : Request)
| RunResolved (k : nat) (outputs : gmap string OutputTensor)
| RunRejected (k : nat) (err : exn).

(** [chrome.runtime.getURL('public/best.onnx')], up to the extension's
    origin. *)
Definition modelPath : string := "public/best.onnx".

Definition sessionOptions : SessionOptions :=
  {| executionProviders := ["wasm"%string];
     graphOptimizationLevel := "all";
     enableCpuMemArena := false |}.

(** [initializeModel], lines 36-46, up to the [await]: the engine is asked
    to create a session. *)
Definition initializeModel (trigger : Trigger) (w : Worker) : Worker :=
  {| ortSession := ortSession w;
     pendingInit := <[nextInit w := trigger]> (pendingInit w);
     nextInit := S (nextInit w);
     pendingRun := pendingRun w; nextRequest := nextRequest w;
     calls := calls w ++ [CreateCall modelPath sessionOptions];
     responses := responses w; settled := settled w;
     reloadTimers := reloadTimers w |}.

(** [initializeModel], lines 46-47, after the [await] fulfilled:
    [ortSession = <the session>]. *)
Definition initializeModel_resolved (k : nat) (session : Session) (w : Worker)
    : Worker :=
  {| ortSession := Some session;
     pendingInit := delete k (pendingInit w);
     nextInit := nextInit w;
     pendingRun := pendingRun w; nextRequest := nextRequest w;
     calls := calls w; responses := responses w;
     settled := settled w ++ [(k, Fulfilled)];
     reloadTimers := reloadTimers w |}.

(** [initializeModel], lines 48-51, after the [await] rejected: the error is
    logged and thrown again; the startup listener's [catch] then arms the
    reload timer (lines 26-29).  The reload itself replaces the worker by a
    fresh one in its [initial] state. *)
Definition initializeModel_rejected (k : nat) (trigger : Trigger) (err : exn)
    (w : Worker) : Worker :=
  {| ortSession := ortSession w;
     pendingInit := delete k (pendingInit w);
     nextInit := nextInit w;
     pendingRun := pendingRun w; nextRequest := nextRequest w;
     calls := calls w; responses := responses w;
     settled := settled w ++ [(k, Rejected err)];
     reloadTimers :=
       match trigger with
       | OnStartup => S (reloadTimers w)
       | OnInstalled => reloadTimers w
       end |}.

Definition respond (r : Response) (w : Worker) : Worker :=
  {| ortSession := ortSession w;
     pendingInit := pendingInit w; nextInit := nextInit w;
     pendingRun := pendingRun w; nextRequest := nextRequest w;
     calls := calls w;
     responses := responses w ++ [(nextRequest w, r)];
     settled := settled w; reloadTimers := reloadTimers w |}.

Definition nextId (w : Worker) : Worker :=
  {| ortSession := ortSession w;
     pendingInit := pendingInit w; nextInit := nextInit w;
     pendingRun := pendingRun w; nextRequest := S (nextRequest w);
     calls := calls w; responses := responses w;
     settled := settled w; reloadTimers := reloadTimers w |}.

Definition notInitialized : string := "Model not initialized. Try again later.".

(** [handleProcessImage], lines 76-85, up to the [await]; a throw becomes
    the [{ error: error.message }] response of the listener's [catch]
    (line 66). *)
Definition handleProcessImage (E : Engine) (request : Request) (w : Worker)
    : Worker :=
  match ortSession w with
  | None => nextId (respond (ErrorResponse notInitialized) w)
  | Some session =>
      match newTensor E (tensorData request) (dimensions request) with
      | Some err => nextId (respond (ErrorResponse (exn_message err)) w)
      | None =>
          {| ortSession := ortSession w;
             pendingInit := pendingInit w; nextInit := nextInit w;
             pendingRun := {[nextRequest w]} ∪ pendingRun w;
             nextRequest := S (nextRequest w);
             calls := calls w ++ [TensorCall (nextRequest w);
                                  RunCall session (nextRequest w)];
             responses := responses w;
             settled := settled w; reloadTimers := reloadTimers w |}
      end
  end.

Definition placeholderText : string := "You can do real postprocessing here.".

Definition cannotRead : string :=
  "Cannot read properties of undefined (reading 'data')".

(** Lines 92-101: the summary of the first declared output.  [ortSession] is
    read again here, after the [await]. *)
Definition summarize (current : option Session)
    (outputs : gmap string OutputTensor) : Response :=
  match current with
  | None => ErrorResponse cannotRead
  | Some session =>
      let firstOutputName :=
        match outputNames session with
        | name :: _ => name
        | [] => "undefined"%string
        end in
      match outputs !! firstOutputName with
      | Some t => Result (length (data t)) (output_dims t) placeholderText
      | None => ErrorResponse cannotRead
      end
  end.

(** [handleProcessImage] after [session.run] rejected: the [await] throws,
    nothing after line 85 runs, and the listener's [catch] answers. *)
Definition handleProcessImage_rejected (k : nat) (err : exn) (w : Worker)
    : Worker :=
  {| ortSession := ortSession w;
     pendingInit := pendingInit w; nextInit := nextInit w;
     pendingRun := pendingRun w ∖ {[k]};
     nextRequest := nextRequest w;
     calls := calls w;
     responses := responses w ++ [(k, ErrorResponse (exn_message err))];
     settled := settled w; reloadTimers := reloadTimers w |}.

(** [handleProcessImage], lines 86-101, after [session.run] fulfilled.  When
    the call [inputTensor.dispose()] of line 86 throws, nothing after it
    runs and the listener's [catch] answers, as after a rejected run;
    otherwise the tensor is disposed and the first output summarized. *)
Definition handleProcessImage_resolved (E : Engine) (k : nat)
    (outputs : gmap string OutputTensor) (w : Worker) : Worker :=
  match tensorDispose E with
  | Some err => handleProcessImage_rejected k err w
  | None =>
      {| ortSession := ortSession w;
         pendingInit := pendingInit w; nextInit := nextInit w;
         pendingRun := pendingRun w ∖ {[k]};
         nextRequest := nextRequest w;
         calls := calls w ++ [DisposeCall k];
         responses := responses w ++ [(k, summarize (ortSession w) outputs)];
         settled := settled w; reloadTimers := reloadTimers w |}
  end.

(** One step of the worker; [None] when the event cannot happen in this
    state (settling a promise that is not pending). *)
Definition step (E : Engine) (w : Worker) (ev : Event) : option Worker :=
  match ev with
  | Installed => Some (initializeModel OnInstalled w)
  | Startup => Some (initializeModel OnStartup w)
  | CreateResolved k session =>
      match pendingInit w !! k with
      | Some _ => Some (initializeModel_resolved k session w)
      | None => None
      end
  | CreateRejected k err =>
      match pendingInit w !! k with
      | Some trigger => Some (initializeModel_rejected k trigger err w)
      | None => None
      end
  | Message request =>
      if String.eqb (type request) "PROCESS_IMAGE"
      then Some (handleProcessImage E request w)
      else Some w
  | RunResolved k outputs =>
      if decide (k ∈ pendingRun w)
      then Some (handleProcessImage_resolved E k outputs w)
      else None
  | RunRejected k err =>
      if decide (k ∈ pendingRun w)
      then Some (handleProcessImage_rejected k err w)
      else None
  end.

Fixpoint exec (E : Engine) (w : Worker) (evs : list Event) : option Worker :=
  match evs with
  | [] => Some w
  | ev :: evs' =>
      match step E w ev with
      | Some w' => exec E w' evs'
      | None => None
      end
  end.

Definition isCreate (c : Call) : bool :=
  match c with CreateCall _ _ => true | _ => false end.

Definition isInit (ev : Event) : bool :=
  match ev with Installed | Startup => true | _ => false end.

Definition isCreateResolved (ev : Event) : bool :=
  match ev with CreateResolved _ _ => true | _ => false end.

Fixpoint product (dims : list Z) : Z :=
  match dims with
  | [] => 1
  | d :: dims' => d * product dims'
  end.

(** *** onnxruntime-web 1.16.3

    The version line 2 imports.  Its [Tensor] constructor computes the size
    from the dimensions ([calculateSize]) and compares it with the data
    length; its tensors have no [dispose] method. *)

(** [Number.isSafeInteger] on an integer. *)
Definition isSafeInteger (z : Z) : bool := Z.abs z <? 2 ^ 53.

(** [x === y] on numbers. *)
Definition strictEq (x y : number) : bool :=
  match x, y with
  | Num p, Num q => Qeq_bool p q
  | Inf s, Inf t => Bool.eqb s t
  | _, _ => false
  end.

(** The string a template literal makes of a number without fractional
    part ([Number::toString]): the digits of the shortest decimal that
    rounds to the number, written out up to 21 digits and in exponential
    notation beyond.  A natural number below [2 ^ 53] is its own shortest
    decimal. *)
Definition digits (z : Z) : Z := Z.of_nat (String.length (pretty z)).

Definition roundsTo (c v : Z) : bool :=
  match fround binary64 (inject_Z c) with
  | Num r => Qeq_bool r (inject_Z v)
  | _ => false
  end.

(** The decimal with [k] significant digits or more that rounds to [v] and
    is nearest to it, for the least such number of digits. *)
Fixpoint shortest (fuel : nat) (k : Z) (v : Z) : Z :=
  match fuel with
  | O => v
  | S fuel' =>
      let p := 10 ^ (digits v - k) in
      let s := v / p in
      let below := s * p in
      let above := (s + 1) * p in
      match roundsTo below v, roundsTo above v with
      | true, true =>
          if v - below <? above - v then below
          else if above - v <? v - below then above
          else if Z.even s then below else above
      | true, false => below
      | false, true => above
      | false, false => shortest fuel' (k + 1) v
      end
  end.

Fixpoint dropZeros (s : string) : string :=
  match s with
  | String "0"%char s' => dropZeros s'
  | _ => s
  end.

Definition exponential (c : Z) : string :=
  match String.rev (dropZeros (String.rev (pretty c))) with
  | String d EmptyString => String d "e+" +:+ pretty (digits c - 1)
  | String d ds => String d "." +:+ ds +:+ "e+" +:+ pretty (digits c - 1)
  | EmptyString => "0"
  end.

Definition naturalToString (v : Z) : string :=
  if v <? 2 ^ 53 then pretty v
  else
    let c := shortest 17 1 v in
    if digits c <=? 21 then pretty c else exponential c.

Definition integerToString (z : Z) : string :=
  if z <? 0 then "-" +:+ naturalToString (- z) else naturalToString z.

Definition numberToString (x : number) : string :=
  match x with
  | NaN => "NaN"
  | Inf negative => if negative then "-Infinity" else "Infinity"
  | Num q => integerToString (Qfloor q)
  end.

(** [calculateSize(dims)] from index [i] on, [size] being the product so
    far: every dimension has to be a safe integer and not negative; the
    product is a product of numbers. *)
Fixpoint calculateSize (i : nat) (size : number) (dims : list Z) : result number :=
  match dims with
  | [] => Ok size
  | dim :: dims' =>
      if negb (isSafeInteger dim) then
        Throw (mkExn "TypeError"
                 ("dims[" +:+ pretty i +:+ "] must be an integer, got: "
                  +:+ integerToString dim))
      else if dim <? 0 then
        Throw (mkExn "RangeError"
                 ("dims[" +:+ pretty i +:+ "] must be a non-negative integer, got: "
                  +:+ integerToString dim))
      else calculateSize (S i) (fmul size (of_int dim)) dims'
  end.

(** [new ort.Tensor('float32', data, dims)] for a [Float32Array] and an
    array of integers. *)
Definition tensorError (data : list number) (dims : list Z) : option exn :=
  match calculateSize 0 (of_int 1) dims with
  | Throw e => Some e
  | Ok size =>
      if strictEq size (of_int (Z.of_nat (length data))) then None
      else Some (mkExn "Error"
                   ("Tensor's size(" +:+ numberToString size
                    +:+ ") does not match data length("
                    +:+ pretty (length data) +:+ ")."))
  end.

(** Calling the missing method throws a [TypeError]. *)
Definition ortEngine : Engine :=
  {| newTensor := tensorError;
     tensorDispose :=
       Some (mkExn "TypeError" "inputTensor.dispose is not a function") |}.

(** An engine with the same constructor whose tensors can be disposed, as
    those of onnxruntime-web from 1.17.0 on. *)
Definition disposingEngine : Engine :=
  {| newTensor := tensorError; tensorDispose := None |}.

End Background.
Import Background.

(* ===================================================================== *)
(** ** Auxiliary definitions used in the statements *)
(* ===================================================================== *)

(** The padding offsets of lines 63-68 for given resized dimensions. *)
Definition padOffset (targetSize : Z) (newSide : number) : number :=
  Math_floor (fdiv (fsub (of_int targetSize) newSide) (of_int 2)).

(** The outcome of the two [drawImage] calls [processImage] makes for the
    bitmap [b]: the padded canvas, or what the first failing call threw. *)
Definition drawPadded (B : Browser) (b : ImageBitmap) : result Canvas :=
  let nw := (resize 320 (width b) (height b)).1 in
  let nh := (resize 320 (width b) (height b)).2 in
  resizeCanvas ← resizeStep B b nw nh;
  padStep B 320 resizeCanvas (padOffset 320 nw) (padOffset 320 nh) nw nh.

(** [e] was thrown by one of the browser calls [processImage] makes on
    [input]: [createImageBitmap] or one of the two [drawImage]. *)
Definition browserThrew (B : Browser) (input : ImageSource) (e : exn) : Prop :=
  imageBitmapOf B input = Throw e
  \/ exists b, imageBitmapOf B input = Ok b /\ drawPadded B b = Throw e.

(** [c] is the padded canvas [processImage] reads back for [input]. *)
Definition paddedCanvasOf (B : Browser) (input : ImageSource) (c : Canvas) : Prop :=
  exists b, imageBitmapOf B input = Ok b /\ drawPadded B b = Ok c.

(** The same from the side of the browser, in its own calls.  The first
    [drawImage] draws the bitmap on the resize canvas, the second draws the
    resize canvas on the black square. *)
Definition resizeDraw (B : Browser) (b : ImageBitmap) : result Canvas :=
  let newWidth := (resize 320 (width b) (height b)).1 in
  let newHeight := (resize 320 (width b) (height b)).2 in
  drawImage B (setSize createCanvas newWidth newHeight) (FromBitmap b)
            (of_int 0) (of_int 0) newWidth newHeight.

Definition padDraw (B : Browser) (b : ImageBitmap) (resizeCanvas : Canvas)
    : result Canvas :=
  let newWidth := (resize 320 (width b) (height b)).1 in
  let newHeight := (resize 320 (width b) (height b)).2 in
  drawImage B
    (fillRect (setSize createCanvas (of_int 320) (of_int 320)) black 0 0 320 320)
    (FromCanvas resizeCanvas)
    (padOffset 320 newWidth) (padOffset 320 newHeight) newWidth newHeight.

(** One of the two [drawImage] calls for the bitmap [b] threw [e]. *)
Definition drawThrew (B : Browser) (b : ImageBitmap) (e : exn) : Prop :=
  resizeDraw B b = Throw e
  \/ exists resizeCanvas, resizeDraw B b = Ok resizeCanvas
                          /\ padDraw B b resizeCanvas = Throw e.



(** What the HTML standard requires of the two browser calls where an image
    without pixels is concerned: [createImageBitmap] rejects an image
    element without pixels, [drawImage] throws an [InvalidStateError] for a
    source canvas without pixels, and [drawImage] never changes the size of
    the canvas it draws on. *)
Definition conforming (B : Browser) : Prop :=
  (forall img, naturalWidth img = 0 \/ naturalHeight img = 0 ->
     exists e, createImageBitmap B img = Throw e)
  /\ (forall c source dx dy dw dh,
        canvas_width source = 0 \/ canvas_height source = 0 ->
        exists e, drawImage B c (FromCanvas source) dx dy dw dh = Throw e
                  /\ exn_name e = "InvalidStateError"%string)
  /\ (forall c source dx dy dw dh c',
        drawImage B c source dx dy dw dh = Ok c' ->
        canvas_width c' = canvas_width c /\ canvas_height c' = canvas_height c).

(** A browser that makes these checks and otherwise is [lenientBrowser];
    the texts are modelled on Chromium's. *)
Definition emptySourceImage (img : HTMLImageElement) : exn :=
  mkExn "InvalidStateError"
    (if naturalWidth img =? 0
     then "Failed to execute 'createImageBitmap' on 'Window': The source image width is 0."
     else "Failed to execute 'createImageBitmap' on 'Window': The source image height is 0.").

Definition emptySourceCanvas : exn :=
  mkExn "InvalidStateError"
    "Failed to execute 'drawImage' on 'CanvasRenderingContext2D': The image argument is a canvas element with a width or height of 0.".

Definition checkingBrowser : Browser :=
  {| createImageBitmap := fun img =>
       if (naturalWidth img =? 0) || (naturalHeight img =? 0)
       then Throw (emptySourceImage img)
       else createImageBitmap lenientBrowser img;
     drawImage := fun c source dx dy dw dh =>
       match source with
       | FromCanvas s =>
           if (canvas_width s =? 0) || (canvas_height s =? 0)
           then Throw emptySourceCanvas
           else nearestDraw c source dx dy dw dh
       | FromBitmap _ => nearestDraw c source dx dy dw dh
       end |}.

Definition solidBitmap (w h : Z) (p : rgba) : ImageBitmap :=
  {| width := w; height := h; bitmap_pixel := fun _ _ => p |}.


(** [round_div a b] is [a / b] rounded to the nearest integer, ties
    towards [+Infinity] (what [Math.round] does on the exact quotient). *)
Definition round_div (a b : Z) : Z := (2 * a + b) / (2 * b).

(** [a / b] lies exactly halfway between two integers. *)
Definition is_tie (a b : Z) : bool := (2 * a + b) mod (2 * b) =? 0.

(** The exact ties [n + 1/2] of [320 * height / width] on which the two
    binary64 divisions of the landscape branch land just below the tie, so
    that [Math.round] yields [n] and not [n + 1]. *)
Definition tie_rounds_down (n : Z) : bool :=
  existsb (Z.eqb n) [14; 26; 59; 213; 214; 219; 225; 226; 227; 232; 247; 292; 307].

(** The resized height of a landscape image. *)
Definition landscape_height (w h : Z) : Z :=
  let n := round_div (320 * h) w in
  if is_tie (320 * h) w && tie_rounds_down (n - 1) then n - 1 else n.

(** Syntactic equality of numbers, for checks by computation. *)
Definition number_eqb (x y : number) : bool :=
  match x, y with
  | Num p, Num q => (Qnum p =? Qnum q)%Z && (Qden p =? Qden q)%positive
  | Inf s, Inf t => Bool.eqb s t
  | NaN, NaN => true
  | _, _ => false
  end.

(** The landscape computation on an exact tie [320 * h / w = n + 1/2]
    depends on [n] alone, since then [w / h = 640 / (2 n + 1)]. *)
Definition landscape_tie (n : Z) : number :=
  Math_round (fdiv (of_int 320) (fdiv (of_int 640) (of_int (2 * n + 1)))).

Definition portrait_tie (n : Z) : number :=
  Math_round (fmul (of_int 320) (fdiv (of_int (2 * n + 1)) (of_int 640))).

Definition tie_candidates : list Z := map Z.of_nat (seq 0 320).


(** What lines 35-68 compute for an image with a zero dimension:
    [((newWidth, newHeight), (padLeft, padTop))]. *)
Definition zeroGeometry (w h : Z) : (number * number) * (number * number) :=
  if (w =? 0) && (h =? 0) then ((of_int 320, NaN), (of_int 0, NaN))
  else if w =? 0 then ((of_int 0, of_int 320), (of_int 160, of_int 0))
  else ((of_int 320, of_int 0), (of_int 0, of_int 160)).


Definition normalize (b : Byte.byte) : number :=
  to_float32 (fdiv (of_int (Z.of_N (Byte.to_N b))) (of_int 255)).

(** A finite number in [[0, 1]]. *)
Definition in_unit (x : number) : Prop :=
  match x with
  | Num q => (0 <= q /\ q <= 1)%Q
  | _ => False
  end.

Definition in_unit_b (x : number) : bool :=
  match x with
  | Num q => Qle_bool 0 q && Qle_bool q 1
  | _ => false
  end.

(** Sample number [c] of a pixel, in the order of [imageData.data]. *)
Definition channel (c : nat) (p : rgba) : Byte.byte :=
  match c with
  | 0%nat => red p
  | 1%nat => green p
  | 2%nat => blue p
  | _ => alpha p
  end.

(** The settled [initializeModel] promises as the events determine them. *)
Definition outcome (ev : Event) : option (nat * Settled) :=
  match ev with
  | CreateResolved k _ => Some (k, Fulfilled)
  | CreateRejected k err => Some (k, Rejected err)
  | _ => None
  end.

(** The session a create resolved with. *)
Definition resolvedSession (ev : Event) : option Session :=
  match ev with
  | CreateResolved _ session => Some session
  | _ => None
  end.

Definition sampleSession : Session :=
  {| session_id := 0; outputNames := ["output0"%string] |}.

Definition loadError : exn := mkExn "Error" "failed to load model".
Definition runError : exn := mkExn "Error" "inference failed".

(** A request whose data length (1) differs from the product of its
    dimensions (307200). *)
Definition mismatchedRequest : Request :=
  {| type := "PROCESS_IMAGE"; tensorData := [Num 0]; dimensions := [1; 3; 320; 320] |}.

(** A request whose data length equals the product of its dimensions. *)
Definition smallRequest : Request :=
  {| type := "PROCESS_IMAGE"; tensorData := [Num 0; Num 1]; dimensions := [1; 1; 1; 2] |}.

(** Workers reached in the examples below. *)
Definition notReadyWorker : Worker :=
  initializeModel OnStartup
    (initializeModel_rejected 0 OnInstalled loadError
       (initializeModel OnInstalled initial)).

Definition readyWorker : Worker :=
  initializeModel_resolved 0 sampleSession (initializeModel OnInstalled initial).

Definition reloadedWorker : Worker :=
  initializeModel_rejected 1 OnStartup loadError
    (initializeModel OnStartup readyWorker).

(** The Standard Library's IEEE-754 specification ([SpecFloat]), against
    which the rounding of [JsNumber] is checked on the inputs that decide
    the ties and on every byte. *)
Definition of_spec_float (x : spec_float) : number :=
  match x with
  | S754_zero _ => Num 0
  | S754_infinity s => Inf s
  | S754_nan => NaN
  | S754_finite s m e =>
      Num (Qred ((if s then -1 else 1) * inject_Z (Zpos m) * 2 ^ e)%Q)
  end.

Definition SF64_of_int (z : Z) : spec_float := binary_normalize 53 1024 z 0 false.

(** Narrowing a binary64 value to binary32. *)
Definition SF32_of_SF64 (x : spec_float) : spec_float :=
  match x with
  | S754_finite s m e => binary_normalize 24 128 (cond_Zopp s (Zpos m)) e s
  | _ => x
  end.

Definition all_bytes : list Byte.byte :=
  omap (fun n => Byte.of_N (N.of_nat n)) (seq 0 256).

(** The possible lengths of a resized side. *)
Definition side_candidates : list Z := map Z.of_nat (seq 0 321).

(** All image sizes up to 48 x 48. *)
Definition small_sizes : list (Z * Z) :=
  w ← map Z.of_nat (seq 1 48); h ← map Z.of_nat (seq 1 48); [(w, h)].

(* ===================================================================== *)
(** ** popup.js *)
(* ===================================================================== *)

Module Popup.

(** What [updateStatus] writes: [statusElement.textContent],
    [progressBar.style.width] and [statusElement.style.color]. *)
Record Status : Type :=
  { textContent : string; barWidth : string; color : string }.

(** A value caught by the [catch] of [handleImageUpload]: an error object,
    or the [error] event [loadImage] rejects with. *)
Inductive thrown : Type :=
| ThrownError (e : exn)
| ThrownEvent.

(** The string a template literal makes of a caught value
    ([Error.prototype.toString], [Object.prototype.toString]). *)
Definition toString (t : thrown) : string :=
  match t with
  | ThrownError e =>
      if String.eqb (exn_name e) "" then exn_message e
      else if String.eqb (exn_message e) "" then exn_name e
      else exn_name e +:+ ": " +:+ exn_message e
  | ThrownEvent => "[object Event]"
  end.

(** How an awaited promise settles. *)
Inductive promise (A : Type) : Type :=
| Fulfil (a : A)
| Reject (t : thrown).
Arguments Fulfil {A} a.
Arguments Reject {A} t.

Record File : Type := { fileName : string }.

(** The object given to [chrome.runtime.sendMessage] (lines 177-184);
    [tensorData] is the contents of [float32Data.buffer]. *)
Record Message : Type :=
  { type : string;
    tensorData : list number;
    dimensions : list Z;
    resizeFactor : number;
    padLeft : number;
    padTop : number }.

(** What the popup leaves to its environment: whether the chosen file
    decodes ([img.onload] or [img.onerror]), drawing an image element on the
    preview canvas, and the answer of the messaging channel. *)
Record Env : Type :=
  { decode : File -> option HTMLImageElement;
    drawElement : Canvas -> HTMLImageElement ->
                  number -> number -> number -> number -> result Canvas;
    sendMessage : Message -> promise Response }.

(** The part of the page the popup writes: the current status, every status
    written so far (oldest first), the preview canvas and the messages
    sent. *)
Record Page : Type :=
  { status : Status;
    history : list Status;
    previewCanvas : Canvas;
    sent : list Message }.

(** Lines 200-204. *)
Definition updateStatus (text : string) (progress : Z) (isError : bool)
    (page : Page) : Page :=
  let s := {| textContent := text;
              barWidth := pretty progress +:+ "%";
              color := if isError then "#c00" else "#333" |} in
  {| status := s; history := history page ++ [s];
     previewCanvas := previewCanvas page; sent := sent page |}.

(** Lines 207-214: the promise resolves with the image once it has loaded
    and rejects with the error event otherwise. *)
Definition loadImage (env : Env) (file : File) : promise HTMLImageElement :=
  match decode env file with
  | Some img => Fulfil img
  | None => Reject ThrownEvent
  end.

(** Lines 217-222; [img.width] and [img.height] of an image element that
    is not rendered are its natural dimensions. *)
Definition showPreview (env : Env) (img : HTMLImageElement) (page : Page)
    : result Page :=
  let w := of_int (naturalWidth img) in
  let h := of_int (naturalHeight img) in
  canvas ← drawElement env (setSize (previewCanvas page) w h) img
             (of_int 0) (of_int 0) w h;
  Ok {| status := status page; history := history page;
        previewCanvas := canvas; sent := sent page |}.

(** The [catch] block, lines 193-196. *)
Definition catchError (err : thrown) (page : Page) : Page :=
  updateStatus ("Error: " +:+ toString err) 0 true page.

Definition messageOf (r : LetterboxResult) : Message :=
  {| type := "PROCESS_IMAGE";
     tensorData := float32Data r;
     dimensions := dims r;
     resizeFactor := ImageProcessor.resizeFactor r;
     padLeft := ImageProcessor.padLeft r;
     padTop := ImageProcessor.padTop r |}.

Definition post (m : Message) (page : Page) : Page :=
  {| status := status page; history := history page;
     previewCanvas := previewCanvas page; sent := sent page ++ [m] |}.

(** Lines 148-197; [files] is [event.target.files]. *)
Definition handleImageUpload (B : Browser) (env : Env) (files : list File)
    (page : Page) : Page :=
  match files with
  | [] => page
  | file :: _ =>
      let page := updateStatus "Loading image..." 20 false page in
      match loadImage env file with
      | Reject err => catchError err page
      | Fulfil img =>
          match showPreview env img page with
          | Throw e => catchError (ThrownError e) page
          | Ok page =>
              let page := updateStatus "Preprocessing image..." 40 false page in
              match processImage B (Element img) with
              | Throw e => catchError (ThrownError e) page
              | Ok r =>
                  let page :=
                    updateStatus "Sending to background for inference..." 60 false page in
                  let page := post (messageOf r) page in
                  match sendMessage env (messageOf r) with
                  | Reject err => catchError err page
                  | Fulfil response =>
                      let page := updateStatus "Got results, formatting..." 80 false page in
                      updateStatus "Detection complete" 100 false page
                  end
              end
          end
      end
  end.

(** The statuses the popup can show. *)
Definition progressStatus (text percent : string) : Status :=
  {| textContent := text; barWidth := percent; color := "#333" |}.

Definition progressStatuses : list Status :=
  [ progressStatus "Loading image..." "20%";
    progressStatus "Preprocessing image..." "40%";
    progressStatus "Sending to background for inference..." "60%";
    progressStatus "Got results, formatting..." "80%";
    progressStatus "Detection complete" "100%" ].

Definition completeStatus : Status := progressStatus "Detection complete" "100%".

Definition errorStatus (err : thrown) : Status :=
  {| textContent := "Error: " +:+ toString err; barWidth := "0%"; color := "#c00" |}.

(** Environments and a page for the examples: every file decodes to a white
    640 x 480 picture, or none does; drawing the preview succeeds; the
    message is answered with [response]. *)
Definition sampleImage : HTMLImageElement :=
  {| naturalWidth := 640; naturalHeight := 480;
     image_pixel := fun _ _ => mkRgba Byte.xff Byte.xff Byte.xff Byte.xff |}.

Definition answeringEnv (response : Response) : Env :=
  {| decode := fun _ => Some sampleImage;
     drawElement := fun c _ _ _ _ _ => Ok c;
     sendMessage := fun _ => Fulfil response |}.

Definition undecodableEnv (response : Response) : Env :=
  {| decode := fun _ => None;
     drawElement := fun c _ _ _ _ _ => Ok c;
     sendMessage := fun _ => Fulfil response |}.

Definition emptyPage : Page :=
  {| status := {| textContent := ""; barWidth := "0%"; color := "" |};
     history := [];
     previewCanvas := createCanvas;
     sent := [] |}.

Definition sampleFile : File := {| fileName := "photo.png" |}.

End Popup.

(* ===================================================================== *)
(** ** Further definitions used in the statements *)
(* ===================================================================== *)

(** The trailing padding of lines 66 and 68 ([padRight], [padBottom]). *)
Definition padTrailing (targetSize : Z) (newSide : number) : number :=
  Math_ceil (fdiv (fsub (of_int targetSize) newSide) (of_int 2)).

(** A [drawImage] that keeps the canvas size and leaves every pixel outside
    the destination rectangle as it was, for the rectangles with
    non-negative integer position and size that [processImage] asks for. *)
Definition drawsInsideRect (B : Browser) : Prop :=
  forall (c c' : Canvas) (s : CanvasImageSource) (dx dy dw dh : Z),
    0 <= dx < 2 ^ 32 -> 0 <= dy < 2 ^ 32 -> 0 <= dw < 2 ^ 32 -> 0 <= dh < 2 ^ 32 ->
    drawImage B c s (of_int dx) (of_int dy) (of_int dw) (of_int dh) = Ok c' ->
    canvas_width c' = canvas_width c
    /\ canvas_height c' = canvas_height c
    /\ forall px py,
         (dx <=? px) && (px <? dx + dw) && (dy <=? py) && (py <? dy + dh) = false ->
         canvas_pixel c' px py = canvas_pixel c px py.

Definition white : rgba := mkRgba Byte.xff Byte.xff Byte.xff Byte.xff.

(** Reading a stored sample back as a byte: [Math.round (255 * x)]. *)
Definition denormalize (x : number) : number :=
  Math_round (fmul (of_int 255) x).

(** The exact value [b / 255]. *)
Definition exactSample (b : Byte.byte) : Q :=
  (inject_Z (Z.of_N (Byte.to_N b)) / 255)%Q.

(** [x] is a finite number within [2 ^ -25] of [q]. *)
Definition near (x : number) (q : Q) : bool :=
  match x with
  | Num v => Qle_bool (Qabs (v - q)) (1 # 33554432)
  | _ => false
  end.

(** The number of responses sent for request [id]. *)
Definition answers (id : nat) (rs : list (nat * Response)) : nat :=
  length (List.filter (fun p => Nat.eqb (fst p) id) rs).

(** The tensors disposed, in order. *)
Definition disposed (cs : list Call) : list nat :=
  omap (fun c => match c with DisposeCall t => Some t | _ => None end) cs.

(** The tensors constructed, in order. *)
Definition constructed (cs : list Call) : list nat :=
  omap (fun c => match c with TensorCall t => Some t | _ => None end) cs.

(** The tensors run, in order. *)
Definition ran (cs : list Call) : list nat :=
  omap (fun c => match c with RunCall _ t => Some t | _ => None end) cs.

Definition resolvedRun (ev : Event) : option nat :=
  match ev with RunResolved k _ => Some k | _ => None end.

Definition rejectedRun (ev : Event) : option nat :=
  match ev with RunRejected k _ => Some k | _ => None end.

(** The listener behind an [initializeModel] activation. *)
Definition trigger (ev : Event) : option Trigger :=
  match ev with
  | Installed => Some OnInstalled
  | Startup => Some OnStartup
  | _ => None
  end.

(** [ev] is the rejection of a create that the startup listener started,
    [evs] being the whole history. *)
Definition rejectedStartup (evs : list Event) (ev : Event) : bool :=
  match ev with
  | CreateRejected k _ =>
      match omap trigger evs !! k with
      | Some OnStartup => true
      | _ => false
      end
  | _ => false
  end.

Definition isProcessImage (ev : Event) : bool :=
  match ev with
  | Message request => String.eqb (Background.type request) "PROCESS_IMAGE"
  | _ => false
  end.

(** [outputNames[0]] as a property key. *)
Definition firstOutputName (s : Session) : string :=
  match outputNames s with
  | name :: _ => name
  | [] => "undefined"
  end.

(** What the history says about the tensors: each is constructed and run
    once, its run settles once, and it is disposed when its run resolved
    and the engine's tensors can be disposed. *)
Record tensors_ok (E : Engine) (evs : list Event) (w : Worker) : Prop :=
  { disposed_resolved :
      disposed (calls w)
      = match tensorDispose E with
        | None => omap resolvedRun evs
        | Some _ => []
        end;
    constructed_ran : constructed (calls w) = ran (calls w);
    constructed_bound :
      forall t, t ∈ constructed (calls w) -> (t < nextRequest w)%nat;
    constructed_NoDup : NoDup (constructed (calls w));
    resolved_NoDup : NoDup (omap resolvedRun evs);
    constructed_cases : forall t,
      t ∈ constructed (calls w) <->
      (t ∈ pendingRun w \/ t ∈ omap resolvedRun evs \/ t ∈ omap rejectedRun evs);
    pending_unsettled : forall t,
      t ∈ pendingRun w ->
      (t ∉ omap resolvedRun evs) /\ (t ∉ omap rejectedRun evs);
    resolved_not_rejected : forall t,
      t ∈ omap resolvedRun evs -> t ∉ omap rejectedRun evs }.

(** How the size [calculateSize] computes in numbers relates to the exact
    product of the dimensions: they agree while the product is below
    [2 ^ 53]; a larger product gives a number of at least [2 ^ 53] or
    [Infinity]; and a product that is 0 can give NaN (after an overflow). *)
Definition tracks (size : number) (exact : Z) : Prop :=
  match size with
  | Num q =>
      ((q == inject_Z exact)%Q /\ 0 <= exact < 2 ^ 53)
      \/ (2 ^ 53 <= exact /\ (2 ^ 53 <= q)%Q)
  | Inf negative => negative = false /\ 2 ^ 53 <= exact
  | NaN => exact = 0
  end.

(** The request the worker's listener reads from a message of the popup
    that arrives as it was sent. *)
Definition requestOf (m : Popup.Message) : Request :=
  {| Background.type := Popup.type m;
     Background.tensorData := Popup.tensorData m;
     Background.dimensions := Popup.dimensions m |}.

(** Further workers reached in the examples. *)
Definition busyWorker : Worker :=
  handleProcessImage ortEngine smallRequest readyWorker.

Definition sampleOutputs : gmap string OutputTensor :=
  {[ "output0"%string := {| data := [Num 0; Num 0; Num 0]; output_dims := [1; 3] |} ]}.

Definition servedWorker : Worker :=
  handleProcessImage_resolved ortEngine 0 sampleOutputs busyWorker.

(** The run of request 0 is rejected, the run of request 1 resolves, with
    an engine whose tensors can be disposed. *)
Definition leakedWorker : Worker :=
  handleProcessImage_resolved disposingEngine 1 sampleOutputs
    (handleProcessImage disposingEngine smallRequest
       (handleProcessImage_rejected 0 runError busyWorker)).

(** A second model whose first output has another name, loaded by the
    startup listener while request 0 is still running. *)
Definition otherSession : Session :=
  {| session_id := 1; outputNames := ["boxes"%string] |}.

Definition racedWorker : Worker :=
  initializeModel_resolved 1 otherSession (initializeModel OnStartup busyWorker).

(* ===================================================================== *)
(** ** Facts about rounding *)
(* ===================================================================== *)

Section FloatFacts.
Local Open Scope Q_scope.

Lemma pow2_pos (e : Z) : 0 < 2 ^ e.
Proof. apply Qpower_0_lt. reflexivity. Qed.

Lemma pow2_plus (a b : Z) : 2 ^ (a + b) == 2 ^ a * 2 ^ b.
Proof. apply Qpower_plus. discriminate. Qed.

Lemma pow2_minus (a b : Z) : 2 ^ (a - b) == 2 ^ a / 2 ^ b.
Proof. apply Qpower_minus. discriminate. Qed.

Lemma pow2_succ (a : Z) : 2 ^ (a + 1) == 2 * 2 ^ a.
Proof. rewrite pow2_plus. change (2 ^ 1) with 2. ring. Qed.

Lemma pow2_le (a b : Z) : (a <= b)%Z -> 2 ^ a <= 2 ^ b.
Proof. intros H. apply Qpower_le_compat_l; [exact H | discriminate]. Qed.

Lemma pow2_lt_inv (a b : Z) : 2 ^ a < 2 ^ b -> (a < b)%Z.
Proof. intros H. apply Qpower_lt_compat_l_inv with (q := 2); [exact H | reflexivity]. Qed.

Lemma pow2_Z (a : Z) : (0 <= a)%Z -> inject_Z (2 ^ a) == 2 ^ a.
Proof. intros H. rewrite Zpower_Qpower by exact H. reflexivity. Qed.

End FloatFacts.

Section Rounding.
Local Open Scope Q_scope.

Lemma Qmake_div (n : Z) (d : positive) : n # d == inject_Z n / inject_Z (Zpos d).
Proof. apply Qmake_Qdiv. Qed.

Lemma log2_bounds (n : Z) :
  (0 < n)%Z -> 2 ^ Z.log2 n <= inject_Z n /\ inject_Z n < 2 * 2 ^ Z.log2 n.
Proof.
  intros Hn. destruct (Z.log2_spec n Hn) as [Hlo Hhi].
  pose proof (Z.log2_nonneg n) as Hnn.
  rewrite <- pow2_succ, <- !pow2_Z by lia. split.
  - rewrite <- Zle_Qle. exact Hlo.
  - rewrite <- Zlt_Qlt. replace (Z.log2 n + 1)%Z with (Z.succ (Z.log2 n)) by lia. exact Hhi.
Qed.

Lemma ilog2_spec (q : Q) :
  0 < q -> 2 ^ ilog2 q <= q /\ q < 2 ^ (ilog2 q + 1).
Proof.
  intros Hq. destruct q as [n d]. unfold ilog2. cbn [Qnum Qden].
  assert (Hn : (0 < n)%Z) by (unfold Qlt in Hq; cbn in Hq; lia).
  destruct (log2_bounds n Hn) as [HnL HnU].
  destruct (log2_bounds (Zpos d) eq_refl) as [HdL HdU].
  set (ln := Z.log2 n) in *. set (ld := Z.log2 (Zpos d)) in *.
  pose proof (pow2_pos ln) as HA. pose proof (pow2_pos ld) as HB.
  assert (HD : 0 < inject_Z (Zpos d)) by reflexivity.
  assert (Hup : n # d < 2 ^ (ln - ld + 1)).
  { rewrite pow2_succ, pow2_minus, (Qmake_div n d).
    apply Qlt_shift_div_r; [exact HD |].
    unfold Qdiv. rewrite <- !Qmult_assoc, (Qmult_comm (/ 2 ^ ld)), !Qmult_assoc.
    apply Qlt_shift_div_l; [exact HB |]. nra. }
  assert (Hlow : 2 ^ (ln - ld - 1) <= n # d).
  { assert (E : 2 ^ (ln - ld - 1) == 2 ^ ln / (2 * 2 ^ ld)).
    { replace (ln - ld - 1)%Z with (ln - (ld + 1))%Z by lia.
      rewrite pow2_minus, pow2_succ. reflexivity. }
    rewrite E, (Qmake_div n d).
    apply Qle_shift_div_l; [exact HD |].
    unfold Qdiv. rewrite <- !Qmult_assoc, (Qmult_comm (/ (2 * 2 ^ ld))), !Qmult_assoc.
    apply Qle_shift_div_r; [nra | nra]. }
  destruct (Qle_bool (2 ^ (ln - ld)) (n # d)) eqn:Hb.
  - apply Qle_bool_iff in Hb. split; [exact Hb | exact Hup].
  - assert (Hlt : n # d < 2 ^ (ln - ld)).
    { apply Qnot_le_lt. intros Hc. apply Qle_bool_iff in Hc. congruence. }
    split; [exact Hlow |].
    replace (ln - ld - 1 + 1)%Z with (ln - ld)%Z by lia. exact Hlt.
Qed.

Lemma ilog2_unique (q : Q) (e : Z) :
  2 ^ e <= q -> q < 2 ^ (e + 1) -> ilog2 q = e.
Proof.
  intros Hlo Hhi.
  assert (Hq : 0 < q) by (eapply Qlt_le_trans; [apply (pow2_pos e) | exact Hlo]).
  destruct (ilog2_spec q Hq) as [Hl Hh].
  assert (ilog2 q < e + 1)%Z by (apply pow2_lt_inv; eapply Qle_lt_trans; eassumption).
  assert (e < ilog2 q + 1)%Z by (apply pow2_lt_inv; eapply Qle_lt_trans; eassumption).
  lia.
Qed.

Lemma Qfloor_unique (t : Q) (z : Z) :
  inject_Z z <= t -> t < inject_Z (z + 1) -> Qfloor t = z.
Proof.
  intros Hlo Hhi.
  pose proof (Qfloor_le t) as Hf. pose proof (Qlt_floor t) as Hg.
  assert (Qfloor t < z + 1)%Z by (rewrite Zlt_Qlt; eapply Qle_lt_trans; eassumption).
  assert (z < Qfloor t + 1)%Z by (rewrite Zlt_Qlt; eapply Qle_lt_trans; eassumption).
  lia.
Qed.

Lemma round_half_even_near (t : Q) :
  inject_Z (round_half_even t) - (1 # 2) <= t /\ t <= inject_Z (round_half_even t) + (1 # 2).
Proof.
  unfold round_half_even.
  pose proof (Qfloor_le t) as Hf. pose proof (Qlt_floor t) as Hg.
  rewrite inject_Z_plus in Hg. change (inject_Z 1) with 1 in Hg.
  destruct (Qcompare_spec (t - inject_Z (Qfloor t)) (1 # 2)) as [E | L | G].
  - destruct (Z.even (Qfloor t)); rewrite ?inject_Z_plus; change (inject_Z 1) with 1; lra.
  - lra.
  - rewrite inject_Z_plus. change (inject_Z 1) with 1. lra.
Qed.

Lemma round_half_even_ge (t : Q) (z : Z) :
  inject_Z z <= t -> (z <= round_half_even t)%Z.
Proof.
  intros H. unfold round_half_even.
  assert (z <= Qfloor t)%Z.
  { rewrite <- (Qfloor_Z z). apply Qfloor_resp_le. exact H. }
  destruct (t - inject_Z (Qfloor t) ?= 1 # 2); [destruct (Z.even _) | |]; lia.
Qed.

Lemma round_half_even_le (t : Q) (z : Z) :
  t <= inject_Z z -> (round_half_even t <= z)%Z.
Proof.
  intros H. unfold round_half_even.
  pose proof (Qfloor_le t) as Hf.
  assert (Hfz : (Qfloor t <= z)%Z).
  { rewrite <- (Qfloor_Z z). apply Qfloor_resp_le. exact H. }
  destruct (Z.eq_dec (Qfloor t) z) as [-> | Hne].
  - assert (Et : t - inject_Z z <= 0) by lra.
    destruct (Qcompare_spec (t - inject_Z z) (1 # 2)) as [E | L | G]; [lra | lia | lra].
  - destruct (t - inject_Z (Qfloor t) ?= 1 # 2); [destruct (Z.even _) | |]; lia.
Qed.

Lemma round_half_even_Z (z : Z) (t : Q) : t == inject_Z z -> round_half_even t = z.
Proof.
  intros E. apply Z.le_antisymm.
  - apply round_half_even_le. rewrite E. apply Qle_refl.
  - apply round_half_even_ge. rewrite E. apply Qle_refl.
Qed.

End Rounding.

Section FroundFacts.
Local Open Scope Q_scope.

Lemma Qle_div_mul (a b c : Q) : 0 < c -> a <= b / c -> a * c <= b.
Proof.
  intros Hc H. assert (E : b == b / c * c) by (field; lra).
  rewrite E. apply Qmult_le_compat_r; lra.
Qed.

Lemma Qdiv_le_mul (a b c : Q) : 0 < c -> b / c <= a -> b <= a * c.
Proof.
  intros Hc H. assert (E : b == b / c * c) by (field; lra).
  rewrite E. apply Qmult_le_compat_r; lra.
Qed.

Lemma round_half_even_comp (s t : Q) : s == t -> round_half_even s = round_half_even t.
Proof.
  intros E. unfold round_half_even.
  rewrite (Qfloor_comp s t E).
  assert (C : (s - inject_Z (Qfloor t) ?= 1 # 2) = (t - inject_Z (Qfloor t) ?= 1 # 2)).
  { apply Qcompare_comp; [rewrite E |]; reflexivity. }
  rewrite C. reflexivity.
Qed.

Lemma fround_comp (fmt : format) (p q : Q) : p == q -> fround fmt p = fround fmt q.
Proof. intros E. unfold fround. rewrite (Qred_complete p q E). reflexivity. Qed.

(** The rounded value of a positive number in the normal range. *)
Lemma fround_pos (fmt : format) (q : Q) (e : Z) :
  2 ^ e <= q -> q < 2 ^ (e + 1) ->
  (emin fmt <= e)%Z -> (e + 1 < emax fmt)%Z -> (1 <= prec fmt)%Z ->
  fround fmt q =
    Num (Qred (inject_Z (round_half_even (q / 2 ^ (e - (prec fmt - 1))))
               * 2 ^ (e - (prec fmt - 1)))).
Proof.
  intros Hlo Hhi Hemin Hemax Hprec.
  assert (Hq : 0 < q) by (eapply Qlt_le_trans; [apply (pow2_pos e) | exact Hlo]).
  unfold fround.
  pose proof (Qred_correct q) as Eq'. set (q' := Qred q) in *.
  assert (Hz : Qeq_bool q' 0 = false).
  { destruct (Qeq_bool q' 0) eqn:Hb; [| reflexivity].
    apply Qeq_bool_iff in Hb. rewrite Hb in Eq'. rewrite <- Eq' in Hq. discriminate Hq. }
  rewrite Hz.
  assert (Habs : Qabs q' == q).
  { rewrite Eq'. apply Qabs_pos. apply Qlt_le_weak. exact Hq. }
  assert (He : ilog2 (Qabs q') = e).
  { apply ilog2_unique; rewrite Habs; assumption. }
  rewrite He. rewrite Z.max_l by exact Hemin.
  set (ulp := 2 ^ (e - (prec fmt - 1))).
  assert (Hulp : 0 < ulp) by apply pow2_pos.
  assert (Hulp_le : ulp <= 2 ^ e) by (apply pow2_le; lia).
  assert (Et : q' / ulp == q / ulp) by (rewrite Eq'; reflexivity).
  rewrite (round_half_even_comp _ _ Et).
  set (m := round_half_even (q / ulp)).
  destruct (round_half_even_near (q / ulp)) as [Hm1 Hm2]. fold m in Hm1, Hm2.
  assert (Hm0 : (0 <= m)%Z).
  { apply round_half_even_ge. apply Qle_shift_div_l; [exact Hulp |].
    rewrite Qmult_0_l. apply Qlt_le_weak. exact Hq. }
  assert (Hr_hi : inject_Z m * ulp <= q + ulp * (1 # 2)).
  { assert (H1 : (inject_Z m - (1 # 2)) * ulp <= q).
    { apply Qle_div_mul; assumption. }
    lra. }
  assert (Hov : Qle_bool (2 ^ emax fmt) (Qabs (inject_Z m * ulp)) = false).
  { destruct (Qle_bool _ _) eqn:Hb; [| reflexivity]. exfalso.
    apply Qle_bool_iff in Hb.
    rewrite Qabs_pos in Hb.
    2:{ apply Qmult_le_0_compat; [| lra]. change 0 with (inject_Z 0). rewrite <- Zle_Qle. exact Hm0. }
    assert (H2 : 2 ^ (e + 2) <= 2 ^ emax fmt) by (apply pow2_le; lia).
    replace (e + 2)%Z with (e + 1 + 1)%Z in H2 by lia.
    rewrite pow2_succ in H2. lra. }
  rewrite Hov. reflexivity.
Qed.

End FroundFacts.

Section Binary64.
Local Open Scope Q_scope.

(** What rounding to binary64 guarantees for a positive number of the normal
    range: a relative error of at most [2 ^ -53], and integer bounds are
    preserved below [2 ^ 53]. *)
Lemma fround64_spec (q : Q) :
  2 ^ (-1022) <= q -> q < 2 ^ 1022 ->
  exists r : Q,
    fround binary64 q = Num r
    /\ (r - q) * 2 ^ 53 <= q /\ (q - r) * 2 ^ 53 <= q
    /\ (forall z : Z, q < 2 ^ 53 -> inject_Z z <= q -> inject_Z z <= r)
    /\ (forall z : Z, q < 2 ^ 53 -> q <= inject_Z z -> r <= inject_Z z).
Proof.
  intros Hmin Hmax.
  assert (Hq : 0 < q) by (eapply Qlt_le_trans; [apply (pow2_pos (-1022)) | exact Hmin]).
  destruct (ilog2_spec q Hq) as [Hlo Hhi]. set (e := ilog2 q) in *.
  assert (He1 : (-1022 <= e)%Z).
  { assert (-1022 < e + 1)%Z by (apply pow2_lt_inv; eapply Qle_lt_trans; eassumption). lia. }
  assert (He2 : (e < 1022)%Z).
  { apply pow2_lt_inv. eapply Qle_lt_trans; eassumption. }
  rewrite (fround_pos binary64 q e Hlo Hhi) by (cbn; lia).
  cbn [prec binary64]. replace (53 - 1)%Z with 52%Z by reflexivity.
  set (ulp := 2 ^ (e - 52)). set (m := round_half_even (q / ulp)).
  assert (Hulp : 0 < ulp) by apply pow2_pos.
  destruct (round_half_even_near (q / ulp)) as [Hm1 Hm2]. fold m in Hm1, Hm2.
  apply Qle_div_mul in Hm1; [| exact Hulp]. apply Qdiv_le_mul in Hm2; [| exact Hulp].
  assert (Hhalf : ulp * (1 # 2) * 2 ^ 53 == 2 ^ e).
  { unfold ulp. rewrite pow2_minus. change (2 ^ 53) with (2 * 2 ^ 52). field. }
  assert (H53 : 0 < 2 ^ 53) by apply pow2_pos.
  pose proof (Qred_correct (inject_Z m * ulp)) as Er.
  set (r := Qred (inject_Z m * ulp)) in *.
  exists r. split; [reflexivity |].
  split; [| split; [| split]].
  - apply Qle_trans with (ulp * (1 # 2) * 2 ^ 53); [| rewrite Hhalf; exact Hlo].
    apply Qmult_le_compat_r; [rewrite Er |]; lra.
  - apply Qle_trans with (ulp * (1 # 2) * 2 ^ 53); [| rewrite Hhalf; exact Hlo].
    apply Qmult_le_compat_r; [rewrite Er |]; lra.
  - intros z H53q Hz.
    assert (He3 : (e < 53)%Z) by (apply pow2_lt_inv; eapply Qle_lt_trans; eassumption).
    assert (EP : inject_Z (2 ^ (52 - e))%Z * ulp == 1).
    { rewrite pow2_Z by lia. unfold ulp. rewrite <- pow2_plus.
      replace (52 - e + (e - 52))%Z with 0%Z by lia. reflexivity. }
    assert (Hzm : (z * 2 ^ (52 - e) <= m)%Z).
    { apply round_half_even_ge. rewrite inject_Z_mult.
      apply Qle_shift_div_l; [exact Hulp |].
      rewrite <- Qmult_assoc, EP. lra. }
    rewrite Zle_Qle, inject_Z_mult in Hzm.
    apply Qmult_le_compat_r with (z := ulp) in Hzm; [| lra].
    rewrite <- Qmult_assoc, EP in Hzm. rewrite Er. lra.
  - intros z H53q Hz.
    assert (He3 : (e < 53)%Z) by (apply pow2_lt_inv; eapply Qle_lt_trans; eassumption).
    assert (EP : inject_Z (2 ^ (52 - e))%Z * ulp == 1).
    { rewrite pow2_Z by lia. unfold ulp. rewrite <- pow2_plus.
      replace (52 - e + (e - 52))%Z with 0%Z by lia. reflexivity. }
    assert (Hzm : (m <= z * 2 ^ (52 - e))%Z).
    { apply round_half_even_le. rewrite inject_Z_mult.
      apply Qle_shift_div_r; [exact Hulp |].
      rewrite <- Qmult_assoc, EP. lra. }
    rewrite Zle_Qle, inject_Z_mult in Hzm.
    apply Qmult_le_compat_r with (z := ulp) in Hzm; [| lra].
    rewrite <- Qmult_assoc, EP in Hzm. rewrite Er. lra.
Qed.

(** Numbers with at most 53 significant bits below the binary point scale
    are represented exactly; in particular integers and half-integers. *)
Lemma fround64_exact (q : Q) (e : Z) (m : Z) :
  2 ^ e <= q -> q < 2 ^ (e + 1) -> (-1022 <= e < 1022)%Z ->
  q == inject_Z m * 2 ^ (e - 52) ->
  fround binary64 q = Num (Qred q).
Proof.
  intros Hlo Hhi He Em.
  rewrite (fround_pos binary64 q e Hlo Hhi) by (cbn; lia).
  cbn [prec binary64]. replace (53 - 1)%Z with 52%Z by reflexivity.
  f_equal. apply Qred_complete.
  assert (Hulp : 0 < 2 ^ (e - 52)) by apply pow2_pos.
  assert (Et : q / 2 ^ (e - 52) == inject_Z m).
  { rewrite Em. field. apply Qnot_eq_sym, Qlt_not_eq, Hulp. }
  rewrite (round_half_even_Z m _ Et). symmetry. exact Em.
Qed.

End Binary64.


Section SpecFloatAgreement.

(** On every exact tie of the landscape branch the model's two divisions
    agree with [SFdiv] at binary64. *)
Lemma landscape_tie_SpecFloat :
  forallb (fun n =>
    number_eqb
      (fdiv (of_int 320) (fdiv (of_int 640) (of_int (2 * n + 1))))
      (of_spec_float
         (SFdiv 53 1024 (SF64_of_int 320)
            (SFdiv 53 1024 (SF64_of_int 640) (SF64_of_int (2 * n + 1))))))
    tie_candidates = true.
Proof. vm_compute. reflexivity. Qed.

Lemma portrait_tie_SpecFloat :
  forallb (fun n =>
    number_eqb
      (fmul (of_int 320) (fdiv (of_int (2 * n + 1)) (of_int 640)))
      (of_spec_float
         (SFmul 53 1024 (SF64_of_int 320)
            (SFdiv 53 1024 (SF64_of_int (2 * n + 1)) (SF64_of_int 640)))))
    tie_candidates = true.
Proof. vm_compute. reflexivity. Qed.

(** On every image size up to 48 x 48 the quotient and the product of the
    two branches agree with [SFdiv] and [SFmul]. *)
Lemma small_sizes_SpecFloat :
  forallb (fun '(w, h) =>
    number_eqb
      (fdiv (of_int 320) (fdiv (of_int w) (of_int h)))
      (of_spec_float
         (SFdiv 53 1024 (SF64_of_int 320)
            (SFdiv 53 1024 (SF64_of_int w) (SF64_of_int h))))
    && number_eqb
         (fmul (of_int 320) (fdiv (of_int w) (of_int h)))
         (of_spec_float
            (SFmul 53 1024 (SF64_of_int 320)
               (SFdiv 53 1024 (SF64_of_int w) (SF64_of_int h)))))
    small_sizes = true
  /\ length small_sizes = 2304%nat.
Proof. split; vm_compute; reflexivity. Qed.

(** For every byte, [normalize] agrees with the binary64 division narrowed
    to binary32. *)
Lemma normalize_SpecFloat :
  forallb (fun b =>
    number_eqb (normalize b)
      (of_spec_float
         (SF32_of_SF64
            (SFdiv 53 1024 (SF64_of_int (Z.of_N (Byte.to_N b))) (SF64_of_int 255)))))
    all_bytes = true
  /\ length all_bytes = 256%nat.
Proof. split; vm_compute; reflexivity. Qed.

End SpecFloatAgreement.

(* ===================================================================== *)
(** ** The resize step *)
(* ===================================================================== *)

Section ResizeFacts.
Local Open Scope Q_scope.

Lemma Qeq_bool_inject_Z_pos (z : Z) : (0 < z)%Z -> Qeq_bool (inject_Z z) 0 = false.
Proof.
  intros Hz. destruct (Qeq_bool (inject_Z z) 0) eqn:Hb; [| reflexivity].
  apply Qeq_bool_iff in Hb. unfold Qeq in Hb. cbn in Hb. lia.
Qed.

Lemma Qeq_bool_pos (q : Q) : 0 < q -> Qeq_bool q 0 = false.
Proof.
  intros Hq. destruct (Qeq_bool q 0) eqn:Hb; [| reflexivity].
  apply Qeq_bool_iff in Hb. rewrite Hb in Hq. discriminate Hq.
Qed.

(** The rounding step: a value within [640 * 2 ^ -53] of the exact quotient
    [a / b] rounds like the quotient, unless the quotient is an exact tie. *)
Lemma Math_round_near (a b : Z) (y : Q) :
  (0 < b < 2 ^ 32)%Z ->
  (y - inject_Z a / inject_Z b) * 2 ^ 53 <= 640 ->
  (inject_Z a / inject_Z b - y) * 2 ^ 53 <= 640 ->
  is_tie a b = false ->
  Qfloor (y + (1 # 2)) = round_div a b.
Proof.
  intros Hb Hy1 Hy2 Htie. unfold is_tie in Htie. apply Z.eqb_neq in Htie.
  unfold round_div.
  pose proof (Z.div_mod (2 * a + b) (2 * b) ltac:(lia)) as Hdm.
  pose proof (Z.mod_pos_bound (2 * a + b) (2 * b) ltac:(lia)) as Hr.
  set (n := ((2 * a + b) / (2 * b))%Z) in *.
  set (r := ((2 * a + b) mod (2 * b))%Z) in *.
  assert (HB : 0 < inject_Z b) by (change 0 with (inject_Z 0); rewrite <- Zlt_Qlt; lia).
  assert (Hx : (inject_Z a / inject_Z b + (1 # 2)) * (2 * inject_Z b)
               == 2 * inject_Z b * inject_Z n + inject_Z r).
  { assert (E : inject_Z (2 * a + b) == inject_Z (2 * b * n + r)) by (rewrite Hdm; reflexivity).
    rewrite !inject_Z_plus, !inject_Z_mult in E. change (inject_Z 2) with 2 in E.
    rewrite <- E. field. lra. }
  assert (Hr1 : 1 <= inject_Z r) by (change 1 with (inject_Z 1); rewrite <- Zle_Qle; lia).
  assert (Hr2 : inject_Z r + 1 <= 2 * inject_Z b).
  { change 1 with (inject_Z 1). change 2 with (inject_Z 2).
    rewrite <- inject_Z_mult, <- inject_Z_plus, <- Zle_Qle. lia. }
  assert (HU : 1280 * inject_Z b < 2 ^ 53).
  { change (2 ^ 53) with (inject_Z (2 ^ 53)). change 1280 with (inject_Z 1280).
    rewrite <- inject_Z_mult, <- Zlt_Qlt. lia. }
  set (x := inject_Z a / inject_Z b) in *.
  set (U := 2 ^ 53) in *. set (B := inject_Z b) in *.
  assert (HUpos : 0 < U) by reflexivity.
  (* the perturbation is smaller than the distance to the nearest tie *)
  assert (Hd1 : (y - x) * (2 * B) < 1).
  { apply Qmult_lt_r with (z := U); [exact HUpos |].
    assert ((y - x) * (2 * B) * U == (y - x) * U * (2 * B)) as -> by ring. nra. }
  assert (Hd2 : (x - y) * (2 * B) < 1).
  { apply Qmult_lt_r with (z := U); [exact HUpos |].
    assert ((x - y) * (2 * B) * U == (x - y) * U * (2 * B)) as -> by ring. nra. }
  apply Qfloor_unique.
  - apply Qmult_le_r with (z := 2 * B); [lra |]. nra.
  - rewrite inject_Z_plus. change (inject_Z 1) with 1.
    apply Qmult_lt_r with (z := 2 * B); [lra |]. nra.
Qed.

End ResizeFacts.


Section ErrorAnalysis.
Local Open Scope Q_scope.

(** Two successive roundings, each of relative error [1 / U], around a
    division by a quotient that is at least 1. *)
Lemma div_div_error (U q1 ra q2 ry x : Q) :
  1 <= U -> 1 <= q1 -> 1 <= ra ->
  (ra - q1) * U <= q1 -> (q1 - ra) * U <= q1 ->
  q2 * ra == 320 -> x * q1 == 320 ->
  (ry - q2) * U <= q2 -> (q2 - ry) * U <= q2 ->
  (ry - x) * U <= 640 /\ (x - ry) * U <= 640.
Proof.
  intros HU Hq1 Hra E1 E2 Eq2 Ex F1 F2.
  assert (Hq2 : 0 < q2 /\ q2 <= 320) by (split; nra).
  assert (Hx : 0 < x) by nra.
  assert (K : (q2 - x) * ra * q1 == 320 * (q1 - ra)).
  { assert ((q2 - x) * ra * q1 == q2 * ra * q1 - x * q1 * ra) as -> by ring.
    rewrite Eq2, Ex. ring. }
  assert (G1 : (q2 - x) * U <= 320).
  { destruct (Qlt_le_dec (q2 - x) 0) as [Hn | Hp]; [nra |].
    assert (M : (q2 - x) * ra * U <= 320).
    { apply Qmult_le_r with (z := q1); [lra |].
      assert ((q2 - x) * ra * U * q1 == (q2 - x) * ra * q1 * U) as -> by ring.
      rewrite K. nra. }
    apply Qle_trans with ((q2 - x) * ra * U); [| exact M].
    assert (0 <= (q2 - x) * U) by nra. nra. }
  assert (G2 : (x - q2) * U <= 320).
  { destruct (Qlt_le_dec (x - q2) 0) as [Hn | Hp]; [nra |].
    assert (M : (x - q2) * ra * U <= 320).
    { apply Qmult_le_r with (z := q1); [lra |].
      assert ((x - q2) * ra * U * q1 == - ((q2 - x) * ra * q1) * U) as -> by ring.
      rewrite K. nra. }
    apply Qle_trans with ((x - q2) * ra * U); [| exact M].
    assert (0 <= (x - q2) * U) by nra. nra. }
  split; nra.
Qed.

(** The same around a multiplication by a quotient that is at most 1. *)
Lemma mul_div_error (U q1 ra q2 ry x : Q) :
  1 <= U -> 0 < q1 -> q1 <= 1 -> ra <= 1 ->
  (ra - q1) * U <= q1 -> (q1 - ra) * U <= q1 ->
  q2 == 320 * ra -> x == 320 * q1 ->
  (ry - q2) * U <= q2 -> (q2 - ry) * U <= q2 ->
  (ry - x) * U <= 640 /\ (x - ry) * U <= 640.
Proof.
  intros HU Hq0 Hq1 Hra E1 E2 Eq2 Ex F1 F2.
  rewrite Eq2 in F1, F2. rewrite Ex.
  split; nra.
Qed.

End ErrorAnalysis.

Section ResizeAnalysis.
Local Open Scope Q_scope.

Lemma inject_Z_pos (z : Z) : (0 < z)%Z -> 0 < inject_Z z.
Proof. intros H. change 0 with (inject_Z 0). rewrite <- Zlt_Qlt. exact H. Qed.

Lemma pow2_small_le_1 : 2 ^ (-1022) <= 1.
Proof. change 1 with (2 ^ 0). apply pow2_le. lia. Qed.

Lemma lt_pow2_1022 (q : Q) : q <= 2 ^ 32 -> q < 2 ^ 1022.
Proof.
  intros H. eapply Qle_lt_trans; [exact H |].
  apply Qlt_le_trans with (2 ^ 33); [reflexivity | apply pow2_le; lia].
Qed.

(** Landscape branch: the value handed to [Math.round] is within
    [640 * 2 ^ -53] of [320 * h / w]. *)
Lemma landscape_quotient (w h : Z) :
  (1 <= h <= w)%Z -> (w < 2 ^ 32)%Z ->
  exists y : Q,
    fdiv (of_int 320) (fdiv (of_int w) (of_int h)) = Num y
    /\ (y - inject_Z (320 * h) / inject_Z w) * 2 ^ 53 <= 640
    /\ (inject_Z (320 * h) / inject_Z w - y) * 2 ^ 53 <= 640
    /\ y <= 320.
Proof.
  intros Hh Hw. unfold of_int.
  assert (HH : 0 < inject_Z h) by (apply inject_Z_pos; lia).
  assert (HW : 0 < inject_Z w) by (apply inject_Z_pos; lia).
  assert (HWH : inject_Z h <= inject_Z w) by (rewrite <- Zle_Qle; lia).
  assert (HW32 : inject_Z w <= 2 ^ 32).
  { change (2 ^ 32) with (inject_Z (2 ^ 32)). rewrite <- Zle_Qle. lia. }
  unfold fdiv at 2. rewrite (Qeq_bool_inject_Z_pos h) by lia.
  set (q1 := inject_Z w / inject_Z h).
  assert (Hq1 : 1 <= q1).
  { unfold q1. apply Qle_shift_div_l; [exact HH | lra]. }
  assert (Hq1' : q1 <= 2 ^ 32).
  { unfold q1. apply Qle_shift_div_r; [exact HH |].
    assert (1 <= inject_Z h) by (change 1 with (inject_Z 1); rewrite <- Zle_Qle; lia).
    assert (0 < 2 ^ 32) by reflexivity. nra. }
  destruct (fround64_spec q1) as (ra & Ea & E1 & E2 & Lo & Hi).
  { eapply Qle_trans; [apply pow2_small_le_1 | exact Hq1]. }
  { apply lt_pow2_1022. exact Hq1'. }
  assert (H53 : q1 < 2 ^ 53).
  { eapply Qle_lt_trans; [exact Hq1' | reflexivity]. }
  assert (Hra : 1 <= ra) by (apply (Lo 1%Z H53); exact Hq1).
  assert (Hra' : ra <= 2 ^ 32) by (apply (Hi (2 ^ 32)%Z H53); exact Hq1').
  rewrite Ea. unfold fdiv. rewrite (Qeq_bool_pos ra) by lra.
  set (q2 := inject_Z 320 / ra).
  assert (Eq2 : q2 * ra == 320) by (unfold q2; change (inject_Z 320) with 320; field; lra).
  assert (Hq2 : q2 <= 320).
  { unfold q2. apply Qle_shift_div_r; [lra |]. change (inject_Z 320) with 320. nra. }
  assert (Hq2' : 2 ^ (-1022) <= q2).
  { apply Qle_trans with (2 ^ (-32)); [apply pow2_le; lia |].
    unfold q2. apply Qle_shift_div_l; [lra |].
    change (inject_Z 320) with 320. change (2 ^ (-32)) with (/ 2 ^ 32).
    assert (0 < 2 ^ 32) by reflexivity.
    apply Qle_trans with (/ 2 ^ 32 * 2 ^ 32); [| rewrite Qmult_comm, Qmult_inv_r; lra].
    apply Qmult_le_l; [apply Qinv_lt_0_compat; assumption | exact Hra']. }
  destruct (fround64_spec q2 Hq2') as (ry & Ey & F1 & F2 & Lo2 & Hi2).
  { apply lt_pow2_1022. eapply Qle_trans; [exact Hq2 | discriminate]. }
  exists ry. split; [exact Ey |].
  assert (Ex : inject_Z (320 * h) / inject_Z w * q1 == 320).
  { unfold q1. rewrite inject_Z_mult. change (inject_Z 320) with 320. field. lra. }
  destruct (div_div_error (2 ^ 53) q1 ra q2 ry _ ltac:(discriminate) Hq1 Hra E1 E2 Eq2 Ex F1 F2)
    as [G1 G2].
  repeat split; [exact G1 | exact G2 |].
  apply (Hi2 320%Z); [| exact Hq2].
  eapply Qle_lt_trans; [exact Hq2 | reflexivity].
Qed.

(** Portrait branch: likewise for [320 * w / h]. *)
Lemma portrait_product (w h : Z) :
  (1 <= w < h)%Z -> (h < 2 ^ 32)%Z ->
  exists y : Q,
    fmul (of_int 320) (fdiv (of_int w) (of_int h)) = Num y
    /\ (y - inject_Z (320 * w) / inject_Z h) * 2 ^ 53 <= 640
    /\ (inject_Z (320 * w) / inject_Z h - y) * 2 ^ 53 <= 640
    /\ y <= 320.
Proof.
  intros Hw Hh. unfold of_int.
  assert (HH : 0 < inject_Z h) by (apply inject_Z_pos; lia).
  assert (HW : 1 <= inject_Z w) by (change 1 with (inject_Z 1); rewrite <- Zle_Qle; lia).
  assert (HWH : inject_Z w <= inject_Z h) by (rewrite <- Zle_Qle; lia).
  assert (HH32 : inject_Z h <= 2 ^ 32).
  { change (2 ^ 32) with (inject_Z (2 ^ 32)). rewrite <- Zle_Qle. lia. }
  unfold fdiv. rewrite (Qeq_bool_inject_Z_pos h) by lia.
  set (q1 := inject_Z w / inject_Z h).
  assert (Hq1 : q1 <= 1).
  { unfold q1. apply Qle_shift_div_r; [exact HH | lra]. }
  assert (Hq1' : 2 ^ (-32) <= q1).
  { unfold q1. apply Qle_shift_div_l; [exact HH |].
    change (2 ^ (-32)) with (/ 2 ^ 32). assert (0 < 2 ^ 32) by reflexivity.
    apply Qle_trans with (/ 2 ^ 32 * 2 ^ 32); [| rewrite Qmult_comm, Qmult_inv_r; lra].
    apply Qmult_le_l; [apply Qinv_lt_0_compat; assumption | exact HH32]. }
  assert (Hq0 : 0 < q1) by (eapply Qlt_le_trans; [apply (pow2_pos (-32)) | exact Hq1']).
  destruct (fround64_spec q1) as (ra & Ea & E1 & E2 & Lo & Hi).
  { eapply Qle_trans; [apply pow2_le | exact Hq1']. lia. }
  { apply lt_pow2_1022. eapply Qle_trans; [exact Hq1 | discriminate]. }
  assert (H53 : q1 < 2 ^ 53) by (eapply Qle_lt_trans; [exact Hq1 | reflexivity]).
  assert (Hra : ra <= 1) by (apply (Hi 1%Z H53); exact Hq1).
  assert (Hra' : q1 <= 2 * ra).
  { assert (0 < 2 ^ 53) by reflexivity. assert (2 <= 2 ^ 53) by discriminate. nra. }
  rewrite Ea. unfold fmul.
  set (q2 := inject_Z 320 * ra).
  assert (Eq2 : q2 == 320 * ra) by reflexivity.
  assert (Hq2 : q2 <= 320) by (rewrite Eq2; lra).
  assert (Hq2' : 2 ^ (-1022) <= q2).
  { apply Qle_trans with (2 ^ (-32)); [apply pow2_le; lia |]. rewrite Eq2. lra. }
  destruct (fround64_spec q2 Hq2') as (ry & Ey & F1 & F2 & Lo2 & Hi2).
  { apply lt_pow2_1022. eapply Qle_trans; [exact Hq2 | discriminate]. }
  exists ry. split; [exact Ey |].
  assert (Ex : inject_Z (320 * w) / inject_Z h == 320 * q1).
  { unfold q1. rewrite inject_Z_mult. change (inject_Z 320) with 320. field. lra. }
  destruct (mul_div_error (2 ^ 53) q1 ra q2 ry _ ltac:(discriminate) Hq0 Hq1 Hra E1 E2 Eq2 Ex F1 F2)
    as [G1 G2].
  repeat split; [exact G1 | exact G2 |].
  apply (Hi2 320%Z); [| exact Hq2].
  eapply Qle_lt_trans; [exact Hq2 | reflexivity].
Qed.

End ResizeAnalysis.

(** The size of a tensor as the constructor computes it. *)
Section TensorSize.

Lemma fround64_big (q : Q) :
  (2 ^ 53 <= q)%Q ->
  fround binary64 q = Inf false
  \/ exists r, fround binary64 q = Num r /\ (2 ^ 53 <= r)%Q.
Proof.
  intros H53.
  assert (Hq : (0 < q)%Q) by (eapply Qlt_le_trans; [apply (pow2_pos 53) | exact H53]).
  destruct (ilog2_spec q Hq) as [Hlo Hhi]. set (e := ilog2 q) in *.
  assert (He : (53 <= e)%Z).
  { assert (53 < e + 1)%Z by (apply pow2_lt_inv; eapply Qle_lt_trans; eassumption). lia. }
  unfold fround.
  pose proof (Qred_correct q) as Eq'. set (q' := Qred q) in *.
  assert (Hq' : (0 < q')%Q) by (rewrite Eq'; exact Hq).
  rewrite (Qeq_bool_pos q' Hq').
  assert (Habs : (Qabs q' == q)%Q).
  { rewrite Eq'. apply Qabs_pos. apply Qlt_le_weak. exact Hq. }
  assert (He' : ilog2 (Qabs q') = e).
  { apply ilog2_unique; rewrite Habs; assumption. }
  rewrite He'. cbn [emin prec emax binary64]. rewrite Z.max_l by lia.
  replace (53 - 1)%Z with 52%Z by reflexivity.
  set (ulp := (2 ^ (e - 52))%Q).
  assert (Hulp : (0 < ulp)%Q) by apply pow2_pos.
  set (m := round_half_even (q' / ulp)).
  assert (E52 : (inject_Z (2 ^ 52)%Z * ulp == 2 ^ e)%Q).
  { rewrite pow2_Z by lia. unfold ulp. rewrite <- pow2_plus.
    replace (52 + (e - 52))%Z with e by lia. reflexivity. }
  assert (Hm : (2 ^ 52 <= m)%Z).
  { apply round_half_even_ge. apply Qle_shift_div_l; [exact Hulp |].
    rewrite E52, Eq'. exact Hlo. }
  assert (Hr : (2 ^ 53 <= inject_Z m * ulp)%Q).
  { apply Qle_trans with (2 ^ e)%Q; [apply pow2_le; exact He |].
    rewrite <- E52. apply Qmult_le_compat_r; [| apply Qlt_le_weak; exact Hulp].
    rewrite <- Zle_Qle. exact Hm. }
  assert (Hneg : is_neg q' = false).
  { unfold is_neg. apply negb_false_iff, Qle_bool_iff, Qlt_le_weak. exact Hq'. }
  rewrite Hneg.
  destruct (Qle_bool _ _); [left; reflexivity |].
  right. eexists. split; [reflexivity |]. rewrite Qred_correct. exact Hr.
Qed.

Lemma fround64_natural (z : Z) :
  (0 <= z < 2 ^ 53)%Z ->
  exists r, fround binary64 (inject_Z z) = Num r /\ (r == inject_Z z)%Q.
Proof.
  intros [H0 H53]. destruct (Z.eq_dec z 0) as [-> | Hne].
  - exists 0%Q. split; reflexivity.
  - assert (H1 : (1 <= inject_Z z)%Q).
    { change 1%Q with (inject_Z 1). rewrite <- Zle_Qle. lia. }
    assert (Hlt : (inject_Z z < 2 ^ 53)%Q).
    { rewrite <- (pow2_Z 53) by lia. rewrite <- Zlt_Qlt. exact H53. }
    destruct (fround64_spec (inject_Z z)) as (r & Hr & _ & _ & Hge & Hle).
    + eapply Qle_trans; [apply pow2_small_le_1 | exact H1].
    + eapply Qlt_le_trans; [exact Hlt | apply pow2_le; lia].
    + exists r. split; [exact Hr |]. apply Qle_antisym.
      * apply (Hle z Hlt). apply Qle_refl.
      * apply (Hge z Hlt). apply Qle_refl.
Qed.

(** One multiplication of [calculateSize]. *)
Lemma tracks_fmul (size : number) (exact dim : Z) :
  tracks size exact -> (0 <= dim < 2 ^ 53)%Z ->
  tracks (fmul size (of_int dim)) (exact * dim).
Proof.
  intros Ht Hd. destruct size as [q | negative |]; cbn [tracks] in Ht.
  - cbn [fmul of_int]. destruct Ht as [[Eq [H0 H53]] | [H53 Hq]].
    + assert (Ep : (q * inject_Z dim == inject_Z (exact * dim))%Q).
      { rewrite Eq, inject_Z_mult. reflexivity. }
      rewrite (fround_comp binary64 _ _ Ep).
      destruct (Z_lt_le_dec (exact * dim) (2 ^ 53)) as [Hs | Hb].
      * destruct (fround64_natural (exact * dim)) as (r & -> & Er); [nia |].
        cbn [tracks]. left. split; [exact Er | nia].
      * assert (Hbq : (2 ^ 53 <= inject_Z (exact * dim))%Q).
        { rewrite <- (pow2_Z 53) by lia. rewrite <- Zle_Qle. exact Hb. }
        destruct (fround64_big _ Hbq) as [-> | (r & -> & Hr)]; cbn [tracks].
        -- split; [reflexivity | exact Hb].
        -- right. split; [exact Hb | exact Hr].
    + destruct (Z.eq_dec dim 0) as [-> | Hne].
      * assert (Ep : (q * inject_Z 0 == inject_Z 0)%Q) by (cbn; ring).
        rewrite (fround_comp binary64 _ _ Ep), Z.mul_0_r.
        replace (fround binary64 (inject_Z 0)) with (Num 0) by reflexivity.
        cbn [tracks]. left. split; [reflexivity | lia].
      * assert (Hd1 : (1 <= inject_Z dim)%Q).
        { change 1%Q with (inject_Z 1). rewrite <- Zle_Qle. lia. }
        assert (Hbq : (2 ^ 53 <= q * inject_Z dim)%Q).
        { assert (H0 : (0 < 2 ^ 53)%Q) by apply pow2_pos. nra. }
        destruct (fround64_big _ Hbq) as [-> | (r & -> & Hr)]; cbn [tracks].
        -- split; [reflexivity | nia].
        -- right. split; [nia | exact Hr].
  - destruct Ht as [-> H53]. cbn [fmul of_int].
    destruct (Z.eq_dec dim 0) as [-> | Hne].
    + replace (Qeq_bool (inject_Z 0) 0) with true by reflexivity.
      cbn [tracks]. lia.
    + rewrite Qeq_bool_inject_Z_pos by lia. cbn [xorb].
      replace (is_neg (inject_Z dim)) with false.
      * cbn [tracks]. split; [reflexivity | nia].
      * symmetry. unfold is_neg. apply negb_false_iff, Qle_bool_iff.
        change 0%Q with (inject_Z 0). rewrite <- Zle_Qle. lia.
  - cbn [fmul tracks] in *. subst exact. reflexivity.
Qed.

Lemma calculateSize_tracks (dims : list Z) (i : nat) (size : number) (exact : Z) :
  tracks size exact ->
  match calculateSize i size dims with
  | Ok size' => tracks size' (exact * product dims)
  | Throw _ => True
  end.
Proof.
  revert i size exact. induction dims as [| dim dims IH]; intros i size exact Ht.
  - cbn [calculateSize product]. rewrite Z.mul_1_r. exact Ht.
  - cbn [calculateSize product]. unfold isSafeInteger.
    destruct (Z.ltb_spec (Z.abs dim) (2 ^ 53)) as [Hs |]; cbn [negb]; [| exact I].
    destruct (Z.ltb_spec dim 0) as [| Hn]; [exact I |].
    rewrite Z.mul_assoc. apply IH. apply tracks_fmul; [exact Ht | lia].
Qed.

(** A size that belongs to another product than the data length differs from
    the data length. *)
Lemma tracks_mismatch (size : number) (exact len : Z) :
  tracks size exact -> (0 <= len < 2 ^ 53)%Z -> len <> exact ->
  strictEq size (of_int len) = false.
Proof.
  intros Ht Hl Hne. destruct size as [q | negative |]; [| reflexivity | reflexivity].
  cbn [strictEq of_int]. destruct (Qeq_bool q (inject_Z len)) eqn:Hb; [| reflexivity].
  exfalso. apply Qeq_bool_iff in Hb. destruct Ht as [[Eq _] | [_ Hq]].
  - rewrite Eq in Hb. unfold Qeq in Hb. cbn in Hb. lia.
  - assert (Hlq : (inject_Z len < 2 ^ 53)%Q).
    { rewrite <- (pow2_Z 53) by lia. rewrite <- Zlt_Qlt. lia. }
    rewrite Hb in Hq. apply (Qlt_irrefl (inject_Z len)).
    eapply Qlt_le_trans; eassumption.
Qed.

(** The constructor of onnxruntime-web 1.16.3 refuses every tensor whose
    data length differs from the product of its dimensions. *)
Lemma tensorError_mismatch (data : list number) (dims : list Z) :
  (Z.of_nat (length data) < 2 ^ 53)%Z ->
  Z.of_nat (length data) <> product dims ->
  exists e,
    tensorError data dims = Some e
    /\ match calculateSize 0 (of_int 1) dims with
       | Throw e' => e = e'
       | Ok size =>
           e = mkExn "Error"
                 ("Tensor's size(" +:+ numberToString size
                  +:+ ") does not match data length("
                  +:+ pretty (length data) +:+ ").")
       end.
Proof.
  intros Hl Hne. unfold tensorError.
  assert (H1 : tracks (of_int 1) 1).
  { cbn. left. split; [reflexivity | lia]. }
  pose proof (calculateSize_tracks dims 0 (of_int 1) 1 H1) as Ht.
  destruct (calculateSize 0 (of_int 1) dims) as [size | e'].
  - rewrite Z.mul_1_l in Ht.
    rewrite (tracks_mismatch size (product dims) (Z.of_nat (length data)) Ht)
      by (try lia; exact Hne).
    eexists. split; reflexivity.
  - exists e'. split; reflexivity.
Qed.

End TensorSize.

Section Ties.
Local Open Scope Q_scope.

Lemma number_eqb_eq (x y : number) : number_eqb x y = true -> x = y.
Proof.
  destruct x as [[pn pd] | s |], y as [[qn qd] | t |]; cbn; try discriminate.
  - intros H. apply andb_prop in H as [H1 H2].
    apply Z.eqb_eq in H1. apply Pos.eqb_eq in H2. subst. reflexivity.
  - intros H. apply Bool.eqb_prop in H. subst. reflexivity.
  - reflexivity.
Qed.

Lemma tie_candidates_complete (n : Z) : (0 <= n < 320)%Z -> In n tie_candidates.
Proof.
  intros Hn. unfold tie_candidates. apply in_map_iff.
  exists (Z.to_nat n). split; [lia |]. apply in_seq. lia.
Qed.

Lemma landscape_tie_table (n : Z) :
  (0 <= n < 320)%Z ->
  landscape_tie n = of_int (if tie_rounds_down n then n else n + 1).
Proof.
  intros Hn. apply number_eqb_eq.
  assert (All : forallb (fun k => number_eqb (landscape_tie k)
                 (of_int (if tie_rounds_down k then k else k + 1))) tie_candidates = true)
    by (vm_compute; reflexivity).
  rewrite forallb_forall in All. apply All, tie_candidates_complete, Hn.
Qed.

Lemma portrait_tie_table (n : Z) :
  (0 <= n < 320)%Z -> portrait_tie n = of_int (n + 1).
Proof.
  intros Hn. apply number_eqb_eq.
  assert (All : forallb (fun k => number_eqb (portrait_tie k) (of_int (k + 1)))
                  tie_candidates = true)
    by (vm_compute; reflexivity).
  rewrite forallb_forall in All. apply All, tie_candidates_complete, Hn.
Qed.

Lemma fdiv_int_comp (a b c d : Z) :
  (0 < b)%Z -> (0 < d)%Z -> (a * d = c * b)%Z ->
  fdiv (of_int a) (of_int b) = fdiv (of_int c) (of_int d).
Proof.
  intros Hb Hd E. unfold fdiv, of_int.
  rewrite !Qeq_bool_inject_Z_pos by assumption.
  apply fround_comp.
  assert (E' : inject_Z a * inject_Z d == inject_Z c * inject_Z b).
  { rewrite <- !inject_Z_mult, E. reflexivity. }
  pose proof (inject_Z_pos b Hb). pose proof (inject_Z_pos d Hd).
  apply Qmult_inj_r with (z := inject_Z b * inject_Z d); [nra |].
  assert (inject_Z a / inject_Z b * (inject_Z b * inject_Z d) == inject_Z a * inject_Z d) as ->
    by (field; lra).
  assert (inject_Z c / inject_Z d * (inject_Z b * inject_Z d) == inject_Z c * inject_Z b) as ->
    by (field; lra).
  exact E'.
Qed.

Lemma tie_inv (a b : Z) :
  (0 < b)%Z -> is_tie a b = true ->
  (2 * a = (2 * (round_div a b - 1) + 1) * b)%Z.
Proof.
  intros Hb Ht. unfold is_tie in Ht. apply Z.eqb_eq in Ht. unfold round_div.
  pose proof (Z.div_mod (2 * a + b) (2 * b) ltac:(lia)) as Hdm. nia.
Qed.

End Ties.

Section ResizeSpec.
Local Open Scope Z_scope.

Lemma fge_int (a b : Z) : fge (of_int a) (of_int b) = (b <=? a).
Proof.
  unfold fge, of_int, Qle_bool. cbn. rewrite !Z.mul_1_r. reflexivity.
Qed.

(** The resize step on a landscape or square image. *)
Lemma resize_landscape (w h : Z) :
  1 <= h <= w -> w < 2 ^ 32 ->
  resize 320 w h = (of_int 320, of_int (landscape_height w h)).
Proof.
  intros Hh Hw. unfold resize. rewrite fge_int.
  destruct (Z.leb_spec h w) as [_ | ?]; [| lia].
  f_equal. unfold landscape_height.
  destruct (is_tie (320 * h) w) eqn:Ht; cbn [andb].
  - assert (Hw0 : 0 < w) by lia.
    pose proof (tie_inv (320 * h) w Hw0 Ht) as E.
    set (n := round_div (320 * h) w - 1) in *.
    assert (Hn : 0 <= n < 320) by (nia).
    rewrite (fdiv_int_comp w h 640 (2 * n + 1)) by (lia).
    fold (landscape_tie n). rewrite (landscape_tie_table n Hn).
    destruct (tie_rounds_down n); f_equal; unfold n; lia.
  - destruct (landscape_quotient w h Hh Hw) as (y & Ey & G1 & G2 & _).
    rewrite Ey. cbn [Math_round]. unfold of_int. do 2 f_equal.
    apply Math_round_near; [lia | exact G1 | exact G2 | exact Ht].
Qed.

(** The resize step on a portrait image. *)
Lemma resize_portrait (w h : Z) :
  1 <= w < h -> h < 2 ^ 32 ->
  resize 320 w h = (of_int (round_div (320 * w) h), of_int 320).
Proof.
  intros Hw Hh. unfold resize. rewrite fge_int.
  destruct (Z.leb_spec h w) as [? | _]; [lia |].
  f_equal.
  destruct (is_tie (320 * w) h) eqn:Ht.
  - assert (Hh0 : 0 < h) by lia.
    pose proof (tie_inv (320 * w) h Hh0 Ht) as E.
    set (n := round_div (320 * w) h - 1) in *.
    assert (Hn : 0 <= n < 320) by (nia).
    rewrite (fdiv_int_comp w h (2 * n + 1) 640) by (lia).
    fold (portrait_tie n). rewrite (portrait_tie_table n Hn).
    f_equal. unfold n. lia.
  - destruct (portrait_product w h Hw Hh) as (y & Ey & G1 & G2 & _).
    rewrite Ey. cbn [Math_round]. unfold of_int. do 2 f_equal.
    apply Math_round_near; [lia | exact G1 | exact G2 | exact Ht].
Qed.

End ResizeSpec.

Section ResizeTheorems.
Local Open Scope Z_scope.

Lemma tie_rounds_down_range (n : Z) : tie_rounds_down n = true -> 14 <= n <= 307.
Proof.
  unfold tie_rounds_down. cbn [existsb]. rewrite !orb_true_iff, !Z.eqb_eq. lia.
Qed.

Lemma round_div_bounds (a b : Z) :
  0 <= a <= 320 * b -> 0 < b ->
  0 <= round_div a b <= 320 /\ (round_div a b = 320 <-> 639 * b <= 2 * a).
Proof.
  intros Ha Hb. unfold round_div.
  pose proof (Z.div_mod (2 * a + b) (2 * b) ltac:(lia)) as Hdm.
  pose proof (Z.mod_pos_bound (2 * a + b) (2 * b) ltac:(lia)) as Hr.
  nia.
Qed.

Lemma landscape_height_bounds (w h : Z) :
  1 <= h <= w ->
  0 <= landscape_height w h <= 320
  /\ (landscape_height w h = 320 <-> 639 * w <= 640 * h).
Proof.
  intros Hh. unfold landscape_height.
  destruct (round_div_bounds (320 * h) w ltac:(lia) ltac:(lia)) as [Hn Hiff].
  destruct (is_tie (320 * h) w && tie_rounds_down (round_div (320 * h) w - 1)) eqn:Hb.
  - apply andb_prop in Hb as [_ Hb]. apply tie_rounds_down_range in Hb. lia.
  - lia.
Qed.

(** [round_div a b] is [Math.round] of the exact quotient [a / b]. *)
Lemma round_div_exact (a b : Z) :
  0 < b -> Math_round (Num (inject_Z a / inject_Z b)) = of_int (round_div a b).
Proof.
  intros Hb. unfold Math_round, of_int, round_div. do 2 f_equal.
  rewrite Zdiv_Qdiv. apply Qfloor_comp.
  assert (HB : (0 < inject_Z b)%Q) by (apply inject_Z_pos; exact Hb).
  rewrite inject_Z_plus, !inject_Z_mult. change (inject_Z 2) with 2%Q.
  field. lra.
Qed.

(** Off the exact ties, and on the ties that are not in [tie_rounds_down],
    the landscape height is the rounded quotient. *)
Lemma landscape_height_round (w h : Z) :
  is_tie (320 * h) w && tie_rounds_down (round_div (320 * h) w - 1) = false ->
  landscape_height w h = round_div (320 * h) w.
Proof. intros H. unfold landscape_height. rewrite H. reflexivity. Qed.

(** The 640 x 480 scenario: resized to 320 x 240 and centred with 40 rows
    of padding above. *)
Example letterbox_640_480 :
  resize 320 640 480 = (of_int 320, of_int 240)
  /\ padOffset 320 (of_int 320) = of_int 0
  /\ padOffset 320 (of_int 240) = of_int 40.
Proof. repeat split; vm_compute; reflexivity. Qed.

(** C2 (as amended).  On an image whose sides lie in [1, 2^32) the resize
    step yields [newWidth = 320] and [newHeight = landscape_height] when
    [width >= height], and [newHeight = 320] and
    [newWidth = round (320 * width / height)] when [height > width].
    [landscape_height] is [round (320 * height / width)] except on the
    exact ties [n + 1/2] with [n] in [tie_rounds_down], where it is [n]. *)
Theorem resize_aspect (w h : Z) :
  1 <= w < 2 ^ 32 -> 1 <= h < 2 ^ 32 ->
  resize 320 w h =
    if h <=? w
    then (of_int 320, of_int (landscape_height w h))
    else (of_int (round_div (320 * w) h), of_int 320).
Proof.
  intros Hw Hh. destruct (Z.leb_spec h w) as [Hle | Hlt].
  - apply resize_landscape; lia.
  - apply resize_portrait; lia.
Qed.

Lemma resize_aspect_witness :
  resize 320 640 480 =
    if 480 <=? 640
    then (of_int 320, of_int (landscape_height 640 480))
    else (of_int (round_div (320 * 640) 480), of_int 320).
Proof. apply (resize_aspect 640 480); lia. Defined.

(** C2, counterexample.  For a 128 x 91 image [320 * 91 / 128 = 227.5];
    rounding it gives 228, but the code computes [newHeight = 227]. *)
Lemma resize_128_91 :
  resize 320 128 91 = (of_int 320, of_int 227)
  /\ round_div (320 * 91) 128 = 228
  /\ Qfloor ((320 * 91 # 128) + (1 # 2)) = 228.
Proof. repeat split; vm_compute; reflexivity. Qed.

Lemma resize_within_bounds (w h : Z) :
  1 <= w < 2 ^ 32 -> 1 <= h < 2 ^ 32 ->
  exists nw nh : Z,
    resize 320 w h = (of_int nw, of_int nh) /\ 0 <= nw <= 320 /\ 0 <= nh <= 320.
Proof.
  intros Hw Hh. destruct (Z.leb_spec h w) as [Hle | Hlt].
  - exists 320, (landscape_height w h).
    destruct (landscape_height_bounds w h ltac:(lia)) as [Hb _].
    split; [apply resize_landscape; lia | lia].
  - exists (round_div (320 * w) h), 320.
    destruct (round_div_bounds (320 * w) h ltac:(lia) ltac:(lia)) as [Hb _].
    split; [apply resize_portrait; lia | lia].
Qed.

(** C7 (as amended).  Neither resized dimension exceeds 320 and the one
    along the longer side equals 320; both equal 320 exactly when
    [639 * max <= 640 * min], that is for square and nearly square images. *)
Theorem resize_within_target (w h : Z) :
  1 <= w < 2 ^ 32 -> 1 <= h < 2 ^ 32 ->
  exists nw nh : Z,
    resize 320 w h = (of_int nw, of_int nh)
    /\ 0 <= nw <= 320 /\ 0 <= nh <= 320
    /\ (if h <=? w then nw = 320 else nh = 320)
    /\ (nw = 320 /\ nh = 320 <-> 639 * Z.max w h <= 640 * Z.min w h).
Proof.
  intros Hw Hh. destruct (Z.leb_spec h w) as [Hle | Hlt].
  - exists 320, (landscape_height w h).
    destruct (landscape_height_bounds w h ltac:(lia)) as [Hb Hiff].
    split; [apply resize_landscape; lia |].
    repeat split; try lia.
  - exists (round_div (320 * w) h), 320.
    destruct (round_div_bounds (320 * w) h ltac:(lia) ltac:(lia)) as [Hb Hiff].
    split; [apply resize_portrait; lia |].
    repeat split; try lia.
Qed.

Lemma resize_within_target_witness :
  exists nw nh : Z,
    resize 320 640 480 = (of_int nw, of_int nh)
    /\ 0 <= nw <= 320 /\ 0 <= nh <= 320
    /\ (if 480 <=? 640 then nw = 320 else nh = 320)
    /\ (nw = 320 /\ nh = 320 <-> 639 * Z.max 640 480 <= 640 * Z.min 640 480).
Proof. apply (resize_within_target 640 480); lia. Defined.

(** C7, counterexample.  On a square image both resized dimensions equal
    320, and so they do on the nearly square 641 x 640. *)
Lemma resize_square :
  resize 320 640 640 = (of_int 320, of_int 320)
  /\ resize 320 641 640 = (of_int 320, of_int 320).
Proof. split; vm_compute; reflexivity. Qed.


Lemma padOffset_zero (w h : Z) :
  0 <= w -> 0 <= h -> w = 0 \/ h = 0 ->
  (padOffset 320 (zeroGeometry w h).1.1, padOffset 320 (zeroGeometry w h).1.2)
  = (zeroGeometry w h).2.
Proof.
  intros Hw Hh Hz. unfold zeroGeometry.
  destruct (w =? 0), (h =? 0); vm_compute; reflexivity.
Qed.

End ResizeTheorems.

(* ===================================================================== *)
(** ** The conversion to planar float32 data *)
(* ===================================================================== *)
Section TensorFacts.
Local Open Scope nat_scope.

Lemma in_unit_b_spec (x : number) : in_unit_b x = true -> in_unit x.
Proof.
  destruct x as [q | s |]; cbn; try discriminate.
  intros H. apply andb_prop in H as [H1 H2].
  split; apply Qle_bool_iff; assumption.
Qed.

Lemma normalize_in_unit (b : Byte.byte) : in_unit (normalize b).
Proof. apply in_unit_b_spec. destruct b; vm_compute; reflexivity. Qed.

Lemma sample_Some (data : list Byte.byte) (i : nat) (b : Byte.byte) :
  data !! i = Some b ->
  to_float32 (fdiv (sample data i) (of_int 255)) = normalize b.
Proof. intros H. unfold sample. rewrite H. reflexivity. Qed.

Lemma plane_index_inj (N p q c d : nat) :
  p < N -> q < N -> c < 3 -> d < 3 -> p + c * N = q + d * N -> p = q /\ c = d.
Proof. intros. assert (c = d) by nia. subst. lia. Qed.

(** The loop invariant: after the iterations for pixels [0 .. k-1] the three
    planes hold the converted samples of these pixels and the rest of the
    array is untouched. *)
Lemma fill_spec (T : Z) (data : list Byte.byte) (N : nat) :
  (T * T)%Z = Z.of_nat N -> length data = 4 * N ->
  forall (fuel k : nat) (out : list number),
    length out = 3 * N -> N <= k + fuel -> k <= N ->
    length (fill T data fuel (4 * k) out) = 3 * N
    /\ forall p c, p < N -> c < 3 ->
         fill T data fuel (4 * k) out !! (p + c * N)
         = if decide (k <= p)
           then Some (to_float32 (fdiv (sample data (4 * p + c)) (of_int 255)))
           else out !! (p + c * N).
Proof.
  intros HT Hdata.
  assert (E1 : Z.to_nat (T * T) = N) by lia.
  assert (E2 : Z.to_nat (2 * T * T) = 2 * N) by lia.
  induction fuel as [| fuel IH]; intros k out Hout Hfuel Hk.
  - cbn [fill]. split; [exact Hout |].
    intros p c Hp Hc. destruct (decide (k <= p)); [lia | reflexivity].
  - cbn [fill]. destruct (Nat.ltb_spec (4 * k) (length data)) as [Hlt | Hge].
    + rewrite E1, E2.
      replace (4 * k / 4) with k by (rewrite Nat.mul_comm, Nat.div_mul; lia).
      set (out' := <[k + 2 * N := _]> (<[k + N := _]> (<[k := _]> out))).
      assert (Hout' : length out' = 3 * N).
      { unfold out'. rewrite !length_insert. exact Hout. }
      replace (4 * k + 4) with (4 * (k + 1)) by lia.
      destruct (IH (k + 1) out' Hout' ltac:(lia) ltac:(lia)) as [IHlen IHget].
      split; [exact IHlen |].
      intros p c Hp Hc. rewrite (IHget p c Hp Hc).
      destruct (decide (k + 1 <= p)) as [Hkp | Hkp].
      * destruct (decide (k <= p)); [reflexivity | lia].
      * destruct (decide (k <= p)) as [Hkp' | Hkp'].
        -- assert (p = k) by lia. subst p. unfold out'.
           destruct c as [| [| [| c]]]; [| | | lia].
           ++ replace (k + 0 * N) with k by lia.
              rewrite list_lookup_insert_ne by lia.
              rewrite list_lookup_insert_ne by lia.
              rewrite list_lookup_insert_eq by lia.
              do 3 f_equal; lia.
           ++ rewrite list_lookup_insert_ne by lia.
              replace (k + 1 * N) with (k + N) by lia.
              rewrite list_lookup_insert_eq by (rewrite length_insert; lia).
              do 3 f_equal; lia.
           ++ rewrite list_lookup_insert_eq by (rewrite !length_insert; lia).
              do 3 f_equal; lia.
        -- unfold out'.
           assert (Hne : forall d, d < 3 -> k + d * N <> p + c * N).
           { intros d Hd Heq. apply plane_index_inj in Heq; lia. }
           pose proof (Hne 0 ltac:(lia)). pose proof (Hne 1 ltac:(lia)).
           pose proof (Hne 2 ltac:(lia)).
           rewrite !list_lookup_insert_ne by lia. reflexivity.
    + split; [exact Hout |].
      intros p c Hp Hc. destruct (decide (k <= p)); [lia | reflexivity].
Qed.

(** The loop stops by its own condition: fuel beyond [length data - i] is
    never used. *)
Lemma fill_fuel (T : Z) (data : list Byte.byte) (fuel extra i : nat)
    (out : list number) :
  length data <= i + 4 * fuel ->
  fill T data (fuel + extra) i out = fill T data fuel i out.
Proof.
  revert i out. induction fuel as [| fuel IH]; intros i out Hfuel.
  - destruct extra as [| extra]; [reflexivity |]. cbn [Nat.add fill].
    destruct (Nat.ltb_spec i (length data)); [lia | reflexivity].
  - cbn [Nat.add fill]. destruct (Nat.ltb_spec i (length data)); [| reflexivity].
    apply IH. lia.
Qed.

Example toFloat32Data_one_pixel :
  toFloat32Data 1 [Byte.xff; Byte.x80; Byte.x00; Byte.xff]
  = [Num 1; Num (8421505 # 16777216); Num 0].
Proof. vm_compute. reflexivity. Qed.

(** The converted array: its length and every one of its elements. *)
Lemma toFloat32Data_spec (T : Z) (data : list Byte.byte) (N : nat) :
  (T * T)%Z = Z.of_nat N -> length data = 4 * N ->
  length (toFloat32Data T data) = 3 * N
  /\ forall p c, p < N -> c < 3 ->
       toFloat32Data T data !! (p + c * N)
       = Some (to_float32 (fdiv (sample data (4 * p + c)) (of_int 255))).
Proof.
  intros HT Hdata. unfold toFloat32Data.
  assert (Hrep : length (replicate (Z.to_nat (3 * T * T)) (Num 0)) = 3 * N).
  { rewrite length_replicate. lia. }
  destruct (fill_spec T data N HT Hdata (length data) 0 _ Hrep ltac:(lia) ltac:(lia))
    as [Hlen Hget].
  change (4 * 0) with 0 in Hlen, Hget. split; [exact Hlen |].
  intros p c Hp Hc. rewrite (Hget p c Hp Hc).
  destruct (decide (0 <= p)); [reflexivity | lia].
Qed.

End TensorFacts.

Section ImageDataFacts.
Local Open Scope nat_scope.

Lemma flat_map_length_const {A B : Type} (f : A -> list B) (k : nat) (l : list A) :
  (forall a, length (f a) = k) -> length (flat_map f l) = length l * k.
Proof.
  intros Hf. induction l as [| a l IH]; [reflexivity |].
  cbn [flat_map]. rewrite length_app, Hf, IH. cbn [length]. lia.
Qed.

Lemma flat_map_lookup_const {A B : Type} (f : A -> list B) (k : nat) (l : list A) :
  (forall a, length (f a) = k) ->
  forall i j a, l !! i = Some a -> j < k -> flat_map f l !! (i * k + j) = f a !! j.
Proof.
  intros Hf. induction l as [| b l IH]; intros i j a Hi Hj; [discriminate |].
  cbn [flat_map]. destruct i as [| i].
  - cbn in Hi. injection Hi as ->. cbn [Nat.mul Nat.add].
    apply lookup_app_l. rewrite Hf. exact Hj.
  - cbn in Hi. rewrite lookup_app_r by (rewrite Hf; lia).
    rewrite Hf. replace (S i * k + j - k) with (i * k + j) by lia.
    apply IH; assumption.
Qed.

Lemma Zseq_length (n : Z) : length (Zseq n) = Z.to_nat n.
Proof. unfold Zseq. rewrite length_map, length_seq. reflexivity. Qed.

Lemma Zseq_lookup (n : Z) (i : nat) : i < Z.to_nat n -> Zseq n !! i = Some (Z.of_nat i).
Proof.
  intros Hi. unfold Zseq. rewrite list_lookup_fmap.
  rewrite lookup_seq_lt by exact Hi. reflexivity.
Qed.

Lemma getImageData_length (c : Canvas) (sx sy sw sh : Z) :
  length (getImageData c sx sy sw sh) = 4 * (Z.to_nat sh * Z.to_nat sw).
Proof.
  unfold getImageData.
  rewrite (flat_map_length_const _ (Z.to_nat sw * 4)).
  - rewrite Zseq_length. lia.
  - intros y. rewrite (flat_map_length_const _ 4) by reflexivity.
    rewrite Zseq_length. reflexivity.
Qed.

(** Sample [ch] of the pixel in column [x] of row [y]. *)
Lemma getImageData_lookup (c : Canvas) (sx sy sw sh : Z) (x y ch : nat) :
  x < Z.to_nat sw -> y < Z.to_nat sh -> ch < 4 ->
  getImageData c sx sy sw sh !! (4 * (y * Z.to_nat sw + x) + ch)
  = Some (channel ch (readPixel c (sx + Z.of_nat x) (sy + Z.of_nat y))).
Proof.
  intros Hx Hy Hch. unfold getImageData.
  replace (4 * (y * Z.to_nat sw + x) + ch) with (y * (Z.to_nat sw * 4) + (x * 4 + ch)) by lia.
  rewrite (flat_map_lookup_const _ (Z.to_nat sw * 4) _) with (a := Z.of_nat y).
  - rewrite (flat_map_lookup_const _ 4 _) with (a := Z.of_nat x).
    + destruct ch as [| [| [| [| ch]]]]; [reflexivity .. | lia].
    + reflexivity.
    + apply Zseq_lookup. exact Hx.
    + exact Hch.
  - intros y'. rewrite (flat_map_length_const _ 4) by reflexivity.
    rewrite Zseq_length. reflexivity.
  - apply Zseq_lookup. exact Hy.
  - nia.
Qed.

End ImageDataFacts.

Section ProcessImageFacts.
Context (B : Browser).

(** [processImage] as the browser calls followed by the conversion. *)
Lemma processImage_eq (input : ImageSource) :
  processImage B input =
    (imageBitmap ← imageBitmapOf B input;
     paddedCanvas ← drawPadded B imageBitmap;
     let nw := (resize 320 (width imageBitmap) (height imageBitmap)).1 in
     let nh := (resize 320 (width imageBitmap) (height imageBitmap)).2 in
     Ok {| float32Data := toFloat32Data 320 (getImageData paddedCanvas 0 0 320 320);
           dims := [1; 3; 320; 320];
           resizeFactor := of_int 1;
           padLeft := padOffset 320 nw;
           padTop := padOffset 320 nh |}).
Proof.
  unfold processImage, drawPadded.
  destruct (imageBitmapOf B input) as [b | e]; cbn [mbind result_bind]; [| reflexivity].
  destruct (resize 320 (width b) (height b)) as [nw nh]. cbn [fst snd].
  destruct (resizeStep B b nw nh) as [c1 | e]; reflexivity.
Qed.

(** The two outcomes of [processImage]. *)
Lemma processImage_cases (input : ImageSource) :
  match processImage B input with
  | Ok r =>
      exists b c,
        imageBitmapOf B input = Ok b /\ drawPadded B b = Ok c
        /\ r = {| float32Data := toFloat32Data 320 (getImageData c 0 0 320 320);
                  dims := [1; 3; 320; 320];
                  resizeFactor := of_int 1;
                  padLeft := padOffset 320 (resize 320 (width b) (height b)).1;
                  padTop := padOffset 320 (resize 320 (width b) (height b)).2 |}
  | Throw e => browserThrew B input e
  end.
Proof.
  rewrite processImage_eq. unfold browserThrew.
  destruct (imageBitmapOf B input) as [b | e]; cbn [mbind result_bind]; [| left; reflexivity].
  destruct (drawPadded B b) as [c | e] eqn:Hd; cbn [mbind result_bind].
  - exists b, c. auto.
  - right. exists b. auto.
Qed.

(** Whatever the canvas holds, the converted array has [3 * 320 * 320]
    elements, plane after plane. *)
Lemma tensor_of_canvas (c : Canvas) :
  let t := toFloat32Data 320 (getImageData c 0 0 320 320) in
  Z.of_nat (length t) = 307200
  /\ Forall in_unit t
  /\ forall x y : Z, 0 <= x < 320 -> 0 <= y < 320 ->
       let p := y * 320 + x in
       let px := readPixel c x y in
       t !! Z.to_nat p = Some (normalize (red px))
       /\ t !! Z.to_nat (p + 320 * 320) = Some (normalize (green px))
       /\ t !! Z.to_nat (p + 2 * 320 * 320) = Some (normalize (blue px)).
Proof.
  intros t.
  remember (Z.to_nat 102400) as N eqn:EN.
  assert (HN : Z.of_nat N = 102400) by lia. clear EN.
  set (data := getImageData c 0 0 320 320) in *.
  assert (Hdata : length data = (4 * N)%nat).
  { unfold data. rewrite getImageData_length. lia. }
  destruct (toFloat32Data_spec 320 data N ltac:(lia) Hdata) as [Hlen Hget].
  fold t in Hlen, Hget.
  assert (Hpix : forall (p ch : nat), (p < N)%nat -> (ch < 3)%nat ->
            t !! (p + ch * N)%nat
            = Some (normalize (channel ch
                (readPixel c (Z.of_nat p mod 320) (Z.of_nat p / 320))))).
  { intros p ch Hp Hch. rewrite (Hget p ch Hp Hch). f_equal. apply sample_Some.
    unfold data.
    pose proof (Z.div_mod (Z.of_nat p) 320 ltac:(lia)) as Hdm.
    pose proof (Z.mod_pos_bound (Z.of_nat p) 320 ltac:(lia)) as Hm.
    assert (Hq : 0 <= Z.of_nat p / 320 < 320).
    { split; [apply Z.div_pos; lia | apply Z.div_lt_upper_bound; lia]. }
    replace p with (Z.to_nat (Z.of_nat p / 320) * Z.to_nat 320
                    + Z.to_nat (Z.of_nat p mod 320))%nat at 1 by lia.
    rewrite getImageData_lookup by lia.
    rewrite !Z2Nat.id by lia. reflexivity. }
  split; [rewrite Hlen; lia |]. split.
  - apply Forall_lookup. intros i v Hi.
    assert (Hlt : (i < 3 * N)%nat) by (rewrite <- Hlen; eapply lookup_lt_Some; eassumption).
    pose proof (Nat.div_mod_eq i N) as Hdm.
    pose proof (Nat.mod_upper_bound i N ltac:(lia)) as Hm.
    assert (Hc : (i / N < 3)%nat) by (apply Nat.Div0.div_lt_upper_bound; lia).
    replace i with (i mod N + (i / N) * N)%nat in Hi by lia.
    rewrite (Hpix _ _ Hm Hc) in Hi. injection Hi as <-. apply normalize_in_unit.
  - intros x y Hx Hy p px.
    assert (Hp : (Z.to_nat p < N)%nat) by (unfold p; lia).
    assert (Ex : Z.of_nat (Z.to_nat p) mod 320 = x).
    { rewrite Z2Nat.id by (unfold p; lia). unfold p.
      rewrite Z.add_comm, Z.mod_add by lia. apply Z.mod_small. lia. }
    assert (Ey : Z.of_nat (Z.to_nat p) / 320 = y).
    { rewrite Z2Nat.id by (unfold p; lia). unfold p.
      rewrite Z.add_comm, Z.div_add by lia. rewrite Z.div_small by lia. lia. }
    pose proof (Hpix (Z.to_nat p) 0%nat Hp ltac:(lia)) as H0.
    pose proof (Hpix (Z.to_nat p) 1%nat Hp ltac:(lia)) as H1.
    pose proof (Hpix (Z.to_nat p) 2%nat Hp ltac:(lia)) as H2.
    rewrite Ex, Ey in H0, H1, H2. cbn [channel] in H0, H1, H2. fold px in H0, H1, H2.
    replace (Z.to_nat p + 0 * N)%nat with (Z.to_nat p) in H0 by lia.
    replace (Z.to_nat p + 1 * N)%nat with (Z.to_nat (p + 320 * 320)) in H1 by (unfold p; lia).
    replace (Z.to_nat p + 2 * N)%nat with (Z.to_nat (p + 2 * 320 * 320)) in H2 by (unfold p; lia).
    auto.
Qed.

End ProcessImageFacts.

Section ProcessImageTheorems.



(** The two [drawImage] calls of [processImage] as the browser sees
    them. *)
Lemma drawPadded_cases (B : Browser) (b : ImageBitmap) :
  match drawPadded B b with
  | Ok paddedCanvas =>
      exists resizeCanvas,
        resizeDraw B b = Ok resizeCanvas
        /\ padDraw B b resizeCanvas = Ok paddedCanvas
  | Throw e => drawThrew B b e
  end.
Proof.
  unfold drawPadded, drawThrew, resizeStep, padStep.
  change (drawImage B (setSize createCanvas (resize 320 (width b) (height b)).1
                         (resize 320 (width b) (height b)).2)
            (FromBitmap b) (of_int 0) (of_int 0)
            (resize 320 (width b) (height b)).1 (resize 320 (width b) (height b)).2)
    with (resizeDraw B b).
  destruct (resizeDraw B b) as [resizeCanvas | e]; cbn [mbind result_bind].
  - change (drawImage B _ (FromCanvas resizeCanvas) _ _ _ _)
      with (padDraw B b resizeCanvas).
    destruct (padDraw B b resizeCanvas) as [paddedCanvas | e] eqn:Hp.
    + exists resizeCanvas. split; [reflexivity | exact Hp].
    + right. exists resizeCanvas. split; [reflexivity | exact Hp].
  - left. reflexivity.
Qed.



(** C4 (as amended).  Whenever [processImage] resolves, [resizeFactor] is
    the constant 1, whatever the size of the image. *)
Theorem processImage_resizeFactor (B : Browser) (input : ImageSource) :
  match processImage B input with
  | Ok r => resizeFactor r = Num 1
  | Throw e => browserThrew B input e
  end.
Proof.
  pose proof (processImage_cases B input) as H.
  destruct (processImage B input) as [r | e]; [| exact H].
  destruct H as (b & c & _ & _ & ->). reflexivity.
Qed.

(** With the lenient browser [processImage] always resolves. *)
Lemma processImage_lenient (b : ImageBitmap) :
  exists r, processImage lenientBrowser (Bitmap b) = Ok r
    /\ resizeFactor r = Num 1
    /\ padLeft r = padOffset 320 (resize 320 (width b) (height b)).1
    /\ padTop r = padOffset 320 (resize 320 (width b) (height b)).2
    /\ Z.of_nat (length (float32Data r)) = 307200%Z.
Proof.
  rewrite processImage_eq. unfold drawPadded.
  cbn [imageBitmapOf mbind result_bind resizeStep padStep drawImage lenientBrowser nearestDraw].
  eexists. split; [reflexivity |]. cbn [resizeFactor padLeft padTop float32Data].
  split; [reflexivity |]. split; [reflexivity |]. split; [reflexivity |].
  apply tensor_of_canvas.
Qed.

(** C4, counterexample.  A 640 x 480 image is scaled by
    [min (320/640) (320/480) = 1/2], yet [resizeFactor] is 1. *)
Lemma resizeFactor_640_480 :
  exists r, processImage lenientBrowser (Bitmap (solidBitmap 640 480 black)) = Ok r
    /\ resizeFactor r = Num 1
    /\ (Qmin (320 / 640) (320 / 480) == 1 # 2)%Q.
Proof.
  destruct (processImage_lenient (solidBitmap 640 480 black)) as (r & Hr & Hf & _).
  exists r. split; [exact Hr |]. split; [exact Hf |]. vm_compute. reflexivity.
Qed.

Lemma checkingBrowser_conforming : conforming checkingBrowser.
Proof.
  split; [| split].
  - intros img Hz. exists (emptySourceImage img). cbn [createImageBitmap checkingBrowser].
    replace ((naturalWidth img =? 0) || (naturalHeight img =? 0)) with true;
      [reflexivity |].
    symmetry. apply orb_true_iff. rewrite !Z.eqb_eq. exact Hz.
  - intros c source dx dy dw dh Hz. exists emptySourceCanvas.
    cbn [drawImage checkingBrowser].
    replace ((canvas_width source =? 0) || (canvas_height source =? 0)) with true;
      [split; reflexivity |].
    symmetry. apply orb_true_iff. rewrite !Z.eqb_eq. exact Hz.
  - intros c source dx dy dw dh c'. cbn [drawImage checkingBrowser].
    destruct source as [b | s];
      [| destruct ((canvas_width s =? 0) || (canvas_height s =? 0)); [discriminate |]];
      unfold nearestDraw; intros [= <-]; split; reflexivity.
Qed.

(** When the resize canvas has a side of 0, a conforming browser makes
    [processImage] reject: the second [drawImage] throws unless the first
    one did. *)
Lemma empty_resize_canvas (B : Browser) (b : ImageBitmap) :
  conforming B ->
  to_uint32 (resize 320 (width b) (height b)).1 = 0%Z
  \/ to_uint32 (resize 320 (width b) (height b)).2 = 0%Z ->
  exists e, processImage B (Bitmap b) = Throw e /\ drawThrew B b e.
Proof.
  intros (_ & Hcanvas & Hsize) Hz.
  rewrite processImage_eq. cbn [imageBitmapOf mbind result_bind].
  pose proof (drawPadded_cases B b) as Hd.
  destruct (drawPadded B b) as [c | e].
  - exfalso. destruct Hd as (rc & H1 & H2).
    unfold resizeDraw in H1. unfold padDraw in H2.
    apply Hsize in H1 as [Hcw Hch].
    cbn [canvas_width canvas_height setSize] in Hcw, Hch.
    rewrite <- Hcw, <- Hch in Hz.
    destruct (Hcanvas (fillRect (setSize createCanvas (of_int 320) (of_int 320))
                         black 0 0 320 320) rc
                (padOffset 320 (resize 320 (width b) (height b)).1)
                (padOffset 320 (resize 320 (width b) (height b)).2)
                (resize 320 (width b) (height b)).1
                (resize 320 (width b) (height b)).2 Hz) as (e & He & _).
    rewrite He in H2. discriminate.
  - exists e. split; [reflexivity | exact Hd].
Qed.



(** The same for bitmaps, if there were any without pixels: a bitmap of
    width 0 and height 5 gets a resize canvas of 0 x 320, and the second
    [drawImage] throws. *)
Example processImage_zero_width_rejected :
  processImage checkingBrowser (Bitmap (solidBitmap 0 5 black)) = Throw emptySourceCanvas.
Proof. vm_compute. reflexivity. Qed.

(** Lines 63-68: the padding centres the resized image, the odd pixel
    going to the right and to the bottom. *)
Lemma padding_centres (k : Z) :
  (0 <= k <= 320)%Z ->
  padOffset 320 (of_int k) = of_int ((320 - k) / 2)
  /\ Math_ceil (fdiv (fsub (of_int 320) (of_int k)) (of_int 2))
     = of_int (320 - k - (320 - k) / 2).
Proof.
  intros Hk.
  assert (All : forallb (fun k =>
            number_eqb (padOffset 320 (of_int k)) (of_int ((320 - k) / 2))
            && number_eqb (Math_ceil (fdiv (fsub (of_int 320) (of_int k)) (of_int 2)))
                 (of_int (320 - k - (320 - k) / 2))) side_candidates = true)
    by (vm_compute; reflexivity).
  rewrite forallb_forall in All.
  assert (Hin : In k side_candidates).
  { unfold side_candidates. apply in_map_iff. exists (Z.to_nat k).
    split; [lia | apply in_seq; lia]. }
  specialize (All k Hin). apply andb_prop in All as [H1 H2].
  split; apply number_eqb_eq; assumption.
Qed.

(** What [processImage] hands to the popup has the shape it declares, and
    its padding offsets are those of the resized dimensions. *)
Lemma processImage_shape (B : Browser) (b : ImageBitmap) :
  (1 <= width b < 2 ^ 32)%Z -> (1 <= height b < 2 ^ 32)%Z ->
  match processImage B (Bitmap b) with
  | Ok r =>
      Z.of_nat (length (float32Data r)) = product (dims r)
      /\ exists nw nh : Z,
           resize 320 (width b) (height b) = (of_int nw, of_int nh)
           /\ padLeft r = of_int ((320 - nw) / 2)
           /\ padTop r = of_int ((320 - nh) / 2)
  | Throw e => drawPadded B b = Throw e
  end.
Proof.
  intros Hw Hh.
  destruct (resize_within_bounds (width b) (height b) Hw Hh)
    as (nw & nh & Hres & Hnw & Hnh).
  rewrite processImage_eq. cbn [imageBitmapOf mbind result_bind].
  destruct (drawPadded B b) as [c | e]; cbn [mbind result_bind]; [| reflexivity].
  cbn [float32Data dims padLeft padTop]. rewrite Hres. cbn [fst snd].
  split.
  - destruct (tensor_of_canvas c) as (Hlen & _). rewrite Hlen. reflexivity.
  - exists nw, nh. split; [reflexivity |].
    split; apply padding_centres; assumption.
Qed.

End ProcessImageTheorems.

(* ===================================================================== *)
(** ** The service worker *)
(* ===================================================================== *)
Section WorkerFacts.
Context (E : Engine).

Lemma exec_app (w : Worker) (evs1 evs2 : list Event) :
  exec E w (evs1 ++ evs2) = exec E w evs1 ≫= fun w' => exec E w' evs2.
Proof.
  revert w. induction evs1 as [| ev evs1 IH]; intros w; [reflexivity |].
  cbn [exec app]. destruct (step E w ev) as [w' |]; [apply IH | reflexivity].
Qed.

Lemma exec_snoc (w w' : Worker) (evs : list Event) (ev : Event) :
  exec E w (evs ++ [ev]) = Some w' <->
  exists w1, exec E w evs = Some w1 /\ step E w1 ev = Some w'.
Proof.
  rewrite exec_app. split.
  - destruct (exec E w evs) as [w1 |] eqn:H1; cbn; [| discriminate].
    intros H. exists w1. split; [reflexivity |].
    destruct (step E w1 ev); [exact H | discriminate].
  - intros (w1 & H1 & H2). rewrite H1. cbn. rewrite H2. reflexivity.
Qed.

(** A step changes [ortSession] only when a pending create resolves. *)
Lemma step_ortSession (w w' : Worker) (ev : Event) :
  step E w ev = Some w' ->
  match ev with
  | CreateResolved k s => ortSession w' = Some s /\ is_Some (pendingInit w !! k)
  | _ => ortSession w' = ortSession w
  end.
Proof.
  destruct ev as [| | k s | k err | request | k outputs | k err]; cbn [step].
  - intros [= <-]. reflexivity.
  - intros [= <-]. reflexivity.
  - destruct (pendingInit w !! k) eqn:Hk; [| discriminate].
    intros [= <-]. split; [reflexivity | eauto].
  - destruct (pendingInit w !! k) eqn:Hk; [| discriminate].
    intros [= <-]. reflexivity.
  - destruct (String.eqb _ _); intros [= <-]; [| reflexivity].
    unfold handleProcessImage. destruct (ortSession w) eqn:Hs; cbn.
    + destruct (newTensor E _ _); cbn; congruence.
    + congruence.
  - destruct (decide _); [| discriminate]. intros [= <-].
    unfold handleProcessImage_resolved. destruct (tensorDispose E); reflexivity.
  - destruct (decide _); [| discriminate]. intros [= <-]. reflexivity.
Qed.

(** Engine calls of a step: one create per [initializeModel] activation. *)
Lemma step_creates (w w' : Worker) (ev : Event) :
  step E w ev = Some w' ->
  length (List.filter isCreate (calls w'))
  = (length (List.filter isCreate (calls w)) + if isInit ev then 1 else 0)%nat.
Proof.
  destruct ev as [| | k s | k err | request | k outputs | k err]; cbn [step isInit].
  - intros [= <-]. cbn [calls initializeModel]. rewrite List.filter_app, length_app. reflexivity.
  - intros [= <-]. cbn [calls initializeModel]. rewrite List.filter_app, length_app. reflexivity.
  - destruct (pendingInit w !! k); [| discriminate]. intros [= <-]. cbn. lia.
  - destruct (pendingInit w !! k); [| discriminate]. intros [= <-]. cbn. lia.
  - destruct (String.eqb _ _); intros [= <-]; [| lia].
    unfold handleProcessImage. destruct (ortSession w); cbn; [| lia].
    destruct (newTensor E _ _); cbn; [lia |].
    rewrite List.filter_app, length_app. cbn. lia.
  - destruct (decide _); [| discriminate]. intros [= <-].
    unfold handleProcessImage_resolved. destruct (tensorDispose E); cbn; [lia |].
    rewrite List.filter_app, length_app. cbn. lia.
  - destruct (decide _); [| discriminate]. intros [= <-]. cbn. lia.
Qed.

Lemma step_settled (w w' : Worker) (ev : Event) :
  step E w ev = Some w' ->
  settled w' = settled w ++ match outcome ev with Some o => [o] | None => [] end.
Proof.
  destruct ev as [| | k s | k err | request | k outputs | k err]; cbn [step outcome].
  - intros [= <-]. cbn. rewrite app_nil_r. reflexivity.
  - intros [= <-]. cbn. rewrite app_nil_r. reflexivity.
  - destruct (pendingInit w !! k); [| discriminate]. intros [= <-]. reflexivity.
  - destruct (pendingInit w !! k); [| discriminate]. intros [= <-]. reflexivity.
  - destruct (String.eqb _ _); intros [= <-]; rewrite app_nil_r; [| reflexivity].
    unfold handleProcessImage. destruct (ortSession w); cbn; [| reflexivity].
    destruct (newTensor E _ _); reflexivity.
  - destruct (decide _); [| discriminate]. intros [= <-].
    unfold handleProcessImage_resolved. destruct (tensorDispose E);
      cbn; rewrite app_nil_r; reflexivity.
  - destruct (decide _); [| discriminate]. intros [= <-]. cbn. rewrite app_nil_r. reflexivity.
Qed.

(** As long as no create has resolved, [ortSession] is [null]. *)
Lemma exec_no_session (evs : list Event) (w0 w : Worker) :
  exec E w0 evs = Some w -> ortSession w0 = None ->
  existsb isCreateResolved evs = false -> ortSession w = None.
Proof.
  revert w0. induction evs as [| ev evs IH]; intros w0 Hex H0 Hno.
  - cbn in Hex. congruence.
  - cbn [exec] in Hex. destruct (step E w0 ev) as [w1 |] eqn:Hst; [| discriminate].
    cbn [existsb] in Hno. apply orb_false_elim in Hno as [Hev Hrest].
    apply (IH w1 Hex); [| exact Hrest].
    pose proof (step_ortSession _ _ _ Hst) as Hs.
    destruct ev; try discriminate Hev; congruence.
Qed.

End WorkerFacts.

Section WorkerTheorems.

(** The create calls issued so far are numbered [0 .. nextInit - 1], and
    only they can be pending. *)
Lemma step_inits (E : Engine) (w w' : Worker) (ev : Event) :
  step E w ev = Some w' ->
  (forall k, is_Some (pendingInit w !! k) -> (k < nextInit w)%nat) ->
  (nextInit w <= nextInit w')%nat
  /\ forall k, is_Some (pendingInit w' !! k) -> (k < nextInit w')%nat.
Proof.
  intros Hst Hinv.
  destruct ev as [| | k s | k err | request | k outputs | k err]; cbn [step] in Hst.
  - injection Hst as <-. cbn [nextInit pendingInit initializeModel]. split; [lia |].
    intros k Hk. destruct (decide (k = nextInit w)) as [-> | Hne]; [lia |].
    rewrite lookup_insert_ne in Hk by congruence. specialize (Hinv k Hk). lia.
  - injection Hst as <-. cbn [nextInit pendingInit initializeModel]. split; [lia |].
    intros k Hk. destruct (decide (k = nextInit w)) as [-> | Hne]; [lia |].
    rewrite lookup_insert_ne in Hk by congruence. specialize (Hinv k Hk). lia.
  - destruct (pendingInit w !! k) eqn:Hk; [| discriminate]. injection Hst as <-.
    cbn [nextInit pendingInit initializeModel_resolved]. split; [lia |].
    intros j Hj. apply Hinv. destruct (decide (k = j)) as [-> | Hne].
    + rewrite lookup_delete_eq in Hj. destruct Hj; discriminate.
    + rewrite lookup_delete_ne in Hj by exact Hne. exact Hj.
  - destruct (pendingInit w !! k) eqn:Hk; [| discriminate]. injection Hst as <-.
    cbn [nextInit pendingInit initializeModel_rejected]. split; [lia |].
    intros j Hj. apply Hinv. destruct (decide (k = j)) as [-> | Hne].
    + rewrite lookup_delete_eq in Hj. destruct Hj; discriminate.
    + rewrite lookup_delete_ne in Hj by exact Hne. exact Hj.
  - destruct (String.eqb _ _); injection Hst as <-; [| split; [lia | exact Hinv]].
    unfold handleProcessImage. destruct (ortSession w); [destruct (newTensor E _ _) |];
      cbn; (split; [lia | exact Hinv]).
  - destruct (decide _); [| discriminate]. injection Hst as <-.
    unfold handleProcessImage_resolved. destruct (tensorDispose E);
      cbn; (split; [lia | exact Hinv]).
  - destruct (decide _); [| discriminate]. injection Hst as <-. cbn. split; [lia | exact Hinv].
Qed.

Lemma exec_session (E : Engine) (evs : list Event) (w0 w : Worker) :
  exec E w0 evs = Some w ->
  (forall k, is_Some (pendingInit w0 !! k) -> (k < nextInit w0)%nat) ->
  (nextInit w0 <= nextInit w)%nat
  /\ (forall k, is_Some (pendingInit w !! k) -> (k < nextInit w)%nat)
  /\ (ortSession w = ortSession w0
      \/ exists k s, ortSession w = Some s /\ In (CreateResolved k s) evs
                     /\ (k < nextInit w)%nat).
Proof.
  revert w0. induction evs as [| ev evs IH]; intros w0 Hex Hinv.
  - cbn in Hex. injection Hex as <-. split; [lia |]. split; [exact Hinv | left; reflexivity].
  - cbn [exec] in Hex. destruct (step E w0 ev) as [w1 |] eqn:Hst; [| discriminate].
    destruct (step_inits E _ _ _ Hst Hinv) as [Hmono Hinv1].
    destruct (IH w1 Hex Hinv1) as (Hmono' & Hinv' & Hs).
    split; [lia |]. split; [exact Hinv' |].
    destruct Hs as [Hs | (k & s & Hs & Hin & Hk)].
    + pose proof (step_ortSession E _ _ _ Hst) as H1.
      destruct ev as [| | k s | k err | request | k outputs | k err];
        try (left; congruence).
      destruct H1 as [H1 Hpend]. right. exists k, s.
      split; [congruence |]. split; [left; reflexivity |].
      specialize (Hinv k Hpend). lia.
    + right. exists k, s. split; [exact Hs |]. split; [right; exact Hin | exact Hk].
Qed.

Lemma exec_creates (E : Engine) (evs : list Event) (w0 w : Worker) :
  exec E w0 evs = Some w ->
  length (List.filter isCreate (calls w))
  = (length (List.filter isCreate (calls w0)) + length (List.filter isInit evs))%nat
  /\ settled w = settled w0 ++ omap outcome evs.
Proof.
  revert w0. induction evs as [| ev evs IH]; intros w0 Hex.
  - cbn in Hex. injection Hex as <-. cbn. rewrite app_nil_r. split; [lia | reflexivity].
  - cbn [exec] in Hex. destruct (step E w0 ev) as [w1 |] eqn:Hst; [| discriminate].
    destruct (IH w1 Hex) as [Hc Hs].
    rewrite Hc, Hs, (step_creates E _ _ _ Hst), (step_settled E _ _ _ Hst).
    cbn [List.filter omap list_omap]. split.
    + destruct (isInit ev); cbn [length]; lia.
    + destruct (outcome ev); cbn; rewrite <- ?app_assoc; reflexivity.
Qed.

Lemma step_nextInit (E : Engine) (w w' : Worker) (ev : Event) :
  step E w ev = Some w' ->
  nextInit w' = (nextInit w + if isInit ev then 1 else 0)%nat.
Proof.
  destruct ev as [| | k s | k err | request | k outputs | k err]; cbn [step isInit].
  - intros [= <-]. cbn. lia.
  - intros [= <-]. cbn. lia.
  - destruct (pendingInit w !! k); [| discriminate]. intros [= <-]. cbn. lia.
  - destruct (pendingInit w !! k); [| discriminate]. intros [= <-]. cbn. lia.
  - destruct (String.eqb _ _); intros [= <-]; [| lia].
    unfold handleProcessImage. destruct (ortSession w); [destruct (newTensor E _ _) |];
      cbn; lia.
  - destruct (decide _); [| discriminate]. intros [= <-].
    unfold handleProcessImage_resolved. destruct (tensorDispose E); cbn; lia.
  - destruct (decide _); [| discriminate]. intros [= <-]. cbn. lia.
Qed.

Lemma exec_nextInit (E : Engine) (evs : list Event) (w0 w : Worker) :
  exec E w0 evs = Some w ->
  nextInit w = (nextInit w0 + length (List.filter isInit evs))%nat.
Proof.
  revert w0. induction evs as [| ev evs IH]; intros w0 Hex.
  - cbn in Hex. injection Hex as <-. cbn. lia.
  - cbn [exec] in Hex. destruct (step E w0 ev) as [w1 |] eqn:Hst; [| discriminate].
    rewrite (IH w1 Hex), (step_nextInit E _ _ _ Hst). cbn [List.filter].
    destruct (isInit ev); cbn [length]; lia.
Qed.

Lemma exec_last_session (E : Engine) (evs : list Event) (w0 w : Worker) :
  exec E w0 evs = Some w ->
  ortSession w
  = match last (omap resolvedSession evs) with
    | Some s => Some s
    | None => ortSession w0
    end.
Proof.
  revert w0. induction evs as [| ev evs IH]; intros w0 Hex.
  - cbn in Hex. injection Hex as <-. reflexivity.
  - cbn [exec] in Hex. destruct (step E w0 ev) as [w1 |] eqn:Hst; [| discriminate].
    rewrite (IH w1 Hex). pose proof (step_ortSession E _ _ _ Hst) as H1.
    cbn [omap list_omap].
    destruct ev as [| | k s | k err | request | k outputs | k err];
      cbn [resolvedSession]; try (rewrite H1; reflexivity).
    destruct H1 as [H1 _]. rewrite last_cons.
    destruct (last (omap resolvedSession evs)); [reflexivity | exact H1].
Qed.

(** C3.  While no [InferenceSession.create] has resolved, a
    [PROCESS_IMAGE] request is answered with the error
    "Model not initialized. Try again later." and no engine call is made. *)
Theorem handleProcessImage_not_ready (E : Engine) (evs : list Event)
    (w : Worker) (request : Request) :
  exec E initial evs = Some w ->
  existsb isCreateResolved evs = false ->
  type request = "PROCESS_IMAGE"%string ->
  exists w',
    step E w (Message request) = Some w'
    /\ responses w'
       = responses w
         ++ [(nextRequest w, ErrorResponse "Model not initialized. Try again later.")]
    /\ calls w' = calls w
    /\ pendingRun w' = pendingRun w.
Proof.
  intros Hex Hno Hty.
  pose proof (exec_no_session E evs initial w Hex eq_refl Hno) as Hs.
  cbn [step]. rewrite Hty. cbn [String.eqb Ascii.eqb Bool.eqb].
  unfold handleProcessImage. rewrite Hs.
  eexists. split; [reflexivity |]. cbn. auto.
Qed.

Lemma handleProcessImage_not_ready_witness :
  exists w',
    step ortEngine notReadyWorker (Message smallRequest) = Some w'
    /\ responses w'
       = responses notReadyWorker
         ++ [(nextRequest notReadyWorker,
              ErrorResponse "Model not initialized. Try again later.")]
    /\ calls w' = calls notReadyWorker
    /\ pendingRun w' = pendingRun notReadyWorker.
Proof.
  apply (handleProcessImage_not_ready ortEngine
           [Installed; CreateRejected 0 loadError; Startup]);
    reflexivity.
Defined.

(** C5 (as amended).  A request whose data length differs from the product
    of its dimensions is always answered with an error before anything is
    run, and no tensor is constructed for it.  [handleProcessImage] has no
    shape check of its own and tests the session first: without a session
    the answer is the "Model not initialized" error; with a session it is
    the message of what the [ort.Tensor] constructor throws, which is the
    error of [calculateSize] about the first dimension that is not a safe
    non-negative integer, and the size error otherwise. *)
Theorem handleProcessImage_shape (w : Worker) (request : Request) :
  type request = "PROCESS_IMAGE"%string ->
  (Z.of_nat (length (tensorData request)) < 2 ^ 53)%Z ->
  Z.of_nat (length (tensorData request)) <> product (dimensions request) ->
  exists (w' : Worker) (text : string),
    step ortEngine w (Message request) = Some w'
    /\ responses w' = responses w ++ [(nextRequest w, ErrorResponse text)]
    /\ calls w' = calls w
    /\ pendingRun w' = pendingRun w
    /\ match ortSession w with
       | None => text = notInitialized
       | Some _ =>
           match calculateSize 0 (of_int 1) (dimensions request) with
           | Throw e => text = exn_message e
           | Ok size =>
               text = ("Tensor's size(" +:+ numberToString size
                       +:+ ") does not match data length("
                       +:+ pretty (length (tensorData request)) +:+ ").")%string
           end
       end.
Proof.
  intros Hty Hlen Hne. cbn [step]. rewrite Hty. cbn [String.eqb Ascii.eqb Bool.eqb].
  unfold handleProcessImage.
  destruct (ortSession w) as [session |].
  - cbn [newTensor ortEngine].
    destruct (tensorError_mismatch _ _ Hlen Hne) as (e & -> & He).
    eexists. exists (exn_message e). split; [reflexivity |].
    cbn [responses calls pendingRun nextId respond].
    split; [reflexivity |]. split; [reflexivity |]. split; [reflexivity |].
    destruct (calculateSize 0 (of_int 1) (dimensions request)); rewrite He; reflexivity.
  - eexists. exists notInitialized. split; [reflexivity |].
    cbn [responses calls pendingRun nextId respond]. auto.
Qed.

Lemma handleProcessImage_shape_witness :
  exists (w' : Worker) (text : string),
    step ortEngine readyWorker (Message mismatchedRequest) = Some w'
    /\ responses w'
       = responses readyWorker ++ [(nextRequest readyWorker, ErrorResponse text)]
    /\ calls w' = calls readyWorker
    /\ pendingRun w' = pendingRun readyWorker
    /\ match ortSession readyWorker with
       | None => text = notInitialized
       | Some _ =>
           match calculateSize 0 (of_int 1) (dimensions mismatchedRequest) with
           | Throw e => text = exn_message e
           | Ok size =>
               text = ("Tensor's size(" +:+ numberToString size
                       +:+ ") does not match data length("
                       +:+ pretty (length (tensorData mismatchedRequest)) +:+ ").")%string
           end
       end.
Proof.
  apply (handleProcessImage_shape readyWorker mismatchedRequest).
  - reflexivity.
  - cbn. lia.
  - vm_compute. discriminate.
Defined.

(** The answers of the constructor on examples: a size that differs from
    the data length, a negative dimension although the product fits, and a
    dimension that is no safe integer. *)
Example tensor_errors :
  responses <$> step ortEngine readyWorker (Message mismatchedRequest)
  = Some [(0%nat, ErrorResponse "Tensor's size(307200) does not match data length(1).")]
  /\ tensorError [Num 0; Num 0] [-1; -2]
     = Some (mkExn "RangeError" "dims[0] must be a non-negative integer, got: -1")
  /\ tensorError [] [1; 2 ^ 53]
     = Some (mkExn "TypeError" "dims[1] must be an integer, got: 9007199254740992")
  /\ tensorError [] [2 ^ 40; 2 ^ 40]
     = Some (mkExn "Error"
               "Tensor's size(1.2089258196146292e+24) does not match data length(0).")
  /\ tensorError [Num 0; Num 1] [1; 1; 1; 2] = None.
Proof. repeat split; vm_compute; reflexivity. Qed.

(** [Number::toString] on integers beyond [2 ^ 53]. *)
Example numberToString_examples :
  map naturalToString [2 ^ 53; 2 ^ 63; 2 ^ 64; 10 ^ 21; 2 ^ 70; 2 ^ 1024 - 2 ^ 971]
  = ["9007199254740992"; "9223372036854776000"; "18446744073709552000"; "1e+21";
     "1.1805916207174113e+21"; "1.7976931348623157e+308"]%string.
Proof. vm_compute. reflexivity. Qed.

(** C5, counterexample.  Before the model is loaded, a request whose data
    length (1) differs from the product of its dimensions (307200) is
    answered with the "Model not initialized" error, not a shape error. *)
Lemma mismatched_request_not_initialized :
  (Z.of_nat (length (tensorData mismatchedRequest))
     =? product (dimensions mismatchedRequest)) = false
  /\ responses <$> step ortEngine initial (Message mismatchedRequest)
     = Some [(0%nat, ErrorResponse "Model not initialized. Try again later.")].
Proof. split; reflexivity. Qed.

(** C6 (as amended).  Every [initializeModel] activation issues its own
    [InferenceSession.create]: the number of create calls equals the number
    of install and startup events, each activation settles with the outcome
    of its own create, and [ortSession] is the session of the create that
    resolved last. *)
Theorem initializeModel_one_create_per_call (E : Engine) (evs : list Event)
    (w : Worker) :
  exec E initial evs = Some w ->
  length (List.filter isCreate (calls w)) = length (List.filter isInit evs)
  /\ settled w = omap outcome evs
  /\ ortSession w = last (omap resolvedSession evs).
Proof.
  intros Hex. destruct (exec_creates E evs initial w Hex) as [Hc Hs].
  cbn [calls settled initial List.filter length app Nat.add] in Hc, Hs.
  split; [exact Hc |]. split; [exact Hs |].
  rewrite (exec_last_session E evs initial w Hex). cbn [ortSession initial].
  destruct (last (omap resolvedSession evs)); reflexivity.
Qed.

Lemma initializeModel_one_create_per_call_witness :
  length (List.filter isCreate (calls reloadedWorker))
  = length (List.filter isInit
      [Installed; CreateResolved 0 sampleSession; Startup; CreateRejected 1 loadError])
  /\ settled reloadedWorker
     = omap outcome
         [Installed; CreateResolved 0 sampleSession; Startup; CreateRejected 1 loadError]
  /\ ortSession reloadedWorker
     = last (omap resolvedSession
         [Installed; CreateResolved 0 sampleSession; Startup; CreateRejected 1 loadError]).
Proof.
  apply (initializeModel_one_create_per_call ortEngine
           [Installed; CreateResolved 0 sampleSession; Startup; CreateRejected 1 loadError]).
  reflexivity.
Defined.

(** C6, counterexample.  The install and the startup event together cause
    two create calls, and the two activations may settle differently. *)
Lemma two_triggers_two_creates :
  (fun w => length (List.filter isCreate (calls w)))
    <$> exec ortEngine initial [Installed; Startup] = Some 2%nat
  /\ settled
       <$> exec ortEngine initial
             [Installed; Startup; CreateResolved 0 sampleSession;
              CreateRejected 1 loadError]
     = Some [(0%nat, Fulfilled); (1%nat, Rejected loadError)].
Proof. split; reflexivity. Qed.

(** A resolved run with the pinned engine and with an engine whose tensors
    can be disposed. *)
Example run_resolved_summary :
  responses <$> exec ortEngine readyWorker [Message smallRequest; RunResolved 0 sampleOutputs]
  = Some [(0%nat, ErrorResponse "inputTensor.dispose is not a function")]
  /\ responses
       <$> exec disposingEngine readyWorker
             [Message smallRequest; RunResolved 0 sampleOutputs]
     = Some [(0%nat, Result 3 [1; 3] "You can do real postprocessing here.")].
Proof. split; vm_compute; reflexivity. Qed.

Lemma no_resolved_session (evs : list Event) :
  existsb isCreateResolved evs = false -> omap resolvedSession evs = [].
Proof.
  induction evs as [| ev evs IH]; [reflexivity |].
  cbn [existsb]. intros H. apply orb_false_elim in H as [Hev Hrest].
  cbn [omap list_omap]. rewrite (IH Hrest).
  destruct ev; try reflexivity. discriminate Hev.
Qed.

(** C10.  In every reachable state [ortSession] is the session with which
    the latest resolved create resolved, [null] if none has: it is [null] or
    the session of one of the issued create calls.  Only the resolution of
    a create changes it: neither the start of an [initializeModel]
    activation nor the rejection of its create does, so that a failed
    initialization as a whole leaves [ortSession] as it was. *)
Theorem ortSession_from_resolved_create (E : Engine) (evs : list Event)
    (w : Worker) :
  exec E initial evs = Some w ->
  ortSession w = last (omap resolvedSession evs)
  /\ (ortSession w = None
      \/ exists k s, ortSession w = Some s /\ In (CreateResolved k s) evs
                     /\ (k < length (List.filter isCreate (calls w)))%nat)
  /\ (forall ev w',
        step E w ev = Some w' ->
        match ev with
        | CreateResolved k s => ortSession w' = Some s
        | _ => ortSession w' = ortSession w
        end)
  /\ (forall start between k err w',
        isInit start = true ->
        existsb isCreateResolved between = false ->
        exec E w (start :: between ++ [CreateRejected k err]) = Some w' ->
        ortSession w' = ortSession w).
Proof.
  intros Hex. split; [| split; [| split]].
  - rewrite (exec_last_session E evs initial w Hex). cbn [ortSession initial].
    destruct (last (omap resolvedSession evs)); reflexivity.
  - destruct (exec_session E evs initial w Hex) as (_ & _ & Hs).
    { intros k Hk. cbn in Hk. rewrite lookup_empty in Hk. destruct Hk; discriminate. }
    destruct Hs as [Hs | (k & s & Hs & Hin & Hk)]; [left; exact Hs |].
    right. exists k, s. split; [exact Hs |]. split; [exact Hin |].
    destruct (exec_creates E evs initial w Hex) as [Hc _].
    rewrite (exec_nextInit E evs initial w Hex) in Hk.
    cbn [calls nextInit initial List.filter length] in Hc, Hk. lia.
  - intros ev w' Hst. pose proof (step_ortSession E _ _ _ Hst) as Hs.
    destruct ev; try exact Hs. destruct Hs as [Hs _]. exact Hs.
  - intros start between k err w' Hstart Hnone Hrun.
    rewrite (exec_last_session E _ w w' Hrun).
    replace (omap resolvedSession (start :: between ++ [CreateRejected k err]))
      with (@nil Session); [reflexivity |].
    cbn [omap list_omap]. rewrite omap_app, (no_resolved_session between Hnone).
    destruct start; try discriminate Hstart; reflexivity.
Qed.

Lemma ortSession_from_resolved_create_witness :
  ortSession readyWorker = last (omap resolvedSession [Installed; CreateResolved 0 sampleSession])
  /\ (ortSession readyWorker = None
      \/ exists k s, ortSession readyWorker = Some s
           /\ In (CreateResolved k s) [Installed; CreateResolved 0 sampleSession]
           /\ (k < length (List.filter isCreate (calls readyWorker)))%nat)
  /\ (forall ev w',
        step ortEngine readyWorker ev = Some w' ->
        match ev with
        | CreateResolved k s => ortSession w' = Some s
        | _ => ortSession w' = ortSession readyWorker
        end)
  /\ (forall start between k err w',
        isInit start = true ->
        existsb isCreateResolved between = false ->
        exec ortEngine readyWorker (start :: between ++ [CreateRejected k err]) = Some w' ->
        ortSession w' = ortSession readyWorker).
Proof.
  apply (ortSession_from_resolved_create ortEngine
           [Installed; CreateResolved 0 sampleSession]).
  reflexivity.
Defined.

(** A model that was loaded stays loaded when a later initialization
    fails. *)
Example failed_reload_keeps_session :
  ortSession
    <$> exec ortEngine initial
          [Installed; CreateResolved 0 sampleSession; Startup; CreateRejected 1 loadError]
  = Some (Some sampleSession).
Proof. reflexivity. Qed.

End WorkerTheorems.

(* ===================================================================== *)
(** ** The service worker: requests, tensors and reloads *)
(* ===================================================================== *)

Section WorkerHistory.
Context (E : Engine).

(** Induction over the histories of the worker. *)
Lemma exec_invariant (Inv : list Event -> Worker -> Prop) :
  Inv [] initial ->
  (forall evs w ev w',
     exec E initial evs = Some w -> Inv evs w -> step E w ev = Some w' ->
     Inv (evs ++ [ev]) w') ->
  forall evs w, exec E initial evs = Some w -> Inv evs w.
Proof.
  intros H0 Hstep evs. induction evs as [| ev evs IH] using rev_ind; intros w Hex.
  - cbn in Hex. injection Hex as <-. exact H0.
  - apply exec_snoc in Hex as (w1 & H1 & Hst).
    apply (Hstep evs w1 ev w H1 (IH w1 H1) Hst).
Qed.

Lemma answers_snoc (id k : nat) (r : Response) (rs : list (nat * Response)) :
  answers id (rs ++ [(k, r)]) = (answers id rs + if Nat.eqb k id then 1 else 0)%nat.
Proof.
  unfold answers. rewrite List.filter_app, length_app. cbn [List.filter fst].
  destruct (Nat.eqb k id); reflexivity.
Qed.

Ltac by_cases_on_pending :=
  repeat match goal with H : _ /\ _ |- _ => destruct H end;
  first
    [ lia
    | contradiction
    | match goal with
      | H : ¬ (_ /\ _) |- _ =>
          apply H; split;
          [ lia
          | first [ assumption
                  | rewrite ?not_elem_of_union, ?elem_of_difference,
                      ?elem_of_singleton in *;
                    intuition (try congruence; try lia) ] ]
      end ].

(** Requests are numbered in the order of their arrival; a request is
    pending or answered once, never both. *)
Lemma requests_invariant (evs : list Event) (w : Worker) :
  exec E initial evs = Some w ->
  nextRequest w = length (List.filter isProcessImage evs)
  /\ forall id,
       (id ∈ pendingRun w -> (id < nextRequest w)%nat)
       /\ answers id (responses w)
          = if decide ((id < nextRequest w)%nat /\ id ∉ pendingRun w) then 1%nat else 0%nat.
Proof.
  revert evs w. apply exec_invariant.
  - split; [reflexivity |]. intros id.
    split; [intros H; apply elem_of_empty in H; destruct H |].
    destruct (decide _) as [[H _] | _]; [cbn in H; lia | reflexivity].
  - intros evs w ev w' _ [Hn Hinv] Hst.
    rewrite List.filter_app, length_app.
    destruct ev as [| | k s | k err | request | k outputs | k err]; cbn [step] in Hst.
    + injection Hst as <-. cbn. split; [lia | exact Hinv].
    + injection Hst as <-. cbn. split; [lia | exact Hinv].
    + destruct (pendingInit w !! k); [| discriminate]. injection Hst as <-.
      cbn. split; [lia | exact Hinv].
    + destruct (pendingInit w !! k); [| discriminate]. injection Hst as <-.
      cbn. split; [lia | exact Hinv].
    + cbn [List.filter isProcessImage].
      destruct (String.eqb (Background.type request) "PROCESS_IMAGE");
        injection Hst as <-; [| cbn; split; [lia | exact Hinv]].
      assert (Hfresh : nextRequest w ∉ pendingRun w).
      { intros Hin. apply (Hinv (nextRequest w)) in Hin. lia. }
      unfold handleProcessImage.
      destruct (ortSession w) as [session |];
        [destruct (newTensor E _ _) as [err |] |];
        cbn [nextRequest pendingRun responses nextId respond length];
        (split; [lia |]); intros id; destruct (Hinv id) as [Hp Ha];
        rewrite ?answers_snoc, ?Ha.
      * split; [intros H; specialize (Hp H); lia |].
        destruct (Nat.eqb_spec (nextRequest w) id) as [<- | Hne];
          repeat destruct (decide _); try reflexivity; exfalso; by_cases_on_pending.
      * split; [rewrite elem_of_union, elem_of_singleton; intros [-> | H];
                [lia | specialize (Hp H); lia] |].
        repeat destruct (decide _); try reflexivity;
          rewrite ?elem_of_union, ?elem_of_singleton in *; exfalso;
          destruct (decide (id = nextRequest w)); subst; by_cases_on_pending.
      * split; [intros H; specialize (Hp H); lia |].
        destruct (Nat.eqb_spec (nextRequest w) id) as [<- | Hne];
          repeat destruct (decide _); try reflexivity; exfalso; by_cases_on_pending.
    + destruct (decide (k ∈ pendingRun w)) as [Hk |]; [| discriminate].
      injection Hst as <-. unfold handleProcessImage_resolved.
      destruct (tensorDispose E);
        cbn [nextRequest pendingRun responses handleProcessImage_rejected List.filter
               isProcessImage length];
        (split; [lia |]); intros id; destruct (Hinv id) as [Hp Ha];
        rewrite answers_snoc, Ha;
        (split; [rewrite elem_of_difference; intros [H _]; exact (Hp H) |]);
        destruct (Hinv k) as [Hpk _]; specialize (Hpk Hk);
        destruct (Nat.eqb_spec k id) as [<- | Hne];
        repeat destruct (decide _); try reflexivity;
        rewrite ?elem_of_difference, ?elem_of_singleton in *; exfalso; by_cases_on_pending.
    + destruct (decide (k ∈ pendingRun w)) as [Hk |]; [| discriminate].
      injection Hst as <-.
      cbn [nextRequest pendingRun responses handleProcessImage_rejected List.filter
             isProcessImage length].
      split; [lia |]. intros id. destruct (Hinv id) as [Hp Ha]. rewrite answers_snoc, Ha.
      split; [rewrite elem_of_difference; intros [H _]; exact (Hp H) |].
      destruct (Hinv k) as [Hpk _]. specialize (Hpk Hk).
      destruct (Nat.eqb_spec k id) as [<- | Hne];
        repeat destruct (decide _); try reflexivity;
        rewrite ?elem_of_difference, ?elem_of_singleton in *; exfalso; by_cases_on_pending.
Qed.

Lemma constructed_app (cs cs' : list Call) :
  constructed (cs ++ cs') = constructed cs ++ constructed cs'.
Proof. apply omap_app. Qed.

Lemma disposed_app (cs cs' : list Call) :
  disposed (cs ++ cs') = disposed cs ++ disposed cs'.
Proof. apply omap_app. Qed.

Lemma ran_app (cs cs' : list Call) : ran (cs ++ cs') = ran cs ++ ran cs'.
Proof. apply omap_app. Qed.

Ltac log_simpl :=
  rewrite ?constructed_app, ?disposed_app, ?ran_app, ?omap_app;
  cbn [constructed disposed ran omap resolvedRun rejectedRun list_omap];
  rewrite ?app_nil_r.

(** Each tensor is constructed and run once; it is disposed when its run
    resolves and the engine's tensors can be disposed, and at no other
    time. *)
Lemma tensors_invariant (evs : list Event) (w : Worker) :
  exec E initial evs = Some w -> tensors_ok E evs w.
Proof.
  revert evs w. apply exec_invariant.
  - split; cbn; try reflexivity; try apply NoDup_nil_2;
      try (intros t H; apply elem_of_nil in H; destruct H).
    + destruct (tensorDispose E); reflexivity.
    + intros t. split; [intros H; apply elem_of_nil in H; destruct H |].
      intros [H | [H | H]];
        [apply elem_of_empty in H | apply elem_of_nil in H | apply elem_of_nil in H];
        destruct H.
    + intros t H. apply elem_of_empty in H. destruct H.
  - intros evs w ev w' _ [I1 I2 I3 I4 I5 I6 I7 I8] Hst.
    assert (Hkeep : forall w'', calls w'' = calls w -> pendingRun w'' = pendingRun w ->
              (nextRequest w <= nextRequest w'')%nat ->
              omap resolvedRun [ev] = [] -> omap rejectedRun [ev] = [] ->
              tensors_ok E (evs ++ [ev]) w'').
    { intros w'' Hc Hp Hn Hr1 Hr2.
      split; rewrite ?omap_app, ?Hr1, ?Hr2, ?app_nil_r, ?Hc, ?Hp; try assumption.
      intros t Ht. specialize (I3 t Ht). lia. }
    assert (Hcreate : forall w'' c, calls w'' = calls w ++ [CreateCall modelPath c] ->
              pendingRun w'' = pendingRun w -> nextRequest w'' = nextRequest w ->
              omap resolvedRun [ev] = [] -> omap rejectedRun [ev] = [] ->
              tensors_ok E (evs ++ [ev]) w'').
    { intros w'' c Hc Hp Hn Hr1 Hr2.
      split; rewrite ?Hc, ?Hp, ?Hn, ?omap_app, ?Hr1, ?Hr2; log_simpl; assumption. }
    destruct ev as [| | k s | k err | request | k outputs | k err]; cbn [step] in Hst.
    + injection Hst as <-. eapply Hcreate; reflexivity.
    + injection Hst as <-. eapply Hcreate; reflexivity.
    + destruct (pendingInit w !! k); [| discriminate]. injection Hst as <-.
      apply Hkeep; reflexivity || (cbn; lia).
    + destruct (pendingInit w !! k); [| discriminate]. injection Hst as <-.
      apply Hkeep; reflexivity || (cbn; lia).
    + destruct (String.eqb (Background.type request) "PROCESS_IMAGE");
        injection Hst as <-; [| apply Hkeep; reflexivity || lia].
      unfold handleProcessImage.
      destruct (ortSession w) as [session |];
        [destruct (newTensor E _ _) as [err |] |];
        try (apply Hkeep; reflexivity || (cbn; lia)).
      assert (Hfresh : nextRequest w ∉ constructed (calls w)).
      { intros Hin. apply I3 in Hin. lia. }
      split; cbn [calls pendingRun nextRequest]; log_simpl; try assumption.
      * congruence.
      * intros t. rewrite elem_of_app, list_elem_of_singleton.
        intros [Ht | ->]; [specialize (I3 t Ht) |]; lia.
      * apply NoDup_app. split; [exact I4 |]. split; [| apply NoDup_singleton].
        intros t Ht. rewrite list_elem_of_singleton. intros ->. exact (Hfresh Ht).
      * intros t. rewrite elem_of_app, list_elem_of_singleton, elem_of_union,
          elem_of_singleton, I6. tauto.
      * intros t. rewrite elem_of_union, elem_of_singleton.
        intros [-> | Ht]; [| exact (I7 t Ht)].
        split; intros Hin; apply Hfresh, I6; tauto.
    + destruct (decide (k ∈ pendingRun w)) as [Hk |]; [| discriminate].
      injection Hst as <-. destruct (I7 k Hk) as [Hk1 Hk2].
      unfold handleProcessImage_resolved.
      destruct (tensorDispose E) as [err |] eqn:HD;
        split; rewrite ?HD; cbn [calls pendingRun nextRequest handleProcessImage_rejected];
        log_simpl; try assumption; try congruence.
      * apply NoDup_app. split; [exact I5 |]. split; [| apply NoDup_singleton].
        intros t Ht. rewrite list_elem_of_singleton. intros ->. exact (Hk1 Ht).
      * intros t. rewrite elem_of_app, list_elem_of_singleton, elem_of_difference,
          elem_of_singleton, I6.
        destruct (decide (t = k)) as [-> | Hne]; tauto.
      * intros t. rewrite elem_of_difference, elem_of_singleton, elem_of_app,
          list_elem_of_singleton. intros [Ht Hne]. destruct (I7 t Ht). tauto.
      * intros t. rewrite elem_of_app, list_elem_of_singleton.
        intros [Ht | ->]; [exact (I8 t Ht) | exact Hk2].
      * apply NoDup_app. split; [exact I5 |]. split; [| apply NoDup_singleton].
        intros t Ht. rewrite list_elem_of_singleton. intros ->. exact (Hk1 Ht).
      * intros t. rewrite elem_of_app, list_elem_of_singleton, elem_of_difference,
          elem_of_singleton, I6.
        destruct (decide (t = k)) as [-> | Hne]; tauto.
      * intros t. rewrite elem_of_difference, elem_of_singleton, elem_of_app,
          list_elem_of_singleton. intros [Ht Hne]. destruct (I7 t Ht). tauto.
      * intros t. rewrite elem_of_app, list_elem_of_singleton.
        intros [Ht | ->]; [exact (I8 t Ht) | exact Hk2].
    + destruct (decide (k ∈ pendingRun w)) as [Hk |]; [| discriminate].
      injection Hst as <-. destruct (I7 k Hk) as [Hk1 Hk2].
      split; cbn [calls pendingRun nextRequest handleProcessImage_rejected];
        log_simpl; try assumption.
      * intros t. rewrite elem_of_app, list_elem_of_singleton, elem_of_difference,
          elem_of_singleton, I6.
        destruct (decide (t = k)) as [-> | Hne]; tauto.
      * intros t. rewrite elem_of_difference, elem_of_singleton, elem_of_app,
          list_elem_of_singleton. intros [Ht Hne]. destruct (I7 t Ht). tauto.
      * intros t Ht. rewrite elem_of_app, list_elem_of_singleton.
        intros [Hr | ->]; [exact (I8 t Ht Hr) | exact (Hk1 Ht)].
Qed.


(** The session in [ortSession] was delivered by a resolved create. *)
Lemma exec_loaded_session (evs : list Event) (w : Worker) (s : Session) :
  exec E initial evs = Some w -> ortSession w = Some s ->
  exists k, CreateResolved k s ∈ evs.
Proof.
  intros Hex Hs. rewrite (exec_last_session E evs initial w Hex) in Hs.
  destruct (last (omap resolvedSession evs)) as [s' |] eqn:Hl; [| discriminate].
  injection Hs as ->. apply last_Some_elem_of in Hl.
  apply list_elem_of_omap in Hl as (ev & Hin & Hev).
  destruct ev; try discriminate. injection Hev as ->. eauto.
Qed.

(** The engine-call log starts with a create; every run is preceded by the
    construction of its tensor and uses a session some create delivered. *)
Lemma runs_invariant (evs : list Event) (w : Worker) :
  exec E initial evs = Some w ->
  (forall s t, RunCall s t ∈ calls w ->
     (exists k, CreateResolved k s ∈ evs)
     /\ exists cs1 cs2, calls w = cs1 ++ TensorCall t :: RunCall s t :: cs2)
  /\ (forall c, head (calls w) = Some c -> c = CreateCall modelPath sessionOptions)
  /\ (calls w = [] -> ortSession w = None /\ pendingInit w = ∅ /\ pendingRun w = ∅).
Proof.
  revert evs w. apply exec_invariant.
  - split; [| split]; [| discriminate | auto].
    intros s t H. cbn in H. apply elem_of_nil in H. destruct H.
  - intros evs w ev w' Hex (J1 & J2 & J3) Hst.
    assert (Happ : forall w'' extra, calls w'' = calls w ++ extra ->
              (forall s t, RunCall s t ∈ extra ->
                 (exists k, CreateResolved k s ∈ evs ++ [ev])
                 /\ exists cs1, calls w ++ extra = cs1 ++ [TensorCall t; RunCall s t]) ->
              (calls w = [] -> forall c, head extra = Some c ->
                 c = CreateCall modelPath sessionOptions) ->
              (extra = [] -> calls w = [] ->
                 ortSession w'' = None /\ pendingInit w'' = ∅ /\ pendingRun w'' = ∅) ->
              (forall s t, RunCall s t ∈ calls w'' ->
                 (exists k, CreateResolved k s ∈ evs ++ [ev])
                 /\ exists cs1 cs2, calls w'' = cs1 ++ TensorCall t :: RunCall s t :: cs2)
              /\ (forall c, head (calls w'') = Some c ->
                    c = CreateCall modelPath sessionOptions)
              /\ (calls w'' = [] ->
                    ortSession w'' = None /\ pendingInit w'' = ∅ /\ pendingRun w'' = ∅)).
    { intros w'' extra Hc H1 H2 H3. rewrite Hc. split; [| split].
      - intros s t. rewrite elem_of_app. intros [Hin | Hin].
        + destruct (J1 s t Hin) as [[k Hk] (cs1 & cs2 & Hcs)]. split.
          * exists k. apply elem_of_app. left. exact Hk.
          * exists cs1, (cs2 ++ extra). rewrite Hcs, <- app_assoc. reflexivity.
        + destruct (H1 s t Hin) as [Hk (cs1 & Hcs)]. split; [exact Hk |].
          exists cs1, []. exact Hcs.
      - intros c. destruct (calls w) as [| c0 cs] eqn:Hw.
        + cbn [app]. apply H2. reflexivity.
        + cbn [app head]. apply J2.
      - intros Hnil. apply app_eq_nil in Hnil as [Hw ->]. apply H3; [reflexivity | exact Hw]. }
    assert (Hnone : forall s t, RunCall s t ∈ @nil Call ->
              (exists k, CreateResolved k s ∈ evs ++ [ev])
              /\ exists cs1, calls w ++ [] = cs1 ++ [TensorCall t; RunCall s t]).
    { intros s t H. apply elem_of_nil in H. destruct H. }
    destruct ev as [| | k s | k err | request | k outputs | k err]; cbn [step] in Hst.
    + injection Hst as <-. apply (Happ _ [CreateCall modelPath sessionOptions]).
      * reflexivity.
      * intros s t H. apply list_elem_of_singleton in H. discriminate.
      * intros _ c [= <-]. reflexivity.
      * discriminate.
    + injection Hst as <-. apply (Happ _ [CreateCall modelPath sessionOptions]).
      * reflexivity.
      * intros s t H. apply list_elem_of_singleton in H. discriminate.
      * intros _ c [= <-]. reflexivity.
      * discriminate.
    + destruct (pendingInit w !! k) eqn:Hk; [| discriminate]. injection Hst as <-.
      apply (Happ _ []); [cbn; rewrite app_nil_r; reflexivity | exact Hnone | discriminate |].
      intros _ Hw. destruct (J3 Hw) as (_ & Hp & _). rewrite Hp, lookup_empty in Hk.
      discriminate.
    + destruct (pendingInit w !! k) eqn:Hk; [| discriminate]. injection Hst as <-.
      apply (Happ _ []); [cbn; rewrite app_nil_r; reflexivity | exact Hnone | discriminate |].
      intros _ Hw. destruct (J3 Hw) as (_ & Hp & _). rewrite Hp, lookup_empty in Hk.
      discriminate.
    + destruct (String.eqb (Background.type request) "PROCESS_IMAGE");
        injection Hst as <-;
        [| apply (Happ _ []);
           [rewrite app_nil_r; reflexivity | exact Hnone | discriminate
           | intros _ Hw; exact (J3 Hw)]].
      unfold handleProcessImage. destruct (ortSession w) as [session |] eqn:Hs.
      * destruct (newTensor E _ _) as [err |].
        -- apply (Happ _ []);
             [cbn; rewrite app_nil_r; reflexivity | exact Hnone | discriminate |].
           intros _ Hw. destruct (J3 Hw) as (Hn & _). discriminate.
        -- apply (Happ _ [TensorCall (nextRequest w); RunCall session (nextRequest w)]).
           ++ reflexivity.
           ++ intros s t H. apply elem_of_cons in H as [H | H]; [discriminate |].
              apply list_elem_of_singleton in H. injection H as -> ->. split.
              ** destruct (exec_loaded_session evs w session Hex Hs) as [k Hk].
                 exists k. apply elem_of_app. left. exact Hk.
              ** exists (calls w). reflexivity.
           ++ intros Hw. destruct (J3 Hw) as (Hn & _). discriminate.
           ++ discriminate.
      * apply (Happ _ []);
          [cbn; rewrite app_nil_r; reflexivity | exact Hnone | discriminate |].
        intros _ Hw. cbn. rewrite Hs. exact (J3 Hw).
    + destruct (decide (k ∈ pendingRun w)) as [Hk |]; [| discriminate].
      injection Hst as <-. unfold handleProcessImage_resolved.
      destruct (tensorDispose E).
      * apply (Happ _ []);
          [cbn; rewrite app_nil_r; reflexivity | exact Hnone | discriminate |].
        intros _ Hw. destruct (J3 Hw) as (_ & _ & Hp). rewrite Hp in Hk.
        apply elem_of_empty in Hk. destruct Hk.
      * apply (Happ _ [DisposeCall k]).
        -- reflexivity.
        -- intros s t H. apply list_elem_of_singleton in H. discriminate.
        -- intros Hw. destruct (J3 Hw) as (_ & _ & Hp). rewrite Hp in Hk.
           apply elem_of_empty in Hk. destruct Hk.
        -- discriminate.
    + destruct (decide (k ∈ pendingRun w)) as [Hk |]; [| discriminate].
      injection Hst as <-.
      apply (Happ _ []); [cbn; rewrite app_nil_r; reflexivity | exact Hnone | discriminate |].
      intros _ Hw. destruct (J3 Hw) as (_ & _ & Hp). rewrite Hp in Hk.
      apply elem_of_empty in Hk. destruct Hk.
Qed.

(** A pending create was started by the listener recorded for it; creates
    are numbered in the order of the listener events. *)
Lemma rejectedStartup_snoc (evs : list Event) (ev : Event) :
  (forall k err, CreateRejected k err ∈ evs -> (k < length (omap trigger evs))%nat) ->
  List.filter (rejectedStartup (evs ++ [ev])) evs
  = List.filter (rejectedStartup evs) evs.
Proof.
  intros Hb. apply List.filter_ext_in. intros e He.
  destruct e as [| | k s | k err | request | k outputs | k err]; try reflexivity.
  cbn [rejectedStartup]. rewrite omap_app, lookup_app_l; [reflexivity |].
  apply (Hb k err). apply list_elem_of_In. exact He.
Qed.

Lemma inits_invariant (evs : list Event) (w : Worker) :
  exec E initial evs = Some w ->
  nextInit w = length (omap trigger evs)
  /\ (forall k t, pendingInit w !! k = Some t -> omap trigger evs !! k = Some t)
  /\ (forall k err, CreateRejected k err ∈ evs -> (k < nextInit w)%nat)
  /\ reloadTimers w = length (List.filter (rejectedStartup evs) evs).
Proof.
  revert evs w. apply exec_invariant.
  - split; [reflexivity |]. split; [| split; [| reflexivity]].
    + intros k t H. cbn in H. rewrite lookup_empty in H. discriminate.
    + intros k err H. apply elem_of_nil in H. destruct H.
  - intros evs w ev w' Hex (K1 & K2 & K3 & K4) Hst.
    assert (Hb : forall k err, CreateRejected k err ∈ evs ->
                   (k < length (omap trigger evs))%nat).
    { intros k err H. rewrite <- K1. exact (K3 k err H). }
    assert (Hinit : forall t, trigger ev = Some t -> rejectedStartup (evs ++ [ev]) ev = false ->
              (forall k err, ev <> CreateRejected k err) ->
              nextInit (initializeModel t w) = length (omap trigger (evs ++ [ev]))
              /\ (forall k t', pendingInit (initializeModel t w) !! k = Some t' ->
                    omap trigger (evs ++ [ev]) !! k = Some t')
              /\ (forall k err, CreateRejected k err ∈ evs ++ [ev] ->
                    (k < nextInit (initializeModel t w))%nat)
              /\ reloadTimers (initializeModel t w)
                 = length (List.filter (rejectedStartup (evs ++ [ev])) (evs ++ [ev]))).
    { intros t Ht Hf Hne. rewrite omap_app. cbn [omap list_omap]. rewrite Ht.
      cbn [nextInit pendingInit reloadTimers initializeModel].
      split; [rewrite length_app; cbn; lia |]. split; [| split].
      - intros k t'. rewrite K1. destruct (decide (k = length (omap trigger evs))) as [-> | Hk].
        + rewrite lookup_insert_eq. intros [= <-].
          rewrite lookup_app_r, Nat.sub_diag by lia. reflexivity.
        + rewrite lookup_insert_ne by congruence. intros H. specialize (K2 k t' H).
          rewrite lookup_app_l; [exact K2 |]. apply lookup_lt_Some in K2. exact K2.
      - intros k err. rewrite elem_of_app, list_elem_of_singleton.
        intros [H | H]; [specialize (K3 k err H); lia |].
        exfalso. exact (Hne k err (eq_sym H)).
      - rewrite List.filter_app, length_app, (rejectedStartup_snoc evs ev Hb), <- K4.
        cbn [List.filter]. rewrite Hf. cbn. lia. }
    assert (Hkeep : forall w'', nextInit w'' = nextInit w ->
              (forall k t, pendingInit w'' !! k = Some t -> pendingInit w !! k = Some t) ->
              trigger ev = None ->
              (forall k err, ev = CreateRejected k err -> (k < nextInit w)%nat) ->
              reloadTimers w''
              = (reloadTimers w + if rejectedStartup (evs ++ [ev]) ev then 1 else 0)%nat ->
              nextInit w'' = length (omap trigger (evs ++ [ev]))
              /\ (forall k t, pendingInit w'' !! k = Some t ->
                    omap trigger (evs ++ [ev]) !! k = Some t)
              /\ (forall k err, CreateRejected k err ∈ evs ++ [ev] -> (k < nextInit w'')%nat)
              /\ reloadTimers w''
                 = length (List.filter (rejectedStartup (evs ++ [ev])) (evs ++ [ev]))).
    { intros w'' Hn Hp Ht Hrej Hr.
      assert (Ho : omap trigger (evs ++ [ev]) = omap trigger evs).
      { rewrite omap_app. cbn [omap list_omap]. rewrite Ht. apply app_nil_r. }
      rewrite Ho, Hn. split; [exact K1 |]. split; [| split].
      - intros k t H. exact (K2 k t (Hp k t H)).
      - intros k err. rewrite elem_of_app, list_elem_of_singleton.
        intros [H | H]; [exact (K3 k err H) | exact (Hrej k err (eq_sym H))].
      - rewrite Hr, List.filter_app, length_app, (rejectedStartup_snoc evs ev Hb), <- K4.
        cbn [List.filter]. destruct (rejectedStartup (evs ++ [ev]) ev); reflexivity. }
    destruct ev as [| | k s | k err | request | k outputs | k err]; cbn [step] in Hst.
    + injection Hst as <-. apply Hinit; [reflexivity | reflexivity | discriminate].
    + injection Hst as <-. apply Hinit; [reflexivity | reflexivity | discriminate].
    + destruct (pendingInit w !! k) eqn:Hk; [| discriminate]. injection Hst as <-.
      apply Hkeep; try reflexivity; try discriminate.
      * intros j t'. cbn. intros H. apply lookup_delete_Some in H as [_ H]. exact H.
      * cbn. lia.
    + destruct (pendingInit w !! k) as [t |] eqn:Hk; [| discriminate]. injection Hst as <-.
      pose proof (K2 k t Hk) as Hl.
      apply Hkeep; try reflexivity.
      * intros j t'. cbn. intros H. apply lookup_delete_Some in H as [_ H]. exact H.
      * intros k' err' [= <- _]. apply lookup_lt_Some in Hl. lia.
      * cbn [reloadTimers initializeModel_rejected rejectedStartup].
        rewrite omap_app. cbn [omap list_omap trigger]. rewrite app_nil_r, Hl.
        destruct t; lia.
    + destruct (String.eqb (Background.type request) "PROCESS_IMAGE");
        injection Hst as <-; [| apply Hkeep; auto; try discriminate; cbn; lia].
      unfold handleProcessImage.
      destruct (ortSession w); [destruct (newTensor E _ _) |];
        apply Hkeep; auto; try discriminate; cbn; lia.
    + destruct (decide (k ∈ pendingRun w)); [| discriminate]. injection Hst as <-.
      unfold handleProcessImage_resolved.
      destruct (tensorDispose E); apply Hkeep; auto; try discriminate; cbn; lia.
    + destruct (decide (k ∈ pendingRun w)); [| discriminate]. injection Hst as <-.
      apply Hkeep; auto; try discriminate; cbn; lia.
Qed.

(** A run can only be pending while a session is loaded. *)
Lemma pending_invariant (evs : list Event) (w : Worker) :
  exec E initial evs = Some w ->
  forall k, k ∈ pendingRun w -> is_Some (ortSession w).
Proof.
  revert evs w.
  apply (exec_invariant (fun _ w => forall k, k ∈ pendingRun w -> is_Some (ortSession w))).
  - intros k H. cbn in H. apply elem_of_empty in H. destruct H.
  - intros evs w ev w' _ IH Hst k.
    destruct ev as [| | j s | j err | request | j outputs | j err]; cbn [step] in Hst.
    + injection Hst as <-. apply IH.
    + injection Hst as <-. apply IH.
    + destruct (pendingInit w !! j); [| discriminate]. injection Hst as <-.
      intros _. cbn. eauto.
    + destruct (pendingInit w !! j); [| discriminate]. injection Hst as <-. apply IH.
    + destruct (String.eqb (Background.type request) "PROCESS_IMAGE");
        injection Hst as <-; [| apply IH].
      unfold handleProcessImage. destruct (ortSession w) as [session |] eqn:Hs.
      * destruct (newTensor E _ _); cbn; rewrite ?Hs; eauto.
      * cbn. rewrite Hs. intros H. destruct (IH k H) as [? ?]. discriminate.
    + destruct (decide (j ∈ pendingRun w)); [| discriminate]. injection Hst as <-.
      unfold handleProcessImage_resolved.
      destruct (tensorDispose E); cbn; rewrite elem_of_difference;
        intros [H _]; exact (IH k H).
    + destruct (decide (j ∈ pendingRun w)); [| discriminate]. injection Hst as <-.
      cbn. rewrite elem_of_difference. intros [H _]. exact (IH k H).
Qed.

End WorkerHistory.

Section WorkerHistoryTheorems.

(** X1.  Requests are numbered in the order of their arrival, and every
    request is answered at most once: a request whose run is pending has no
    answer yet, every other request received so far has exactly one, and no
    answer is ever sent for a request that has not been received. *)
Theorem requests_answered_once (E : Engine) (evs : list Event) (w : Worker) (id : nat) :
  exec E initial evs = Some w ->
  nextRequest w = length (List.filter isProcessImage evs)
  /\ (id ∈ pendingRun w ->
        (id < nextRequest w)%nat /\ answers id (responses w) = 0%nat)
  /\ ((id < nextRequest w)%nat -> id ∉ pendingRun w ->
        answers id (responses w) = 1%nat)
  /\ ((nextRequest w <= id)%nat -> answers id (responses w) = 0%nat).
Proof.
  intros Hex. destruct (requests_invariant E evs w Hex) as [Hn Hinv].
  destruct (Hinv id) as [Hp Ha]. split; [exact Hn |]. split; [| split].
  - intros Hin. split; [exact (Hp Hin) |]. rewrite Ha.
    destruct (decide _) as [[_ Hout] |]; [destruct (Hout Hin) | reflexivity].
  - intros Hlt Hout. rewrite Ha.
    destruct (decide _) as [| Hno]; [reflexivity | destruct Hno; split; assumption].
  - intros Hle. rewrite Ha. destruct (decide _) as [[Hlt _] |]; [lia | reflexivity].
Qed.

Lemma requests_answered_once_witness :
  nextRequest servedWorker
  = length (List.filter isProcessImage
      [Installed; CreateResolved 0 sampleSession; Message smallRequest;
       RunResolved 0 sampleOutputs])
  /\ (0%nat ∈ pendingRun servedWorker ->
        (0 < nextRequest servedWorker)%nat /\ answers 0 (responses servedWorker) = 0%nat)
  /\ ((0 < nextRequest servedWorker)%nat -> 0%nat ∉ pendingRun servedWorker ->
        answers 0 (responses servedWorker) = 1%nat)
  /\ ((nextRequest servedWorker <= 0)%nat -> answers 0 (responses servedWorker) = 0%nat).
Proof.
  apply (requests_answered_once ortEngine
           [Installed; CreateResolved 0 sampleSession; Message smallRequest;
            RunResolved 0 sampleOutputs]).
  reflexivity.
Defined.

(** X2.  The life of the transient tensors: every tensor that is
    constructed is run, under a number used once.  With an engine whose
    tensors can be disposed, the tensors disposed are, in order, those whose
    run resolved, each once; with the pinned onnxruntime-web 1.16.3, whose
    tensors have no [dispose], nothing is ever disposed.  In both cases
    only a tensor whose run resolved can be disposed, and a tensor whose
    run was rejected has been constructed and is never disposed. *)
Theorem tensor_life_cycle (E : Engine) (evs : list Event) (w : Worker) :
  exec E initial evs = Some w ->
  disposed (calls w)
  = match tensorDispose E with
    | None => omap resolvedRun evs
    | Some _ => []
    end
  /\ NoDup (disposed (calls w))
  /\ constructed (calls w) = ran (calls w)
  /\ NoDup (constructed (calls w))
  /\ forall t,
       (t ∈ disposed (calls w) ->
          t ∈ constructed (calls w) /\ t ∈ omap resolvedRun evs)
       /\ (t ∈ constructed (calls w) <->
             t ∈ pendingRun w \/ t ∈ omap resolvedRun evs \/ t ∈ omap rejectedRun evs)
       /\ (t ∈ omap rejectedRun evs ->
             t ∈ constructed (calls w)
             /\ (t ∉ disposed (calls w)) /\ (t ∉ pendingRun w)).
Proof.
  intros Hex. destruct (tensors_invariant E evs w Hex) as [I1 I2 I3 I4 I5 I6 I7 I8].
  assert (Hsub : forall t, t ∈ disposed (calls w) -> t ∈ omap resolvedRun evs).
  { intros t. rewrite I1. destruct (tensorDispose E); [| auto].
    intros H. apply elem_of_nil in H. destruct H. }
  split; [exact I1 |]. split.
  { rewrite I1. destruct (tensorDispose E); [apply NoDup_nil_2 | exact I5]. }
  split; [exact I2 |]. split; [exact I4 |]. intros t. split; [| split].
  - intros H. apply Hsub in H. split; [apply I6; tauto | exact H].
  - apply I6.
  - intros H. split; [apply I6; tauto |]. split.
    + intros Hd. exact (I8 t (Hsub t Hd) H).
    + intros Hp. destruct (I7 t Hp) as [_ Hn]. exact (Hn H).
Qed.

Lemma tensor_life_cycle_witness :
  disposed (calls servedWorker)
  = match tensorDispose ortEngine with
    | None => omap resolvedRun
                [Installed; CreateResolved 0 sampleSession; Message smallRequest;
                 RunResolved 0 sampleOutputs]
    | Some _ => []
    end
  /\ NoDup (disposed (calls servedWorker))
  /\ constructed (calls servedWorker) = ran (calls servedWorker)
  /\ NoDup (constructed (calls servedWorker))
  /\ forall t,
       (t ∈ disposed (calls servedWorker) ->
          t ∈ constructed (calls servedWorker)
          /\ t ∈ omap resolvedRun
                   [Installed; CreateResolved 0 sampleSession; Message smallRequest;
                    RunResolved 0 sampleOutputs])
       /\ (t ∈ constructed (calls servedWorker) <->
             t ∈ pendingRun servedWorker
             \/ t ∈ omap resolvedRun
                      [Installed; CreateResolved 0 sampleSession; Message smallRequest;
                       RunResolved 0 sampleOutputs]
             \/ t ∈ omap rejectedRun
                      [Installed; CreateResolved 0 sampleSession; Message smallRequest;
                       RunResolved 0 sampleOutputs])
       /\ (t ∈ omap rejectedRun
                  [Installed; CreateResolved 0 sampleSession; Message smallRequest;
                   RunResolved 0 sampleOutputs] ->
             t ∈ constructed (calls servedWorker)
             /\ (t ∉ disposed (calls servedWorker)) /\ (t ∉ pendingRun servedWorker)).
Proof.
  apply (tensor_life_cycle ortEngine
           [Installed; CreateResolved 0 sampleSession; Message smallRequest;
            RunResolved 0 sampleOutputs]).
  reflexivity.
Defined.

(** The two engines on examples: with the pinned one the tensor of a
    resolved run is not disposed; with a disposing one it is, but the
    tensor of a rejected run is not. *)
Example tensor_disposal_examples :
  (constructed (calls servedWorker), disposed (calls servedWorker)) = ([0%nat], [])
  /\ exec disposingEngine initial
       [Installed; CreateResolved 0 sampleSession; Message smallRequest;
        RunRejected 0 runError; Message smallRequest; RunResolved 1 sampleOutputs]
     = Some leakedWorker
  /\ (constructed (calls leakedWorker), disposed (calls leakedWorker))
     = ([0%nat; 1%nat], [1%nat]).
Proof. repeat split; reflexivity. Qed.

(** X3.  The engine is never used before the model has been requested, and
    a run never uses anything but a loaded model: the first engine call is
    the create of [public/best.onnx]; every run uses a session that a
    resolved create delivered, and directly follows the construction of its
    input tensor. *)
Theorem run_uses_loaded_session (E : Engine) (evs : list Event) (w : Worker) :
  exec E initial evs = Some w ->
  (forall c, head (calls w) = Some c -> c = CreateCall modelPath sessionOptions)
  /\ forall s t, RunCall s t ∈ calls w ->
       (exists k, CreateResolved k s ∈ evs)
       /\ exists cs1 cs2, calls w = cs1 ++ TensorCall t :: RunCall s t :: cs2.
Proof.
  intros Hex. destruct (runs_invariant E evs w Hex) as (J1 & J2 & _).
  split; [exact J2 | exact J1].
Qed.

Lemma run_uses_loaded_session_witness :
  (forall c, head (calls servedWorker) = Some c -> c = CreateCall modelPath sessionOptions)
  /\ forall s t, RunCall s t ∈ calls servedWorker ->
       (exists k, CreateResolved k s
                    ∈ [Installed; CreateResolved 0 sampleSession; Message smallRequest;
                       RunResolved 0 sampleOutputs])
       /\ exists cs1 cs2,
            calls servedWorker = cs1 ++ TensorCall t :: RunCall s t :: cs2.
Proof.
  apply (run_uses_loaded_session ortEngine). reflexivity.
Defined.

(** X4.  The reload timer is armed once for every rejected create that the
    startup listener started, and never for one the install listener started
    (whose rejection nobody handles). *)
Theorem reload_timer_per_failed_startup (E : Engine) (evs : list Event) (w : Worker) :
  exec E initial evs = Some w ->
  reloadTimers w = length (List.filter (rejectedStartup evs) evs).
Proof.
  intros Hex. apply (inits_invariant E evs w Hex).
Qed.

Lemma reload_timer_per_failed_startup_witness :
  reloadTimers reloadedWorker
  = length (List.filter
      (rejectedStartup [Installed; CreateResolved 0 sampleSession; Startup;
                        CreateRejected 1 loadError])
      [Installed; CreateResolved 0 sampleSession; Startup; CreateRejected 1 loadError])
  /\ reloadTimers notReadyWorker
     = length (List.filter
         (rejectedStartup [Installed; CreateRejected 0 loadError; Startup])
         [Installed; CreateRejected 0 loadError; Startup]).
Proof.
  split; apply (reload_timer_per_failed_startup ortEngine); reflexivity.
Defined.

(** X5.  When a run resolves, a session is loaded.  If the call
    [inputTensor.dispose()] throws, as it does with the pinned
    onnxruntime-web 1.16.3, whose tensors have no such method, the request
    is answered with the message of that error and nothing is disposed.
    Otherwise the tensor is disposed and the request is answered from the
    output named first by the session loaded last at that moment, which need
    not be the session that ran: the answer is the summary of that output if
    the outputs have it, and the error of reading [data] of [undefined]
    otherwise. *)
Theorem run_resolved_response (E : Engine) (evs : list Event) (w : Worker) (k : nat)
    (outputs : gmap string OutputTensor) :
  exec E initial evs = Some w -> k ∈ pendingRun w ->
  exists s w',
    last (omap resolvedSession evs) = Some s
    /\ exec E initial (evs ++ [RunResolved k outputs]) = Some w'
    /\ pendingRun w' = pendingRun w ∖ {[k]}
    /\ match tensorDispose E with
       | Some err =>
           calls w' = calls w
           /\ responses w' = responses w ++ [(k, ErrorResponse (exn_message err))]
       | None =>
           calls w' = calls w ++ [DisposeCall k]
           /\ responses w'
              = responses w
                ++ [(k, match outputs !! firstOutputName s with
                        | Some t =>
                            Result (length (data t)) (output_dims t) placeholderText
                        | None => ErrorResponse cannotRead
                        end)]
       end.
Proof.
  intros Hex Hk. destruct (pending_invariant E evs w Hex k Hk) as [s Hs].
  pose proof (exec_last_session E evs initial w Hex) as Hl. rewrite Hs in Hl.
  destruct (last (omap resolvedSession evs)) as [s' |]; [| discriminate].
  injection Hl as <-.
  exists s, (handleProcessImage_resolved E k outputs w). split; [reflexivity |].
  split.
  - apply exec_snoc. exists w. split; [exact Hex |]. cbn [step].
    destruct (decide (k ∈ pendingRun w)) as [| Hno]; [reflexivity | destruct (Hno Hk)].
  - unfold handleProcessImage_resolved. destruct (tensorDispose E) as [err |].
    + cbn [calls responses pendingRun handleProcessImage_rejected]. auto.
    + cbn [calls responses pendingRun]. rewrite Hs. auto.
Qed.

Lemma pending_in_examples :
  0%nat ∈ pendingRun busyWorker /\ 0%nat ∈ pendingRun racedWorker.
Proof.
  split.
  - apply (bool_decide_unpack (0%nat ∈ pendingRun busyWorker)). vm_compute. exact I.
  - apply (bool_decide_unpack (0%nat ∈ pendingRun racedWorker)). vm_compute. exact I.
Qed.

Lemma run_resolved_response_witness :
  (exists s w',
     last (omap resolvedSession
             [Installed; CreateResolved 0 sampleSession; Message smallRequest])
     = Some s
     /\ exec ortEngine initial
          ([Installed; CreateResolved 0 sampleSession; Message smallRequest]
           ++ [RunResolved 0 sampleOutputs])
        = Some w'
     /\ pendingRun w' = pendingRun busyWorker ∖ {[0%nat]}
     /\ match tensorDispose ortEngine with
        | Some err =>
            calls w' = calls busyWorker
            /\ responses w'
               = responses busyWorker ++ [(0%nat, ErrorResponse (exn_message err))]
        | None =>
            calls w' = calls busyWorker ++ [DisposeCall 0]
            /\ responses w'
               = responses busyWorker
                 ++ [(0%nat, match sampleOutputs !! firstOutputName s with
                             | Some t =>
                                 Result (length (data t)) (output_dims t) placeholderText
                             | None => ErrorResponse cannotRead
                             end)]
        end)
  /\ (exists s w',
        last (omap resolvedSession
                [Installed; CreateResolved 0 sampleSession; Message smallRequest;
                 Startup; CreateResolved 1 otherSession])
        = Some s
        /\ exec disposingEngine initial
             ([Installed; CreateResolved 0 sampleSession; Message smallRequest;
               Startup; CreateResolved 1 otherSession] ++ [RunResolved 0 sampleOutputs])
           = Some w'
        /\ pendingRun w' = pendingRun racedWorker ∖ {[0%nat]}
        /\ match tensorDispose disposingEngine with
           | Some err =>
               calls w' = calls racedWorker
               /\ responses w'
                  = responses racedWorker ++ [(0%nat, ErrorResponse (exn_message err))]
           | None =>
               calls w' = calls racedWorker ++ [DisposeCall 0]
               /\ responses w'
                  = responses racedWorker
                    ++ [(0%nat, match sampleOutputs !! firstOutputName s with
                                | Some t =>
                                    Result (length (data t)) (output_dims t)
                                      placeholderText
                                | None => ErrorResponse cannotRead
                                end)]
           end).
Proof.
  split.
  - apply (run_resolved_response ortEngine
             [Installed; CreateResolved 0 sampleSession; Message smallRequest]
             busyWorker 0 sampleOutputs).
    + reflexivity.
    + apply pending_in_examples.
  - apply (run_resolved_response disposingEngine
             [Installed; CreateResolved 0 sampleSession; Message smallRequest;
              Startup; CreateResolved 1 otherSession] racedWorker 0 sampleOutputs).
    + reflexivity.
    + apply pending_in_examples.
Defined.

(** Both cases on examples.  With the pinned engine the answer to a
    resolved run is the error of the missing method.  With a disposing
    engine: request 0 runs on the first model, the startup listener loads a
    second model with another output name, and the outputs of the first
    model are then looked up under that name. *)
Example run_resolved_after_reload :
  (exec ortEngine initial
     [Installed; CreateResolved 0 sampleSession; Message smallRequest;
      RunResolved 0 sampleOutputs]
   ≫= (fun w => last (responses w))
   = Some (0%nat, ErrorResponse "inputTensor.dispose is not a function"))
  /\ (exec disposingEngine initial
        [Installed; CreateResolved 0 sampleSession; Message smallRequest;
         Startup; CreateResolved 1 otherSession; RunResolved 0 sampleOutputs]
      ≫= (fun w => last (responses w))
      = Some (0%nat,
              ErrorResponse "Cannot read properties of undefined (reading 'data')")).
Proof. split; reflexivity. Qed.

(** C9, the failing run.  When [session.run] rejects, the [await] of line
    85 throws and line 86 is not reached: the request is answered with the
    error and the input tensor, which has been constructed, is not disposed,
    neither then nor at any later time.  This holds with every engine. *)
Theorem run_rejected_no_dispose :
  calls <$> exec ortEngine readyWorker [Message smallRequest; RunRejected 0 runError]
    = Some [CreateCall modelPath sessionOptions; TensorCall 0;
            RunCall sampleSession 0]
  /\ responses
       <$> exec ortEngine readyWorker [Message smallRequest; RunRejected 0 runError]
     = Some [(0%nat, ErrorResponse "inference failed")]
  /\ forall (E : Engine) (evs : list Event) (w : Worker) (k : nat) (err : exn),
       exec E initial evs = Some w -> k ∈ pendingRun w ->
       TensorCall k ∈ calls w
       /\ exists w',
            step E w (RunRejected k err) = Some w'
            /\ calls w' = calls w
            /\ responses w' = responses w ++ [(k, ErrorResponse (exn_message err))]
            /\ forall evs' w'',
                 exec E w' evs' = Some w'' -> DisposeCall k ∉ calls w''.
Proof.
  split; [reflexivity |]. split; [reflexivity |].
  intros E evs w k err Hex Hk.
  destruct (tensors_invariant E evs w Hex) as [_ _ _ _ _ I6 _ _].
  split.
  { assert (Hc : k ∈ constructed (calls w)) by (apply I6; tauto).
    apply list_elem_of_omap in Hc as (c & Hin & Hc).
    destruct c; try discriminate. injection Hc as ->. exact Hin. }
  exists (handleProcessImage_rejected k err w).
  assert (Hst : step E w (RunRejected k err) = Some (handleProcessImage_rejected k err w)).
  { cbn [step]. destruct (decide (k ∈ pendingRun w)) as [| Hno];
      [reflexivity | destruct (Hno Hk)]. }
  split; [exact Hst |]. split; [reflexivity |]. split; [reflexivity |].
  intros evs' w'' Hrun Hin.
  assert (Hall : exec E initial ((evs ++ [RunRejected k err]) ++ evs') = Some w'').
  { rewrite exec_app.
    rewrite (proj2 (exec_snoc E initial (handleProcessImage_rejected k err w) evs
                      (RunRejected k err))).
    - exact Hrun.
    - exists w. split; [exact Hex | exact Hst]. }
  destruct (tensors_invariant E _ w'' Hall) as [J1 _ _ _ _ _ _ J8].
  assert (Hd : k ∈ disposed (calls w'')).
  { apply list_elem_of_omap. exists (DisposeCall k). split; [exact Hin | reflexivity]. }
  rewrite J1 in Hd. destruct (tensorDispose E).
  - apply elem_of_nil in Hd. destruct Hd.
  - apply (J8 k Hd). rewrite !omap_app. cbn [omap list_omap rejectedRun].
    rewrite !elem_of_app, list_elem_of_singleton. tauto.
Qed.

End WorkerHistoryTheorems.

(* ===================================================================== *)
(** ** The letterbox geometry and the samples *)
(* ===================================================================== *)

Section LetterboxFacts.

Lemma of_int_inj (a b : Z) : of_int a = of_int b -> a = b.
Proof. unfold of_int, inject_Z. congruence. Qed.

Lemma to_uint32_of_int (z : Z) : 0 <= z < 2 ^ 32 -> to_uint32 (of_int z) = z.
Proof.
  intros Hz. unfold to_uint32, of_int.
  replace (Qle_bool 0 (inject_Z z)) with true.
  - rewrite Qfloor_Z. apply Z.mod_small. exact Hz.
  - symmetry. apply Qle_bool_iff. change 0%Q with (inject_Z 0).
    rewrite <- Zle_Qle. lia.
Qed.

(** The resized dimensions of an image, as integers. *)
Lemma resize_sides (w h : Z) :
  1 <= w < 2 ^ 32 -> 1 <= h < 2 ^ 32 ->
  exists nw nh : Z,
    resize 320 w h = (of_int nw, of_int nh)
    /\ 0 <= nw <= 320 /\ 0 <= nh <= 320 /\ (nw = 320 \/ nh = 320).
Proof.
  intros Hw Hh. destruct (Z_le_gt_dec h w) as [Hle | Hgt].
  - exists 320, (landscape_height w h).
    split; [apply resize_landscape; lia |]. split; [lia |].
    split; [apply landscape_height_bounds; lia | left; reflexivity].
  - exists (round_div (320 * w) h), 320.
    split; [apply resize_portrait; lia |].
    split; [apply round_div_bounds; lia |]. split; [lia | right; reflexivity].
Qed.

(** The resized dimensions of an image more than 640 times wider than
    high, or higher than wide. *)
Lemma resize_sliver (w h : Z) :
  1 <= w < 2 ^ 32 -> 1 <= h < 2 ^ 32 ->
  (640 * h < w -> resize 320 w h = (of_int 320, of_int 0))
  /\ (640 * w < h -> resize 320 w h = (of_int 0, of_int 320)).
Proof.
  intros Hw Hh. split; intros Hlong.
  - rewrite resize_landscape by lia. do 2 f_equal. unfold landscape_height.
    replace (round_div (320 * h) w) with 0
      by (symmetry; unfold round_div; apply Z.div_small; lia).
    rewrite andb_false_r. reflexivity.
  - rewrite resize_portrait by lia. do 2 f_equal.
    unfold round_div. apply Z.div_small. lia.
Qed.

Lemma lenientBrowser_drawsInsideRect : drawsInsideRect lenientBrowser.
Proof.
  intros c c' s dx dy dw dh Hx Hy Hw Hh. cbn [drawImage lenientBrowser].
  unfold nearestDraw. rewrite !to_uint32_of_int by assumption.
  intros [= <-]. cbn [canvas_width canvas_height canvas_pixel].
  split; [reflexivity |]. split; [reflexivity |].
  intros px py ->. reflexivity.
Qed.

End LetterboxFacts.

Section LetterboxTheorems.

(** X6.  The padding centres the resized image in the square: on each
    axis the leading padding, the resized side and the trailing padding add
    up to 320, the trailing padding is the leading one or one more, and at
    least one axis has no padding at all. *)
Theorem padding_fills_target (w h : Z) :
  1 <= w < 2 ^ 32 -> 1 <= h < 2 ^ 32 ->
  exists nw nh l r t b : Z,
    resize 320 w h = (of_int nw, of_int nh)
    /\ padOffset 320 (of_int nw) = of_int l
    /\ padTrailing 320 (of_int nw) = of_int r
    /\ padOffset 320 (of_int nh) = of_int t
    /\ padTrailing 320 (of_int nh) = of_int b
    /\ l + nw + r = 320 /\ t + nh + b = 320
    /\ 0 <= l <= r /\ r <= l + 1 /\ 0 <= t <= b /\ b <= t + 1
    /\ (l = 0 /\ r = 0 \/ t = 0 /\ b = 0).
Proof.
  intros Hw Hh. destruct (resize_sides w h Hw Hh) as (nw & nh & Hr & Hnw & Hnh & Hfull).
  destruct (padding_centres nw Hnw) as [Hl1 Hr1].
  destruct (padding_centres nh Hnh) as [Ht1 Hb1].
  exists nw, nh, ((320 - nw) / 2), (320 - nw - (320 - nw) / 2),
         ((320 - nh) / 2), (320 - nh - (320 - nh) / 2).
  split; [exact Hr |]. split; [exact Hl1 |]. split; [exact Hr1 |].
  split; [exact Ht1 |]. split; [exact Hb1 |].
  pose proof (Z.div_mod (320 - nw) 2 ltac:(lia)) as D1.
  pose proof (Z.mod_pos_bound (320 - nw) 2 ltac:(lia)) as M1.
  pose proof (Z.div_mod (320 - nh) 2 ltac:(lia)) as D2.
  pose proof (Z.mod_pos_bound (320 - nh) 2 ltac:(lia)) as M2.
  repeat (split; [lia |]).
  destruct Hfull as [-> | ->]; [left | right]; cbn; lia.
Qed.

Lemma padding_fills_target_witness :
  exists nw nh l r t b : Z,
    resize 320 640 427 = (of_int nw, of_int nh)
    /\ padOffset 320 (of_int nw) = of_int l
    /\ padTrailing 320 (of_int nw) = of_int r
    /\ padOffset 320 (of_int nh) = of_int t
    /\ padTrailing 320 (of_int nh) = of_int b
    /\ l + nw + r = 320 /\ t + nh + b = 320
    /\ 0 <= l <= r /\ r <= l + 1 /\ 0 <= t <= b /\ b <= t + 1
    /\ (l = 0 /\ r = 0 \/ t = 0 /\ b = 0).
Proof.
  apply (padding_fills_target 640 427); lia.
Defined.

(** X7.  The resized dimensions depend on the aspect ratio of the image
    only: two images with [w : h = w' : h'] are resized alike. *)
Theorem resize_depends_on_aspect (w h w' h' : Z) :
  1 <= w -> 1 <= h -> 1 <= w' -> 1 <= h' -> w * h' = w' * h ->
  resize 320 w h = resize 320 w' h'.
Proof.
  intros Hw Hh Hw' Hh' He. unfold resize. rewrite !fge_int.
  rewrite (fdiv_int_comp w h w' h') by lia.
  replace (h' <=? w') with (h <=? w); [reflexivity |].
  destruct (Z.leb_spec h w), (Z.leb_spec h' w'); try reflexivity; exfalso; nia.
Qed.

Lemma resize_depends_on_aspect_witness :
  resize 320 1920 1080 = resize 320 16 9.
Proof.
  apply resize_depends_on_aspect; lia.
Defined.

(** X8.  A side of the resized image vanishes exactly when the image is
    more than 640 times longer than wide, or wider than long: the resize
    canvas then has no pixel. *)
Theorem resize_vanishing_side (w h : Z) :
  1 <= w < 2 ^ 32 -> 1 <= h < 2 ^ 32 ->
  ((resize 320 w h).2 = of_int 0 <-> 640 * h < w)
  /\ ((resize 320 w h).1 = of_int 0 <-> 640 * w < h).
Proof.
  intros Hw Hh. destruct (Z_le_gt_dec h w) as [Hle | Hgt].
  - rewrite resize_landscape by lia. cbn [fst snd]. split.
    + assert (Hn : round_div (320 * h) w = 0 <-> 640 * h < w).
      { unfold round_div. rewrite Z.div_small_iff by lia. lia. }
      split.
      * intros H. apply of_int_inj in H. unfold landscape_height in H.
        destruct (is_tie (320 * h) w && tie_rounds_down (round_div (320 * h) w - 1))
          eqn:Ht; [| apply Hn; exact H].
        apply andb_prop in Ht as [_ Ht]. rewrite H in Ht. discriminate Ht.
      * intros H. f_equal. unfold landscape_height.
        apply Hn in H. rewrite H. rewrite andb_false_r. reflexivity.
    + split; [intros H; apply of_int_inj in H; discriminate | lia].
  - rewrite resize_portrait by lia. cbn [fst snd]. split.
    + split; [intros H; apply of_int_inj in H; discriminate | lia].
    + unfold round_div. split.
      * intros H. apply of_int_inj in H. apply Z.div_small_iff in H; lia.
      * intros H. f_equal. apply Z.div_small_iff; lia.
Qed.

Lemma resize_vanishing_side_witness :
  ((resize 320 1300 2).2 = of_int 0 <-> 640 * 2 < 1300)
  /\ ((resize 320 1300 2).1 = of_int 0 <-> 640 * 1300 < 2).
Proof.
  apply (resize_vanishing_side 1300 2); lia.
Defined.

(** X9.  Storing a sample as float32 loses nothing: multiplying a stored
    value by 255 and rounding gives the byte back, so two different bytes
    are never stored as the same value. *)
Theorem normalize_round_trip :
  (forall b : Byte.byte, denormalize (normalize b) = of_int (Z.of_N (Byte.to_N b)))
  /\ (forall b b' : Byte.byte, normalize b = normalize b' -> b = b').
Proof.
  assert (H : forall b : Byte.byte,
            denormalize (normalize b) = of_int (Z.of_N (Byte.to_N b))).
  { intros b. destruct b; vm_compute; reflexivity. }
  split; [exact H |]. intros b b' He.
  pose proof (H b) as H1. rewrite He, H in H1. apply of_int_inj in H1.
  apply (f_equal Z.to_N) in H1. rewrite !N2Z.id in H1.
  apply (f_equal Byte.of_N) in H1. rewrite !Byte.of_to_N in H1. congruence.
Qed.

(** X10.  Every stored sample is within [2 ^ -25] of the exact quotient
    [b / 255]; the bytes 0 and 255 are stored as exactly 0 and 1. *)
Theorem normalize_accuracy :
  (forall b : Byte.byte, near (normalize b) (exactSample b) = true)
  /\ normalize Byte.x00 = Num 0
  /\ normalize Byte.xff = Num 1.
Proof.
  split; [| split; vm_compute; reflexivity].
  intros b. destruct b; vm_compute; reflexivity.
Qed.

(** X11.  With a [drawImage] that draws inside its destination rectangle
    only, the letterbox bars are black: every position of the 320 x 320 grid
    outside the rectangle of the resized image holds 0 in all three
    planes. *)
Theorem letterbox_bars_black (B : Browser) (b : ImageBitmap) :
  drawsInsideRect B ->
  1 <= width b < 2 ^ 32 -> 1 <= height b < 2 ^ 32 ->
  match processImage B (Bitmap b) with
  | Ok r =>
      exists nw nh : Z,
        resize 320 (width b) (height b) = (of_int nw, of_int nh)
        /\ padLeft r = of_int ((320 - nw) / 2)
        /\ padTop r = of_int ((320 - nh) / 2)
        /\ forall x y : Z, 0 <= x < 320 -> 0 <= y < 320 ->
             ((320 - nw) / 2 <=? x) && (x <? (320 - nw) / 2 + nw)
             && ((320 - nh) / 2 <=? y) && (y <? (320 - nh) / 2 + nh) = false ->
             float32Data r !! Z.to_nat (y * 320 + x) = Some (Num 0)
             /\ float32Data r !! Z.to_nat (y * 320 + x + 320 * 320) = Some (Num 0)
             /\ float32Data r !! Z.to_nat (y * 320 + x + 2 * 320 * 320) = Some (Num 0)
  | Throw e => drawPadded B b = Throw e
  end.
Proof.
  intros HB Hw Hh. pose proof (processImage_cases B (Bitmap b)) as Hc.
  destruct (processImage B (Bitmap b)) as [r | e].
  - destruct Hc as (b0 & c & Hb & Hd & ->). cbn in Hb. injection Hb as <-.
    destruct (resize_sides _ _ Hw Hh) as (nw & nh & Hr & Hnw & Hnh & _).
    exists nw, nh. split; [exact Hr |].
    destruct (padding_centres nw Hnw) as [Hl _].
    destruct (padding_centres nh Hnh) as [Ht _].
    cbn [padLeft padTop float32Data]. rewrite Hr. cbn [fst snd].
    split; [exact Hl |]. split; [exact Ht |].
    unfold drawPadded in Hd. rewrite Hr in Hd. cbn [fst snd] in Hd.
    destruct (resizeStep B b (of_int nw) (of_int nh)) as [rc | e]; [| discriminate].
    cbn in Hd. unfold padStep in Hd. rewrite Hl, Ht in Hd.
    assert (Hdiv1 : 0 <= (320 - nw) / 2 < 2 ^ 32).
    { split; [apply Z.div_pos; lia |].
      apply Z.le_lt_trans with 320; [| lia].
      apply Z.div_le_upper_bound; lia. }
    assert (Hdiv2 : 0 <= (320 - nh) / 2 < 2 ^ 32).
    { split; [apply Z.div_pos; lia |].
      apply Z.le_lt_trans with 320; [| lia].
      apply Z.div_le_upper_bound; lia. }
    assert (Hnw' : 0 <= nw < 2 ^ 32) by lia.
    assert (Hnh' : 0 <= nh < 2 ^ 32) by lia.
    destruct (HB _ _ _ _ _ _ _ Hdiv1 Hdiv2 Hnw' Hnh' Hd) as (Hcw & Hch & Hpx).
    intros x y Hx Hy Hout.
    assert (Hblack : readPixel c x y = black).
    { unfold readPixel, inside. rewrite Hcw, Hch.
      cbn [canvas_width canvas_height fillRect setSize].
      rewrite !to_uint32_of_int by lia.
      assert (Hin : (0 <=? x) && (x <? 320) && (0 <=? y) && (y <? 320) = true).
      { rewrite !andb_true_iff, !Z.leb_le, !Z.ltb_lt. lia. }
      rewrite Hin, (Hpx x y Hout). cbn [canvas_pixel fillRect Z.add].
      change (0 + 320) with 320. rewrite Hin. reflexivity. }
    destruct (tensor_of_canvas c) as (_ & _ & Hlook).
    destruct (Hlook x y Hx Hy) as (H0 & H1 & H2). cbn zeta in H0, H1, H2.
    rewrite Hblack in H0, H1, H2.
    split; [exact H0 |]. split; [exact H1 | exact H2].
  - destruct Hc as [Hc | (b0 & Hb & Hd)]; [discriminate |].
    cbn in Hb. injection Hb as <-. exact Hd.
Qed.

Lemma letterbox_bars_black_witness :
  match processImage lenientBrowser (Bitmap (solidBitmap 640 480 white)) with
  | Ok r =>
      exists nw nh : Z,
        resize 320 (width (solidBitmap 640 480 white)) (height (solidBitmap 640 480 white))
        = (of_int nw, of_int nh)
        /\ padLeft r = of_int ((320 - nw) / 2)
        /\ padTop r = of_int ((320 - nh) / 2)
        /\ forall x y : Z, 0 <= x < 320 -> 0 <= y < 320 ->
             ((320 - nw) / 2 <=? x) && (x <? (320 - nw) / 2 + nw)
             && ((320 - nh) / 2 <=? y) && (y <? (320 - nh) / 2 + nh) = false ->
             float32Data r !! Z.to_nat (y * 320 + x) = Some (Num 0)
             /\ float32Data r !! Z.to_nat (y * 320 + x + 320 * 320) = Some (Num 0)
             /\ float32Data r !! Z.to_nat (y * 320 + x + 2 * 320 * 320) = Some (Num 0)
  | Throw e => drawPadded lenientBrowser (solidBitmap 640 480 white) = Throw e
  end.
Proof.
  apply (letterbox_bars_black lenientBrowser (solidBitmap 640 480 white)).
  - apply lenientBrowser_drawsInsideRect.
  - cbn. lia.
  - cbn. lia.
Defined.

(** X17.  An image more than 640 times wider than high, or higher than
    wide, yields no tensor: its resize canvas has a side of 0, and with a
    browser that conforms to the HTML standard the second [drawImage] throws
    (unless the first one did), so that [processImage] rejects. *)
Theorem processImage_rejects_slivers (B : Browser) (b : ImageBitmap) :
  conforming B ->
  1 <= width b < 2 ^ 32 -> 1 <= height b < 2 ^ 32 ->
  640 * height b < width b \/ 640 * width b < height b ->
  exists e, processImage B (Bitmap b) = Throw e /\ drawThrew B b e.
Proof.
  intros HB Hw Hh Hlong. apply (empty_resize_canvas B b HB).
  destruct (resize_sliver _ _ Hw Hh) as [H1 H2].
  destruct Hlong as [Hlong | Hlong].
  - rewrite (H1 Hlong). right. reflexivity.
  - rewrite (H2 Hlong). left. reflexivity.
Qed.

Lemma processImage_rejects_slivers_witness :
  exists e,
    processImage checkingBrowser (Bitmap (solidBitmap 1300 2 white)) = Throw e
    /\ drawThrew checkingBrowser (solidBitmap 1300 2 white) e.
Proof.
  apply (processImage_rejects_slivers checkingBrowser (solidBitmap 1300 2 white)).
  - exact checkingBrowser_conforming.
  - cbn. lia.
  - cbn. lia.
  - left. cbn. lia.
Defined.

End LetterboxTheorems.

(* ===================================================================== *)
(** ** The popup *)
(* ===================================================================== *)

Section PopupFacts.
Import Popup.

Lemma updateStatus_history (text : string) (progress : Z) (isError : bool)
    (page : Page) :
  history (updateStatus text progress isError page)
  = history page ++ [status (updateStatus text progress isError page)].
Proof. reflexivity. Qed.

Lemma showPreview_keeps (env : Env) (img : HTMLImageElement) (page page' : Page) :
  showPreview env img page = Ok page' ->
  status page' = status page /\ history page' = history page /\ sent page' = sent page.
Proof.
  unfold showPreview. destruct (drawElement env _ _ _ _ _ _) as [c | e]; cbn.
  - intros [= <-]. auto.
  - discriminate.
Qed.

(** What [processImage] resolves with is a well-shaped tensor of samples
    in [[0, 1]]. *)
Lemma processImage_message (B : Browser) (input : ImageSource) (r : LetterboxResult) :
  processImage B input = Ok r ->
  dims r = [1; 3; 320; 320]
  /\ Z.of_nat (length (float32Data r)) = product (dims r)
  /\ Forall in_unit (float32Data r)
  /\ ImageProcessor.resizeFactor r = Num 1.
Proof.
  intros Hr. pose proof (processImage_cases B input) as Hc. rewrite Hr in Hc.
  destruct Hc as (b & c & _ & _ & ->). cbn [dims float32Data ImageProcessor.resizeFactor].
  destruct (tensor_of_canvas c) as (Hlen & Hunit & _). cbn zeta in Hlen, Hunit.
  split; [reflexivity |]. split; [rewrite Hlen; reflexivity |].
  split; [exact Hunit | reflexivity].
Qed.

End PopupFacts.

Section PopupTheorems.
Import Popup.

(** X12.  The statuses of one upload: without a file nothing is written;
    otherwise the progress statuses 20%, 40%, 60%, 80%, 100% are written in
    this order, either all of them, ending on "Detection complete", or the
    first one, two or three followed by one red error status at 0%, after
    which nothing more is written. *)
Theorem handleImageUpload_statuses (B : Browser) (env : Env) (files : list File)
    (page : Page) :
  match files with
  | [] => handleImageUpload B env files page = page
  | _ :: _ =>
      (history (handleImageUpload B env files page) = history page ++ progressStatuses
       /\ status (handleImageUpload B env files page) = completeStatus)
      \/ exists (n : nat) (err : thrown),
           (1 <= n <= 3)%nat
           /\ history (handleImageUpload B env files page)
              = history page ++ take n progressStatuses ++ [errorStatus err]
           /\ status (handleImageUpload B env files page) = errorStatus err
  end.
Proof.
  destruct files as [| file files]; [reflexivity |].
  unfold handleImageUpload, loadImage.
  destruct (decode env file) as [img |].
  - destruct (showPreview env img _) as [page1 | e] eqn:Hp.
    + apply showPreview_keeps in Hp as (Hs & Hh & _).
      destruct (processImage B (Element img)) as [r | e].
      * destruct (sendMessage env (messageOf r)) as [response | err].
        -- left. cbn. rewrite Hh. cbn. rewrite <- !app_assoc. split; reflexivity.
        -- right. exists 3%nat, err. split; [lia |]. cbn. rewrite Hh. cbn.
           rewrite <- !app_assoc. split; reflexivity.
      * right. exists 2%nat, (ThrownError e). split; [lia |]. cbn. rewrite Hh. cbn.
        rewrite <- !app_assoc. split; reflexivity.
    + right. exists 1%nat, (ThrownError e). split; [lia |]. cbn.
      rewrite <- !app_assoc. split; reflexivity.
  - right. exists 1%nat, ThrownEvent. split; [lia |]. cbn.
    rewrite <- !app_assoc. split; reflexivity.
Qed.

(** X13.  "Detection complete" is shown exactly when the file decoded, the
    preview was drawn, [processImage] resolved and the message promise was
    fulfilled, with whatever response: an [{error: ...}] answer of the
    worker is not shown as an error. *)
Theorem detection_complete_iff (B : Browser) (env : Env) (file : File)
    (files : list File) (page : Page) :
  status (handleImageUpload B env (file :: files) page) = completeStatus
  <-> exists (img : HTMLImageElement) (page1 : Page) (r : LetterboxResult)
             (response : Response),
        decode env file = Some img
        /\ showPreview env img (updateStatus "Loading image..." 20 false page) = Ok page1
        /\ processImage B (Element img) = Ok r
        /\ sendMessage env (messageOf r) = Fulfil response.
Proof.
  unfold handleImageUpload, loadImage. split.
  - destruct (decode env file) as [img |]; [| discriminate].
    destruct (showPreview env img _) as [page1 | e] eqn:H1; [| discriminate].
    destruct (processImage B (Element img)) as [r | e] eqn:H2; [| discriminate].
    destruct (sendMessage env (messageOf r)) as [response | err] eqn:H3;
      [| discriminate].
    intros _. exists img, page1, r, response. auto.
  - intros (img & page1 & r & response & -> & -> & -> & ->). reflexivity.
Qed.

(** X14.  One upload sends at most one message, and only after
    [processImage] resolved; the message has type [PROCESS_IMAGE], the
    dimensions [1, 3, 320, 320], as many samples as the dimensions
    multiply to, all in [[0, 1]], and the resize factor 1. *)
Theorem handleImageUpload_message (B : Browser) (env : Env) (files : list File)
    (page : Page) :
  sent (handleImageUpload B env files page) = sent page
  \/ exists (img : HTMLImageElement) (r : LetterboxResult),
       processImage B (Element img) = Ok r
       /\ sent (handleImageUpload B env files page) = sent page ++ [messageOf r]
       /\ type (messageOf r) = "PROCESS_IMAGE"%string
       /\ dimensions (messageOf r) = [1; 3; 320; 320]
       /\ Z.of_nat (length (tensorData (messageOf r))) = product (dimensions (messageOf r))
       /\ Forall in_unit (tensorData (messageOf r))
       /\ resizeFactor (messageOf r) = Num 1.
Proof.
  destruct files as [| file files]; [left; reflexivity |].
  unfold handleImageUpload, loadImage.
  destruct (decode env file) as [img |]; [| left; reflexivity].
  destruct (showPreview env img _) as [page1 | e] eqn:Hp; [| left; reflexivity].
  apply showPreview_keeps in Hp as (_ & _ & Hsent).
  destruct (processImage B (Element img)) as [r | e] eqn:Hr;
    [| left; cbn; exact Hsent].
  right. exists img, r. split; [exact Hr |].
  destruct (processImage_message B _ r Hr) as (Hd & Hl & Hu & Hf).
  split.
  - destruct (sendMessage env (messageOf r)); cbn; rewrite Hsent; reflexivity.
  - cbn [type dimensions tensorData resizeFactor messageOf]. auto.
Qed.

(** X15.  A file that does not decode: [loadImage] rejects with the error
    event, the popup shows "Error: [object Event]" in red at 0%, and neither
    draws a preview nor sends a message. *)
Theorem handleImageUpload_undecodable (B : Browser) (env : Env) (file : File)
    (files : list File) (page : Page) :
  decode env file = None ->
  status (handleImageUpload B env (file :: files) page)
  = {| textContent := "Error: [object Event]"; barWidth := "0%"; color := "#c00" |}
  /\ sent (handleImageUpload B env (file :: files) page) = sent page
  /\ previewCanvas (handleImageUpload B env (file :: files) page) = previewCanvas page.
Proof.
  intros Hd. unfold handleImageUpload, loadImage. rewrite Hd. cbn. auto.
Qed.

Lemma handleImageUpload_undecodable_witness :
  status (handleImageUpload lenientBrowser (undecodableEnv (ErrorResponse notInitialized))
            (sampleFile :: []) emptyPage)
  = {| textContent := "Error: [object Event]"; barWidth := "0%"; color := "#c00" |}
  /\ sent (handleImageUpload lenientBrowser (undecodableEnv (ErrorResponse notInitialized))
             (sampleFile :: []) emptyPage) = sent emptyPage
  /\ previewCanvas
       (handleImageUpload lenientBrowser (undecodableEnv (ErrorResponse notInitialized))
          (sampleFile :: []) emptyPage) = previewCanvas emptyPage.
Proof.
  apply handleImageUpload_undecodable. reflexivity.
Defined.

(** X16.  The popup and the worker fit together: when the message of the
    popup reaches a worker with a loaded session as it was sent, the tensor
    constructor accepts it (its length is the product of its dimensions)
    and the request is run, not answered with an error. *)
Theorem popup_message_is_run (B : Browser) (input : ImageSource) (w : Worker)
    (s : Session) :
  ortSession w = Some s ->
  match processImage B input with
  | Ok r =>
      exists w',
        step ortEngine w (Background.Message (requestOf (messageOf r))) = Some w'
        /\ calls w' = calls w ++ [TensorCall (nextRequest w); RunCall s (nextRequest w)]
        /\ pendingRun w' = {[nextRequest w]} ∪ pendingRun w
        /\ responses w' = responses w
  | Throw e => browserThrew B input e
  end.
Proof.
  intros Hs. pose proof (processImage_cases B input) as Hc.
  destruct (processImage B input) as [r | e] eqn:Hr; [| exact Hc].
  destruct (processImage_message B input r Hr) as (Hd & Hl & _).
  rewrite Hd in Hl. change (product [1; 3; 320; 320]) with 307200 in Hl.
  cbn [step requestOf Background.type type messageOf].
  cbn [String.eqb Ascii.eqb Bool.eqb]. unfold handleProcessImage. rewrite Hs.
  cbn [newTensor ortEngine Background.tensorData Background.dimensions requestOf
         tensorData dimensions messageOf].
  unfold tensorError. rewrite Hd, Hl.
  replace (calculateSize 0 (of_int 1) [1; 3; 320; 320]) with (Ok (of_int 307200))
    by (vm_compute; reflexivity).
  replace (strictEq (of_int 307200) (of_int 307200)) with true by reflexivity.
  eexists. split; [reflexivity |]. cbn [calls pendingRun responses]. auto.
Qed.

Lemma popup_message_is_run_witness :
  match processImage lenientBrowser (Bitmap (solidBitmap 640 480 white)) with
  | Ok r =>
      exists w',
        step ortEngine readyWorker (Background.Message (requestOf (messageOf r))) = Some w'
        /\ calls w'
           = calls readyWorker
             ++ [TensorCall (nextRequest readyWorker);
                 RunCall sampleSession (nextRequest readyWorker)]
        /\ pendingRun w' = {[nextRequest readyWorker]} ∪ pendingRun readyWorker
        /\ responses w' = responses readyWorker
  | Throw e => browserThrew lenientBrowser (Bitmap (solidBitmap 640 480 white)) e
  end.
Proof.
  apply (popup_message_is_run lenientBrowser (Bitmap (solidBitmap 640 480 white))
           readyWorker sampleSession).
  reflexivity.
Defined.

End PopupTheorems.
